(** * PaymentAggregation: the record pipeline of [aggregate_payments.py]

    A shallow embedding of the parser ([create_payments]), the identity
    resolver ([Payment.get_sql_fields], [query_payments]), the aggregator
    ([group_payments], [sum_payments]), the writer ([write_payments]), the
    file discovery ([get_file_name], [read_file]) and the steps of the
    script, followed by the properties established about them. *)

From Stdlib Require Import ZArith QArith Qpower Lia Lqa Ascii String List.
From Stdlib Require Import DecimalString DecimalN DecimalPos.
From Stdlib Require Import Floats.SpecFloat.
From stdpp Require Import base option list strings gmap.

Local Open Scope string_scope.
Local Open Scope nat_scope.

(** ** Python values and exceptions *)

(** The exceptions the modelled functions can raise.  [OSError] stands
    for the errors of the operating system other than a missing file. *)
Inductive exn : Type :=
| IndexError
| ValueError
| AttributeError
| TypeError
| FileNotFoundError
| SameFileError
| OSError
| OverflowError.

Inductive result (A : Type) : Type :=
| Ok (a : A)
| Raise (e : exn).
Arguments Ok {A} a.
Arguments Raise {A} e.

#[global] Instance result_ret : MRet result := fun A a => Ok a.

#[global] Instance result_bind : MBind result := fun A B k r =>
  match r with
  | Ok a => k a
  | Raise e => Raise e
  end.

(** [l[i]] for a non-negative index. *)
Definition getitem {A : Type} (l : list A) (i : nat) : result A :=
  match l !! i with
  | Some a => Ok a
  | None => Raise IndexError
  end.

(** [range(start, stop, step)] for a positive step. *)
Definition py_range (start stop step : nat) : list nat :=
  map (fun j => start + j * step) (seq 0 ((stop - start + (step - 1)) / step)).

(** The double quote character, and a value wrapped in double quotes. *)
Definition dq : ascii := "034"%char.

Definition quoted (s : string) : string :=
  String dq (s +:+ String dq EmptyString).

(** [s[start:stop]] with Python's treatment of negative and out-of-range
    bounds. *)
Definition clamp_index (len i : Z) : Z :=
  if (i <? 0)%Z then Z.max (len + i) 0 else Z.min i len.

Definition py_slice (start stop : Z) (s : string) : string :=
  let len := Z.of_nat (String.length s) in
  let a := clamp_index len start in
  let b := clamp_index len stop in
  substring (Z.to_nat a) (Z.to_nat (b - a)) s.

(** ** The Payment object *)

(** An instance's [__dict__]: attribute names with their values, in
    insertion order.  The [defaults] attribute, which holds the table
    below and is skipped by every reader, is left out. *)
Definition Payment : Type := list (string * string).

Fixpoint setattr (key value : string) (d : Payment) : Payment :=
  match d with
  | [] => [(key, value)]
  | (k, v) :: d' =>
      if String.eqb k key then (k, value) :: d' else (k, v) :: setattr key value d'
  end.

Fixpoint lookup_attr (key : string) (d : Payment) : option string :=
  match d with
  | [] => None
  | (k, v) :: d' => if String.eqb k key then Some v else lookup_attr key d'
  end.

Definition getattr (p : Payment) (key : string) : result string :=
  match lookup_attr key p with
  | Some v => Ok v
  | None => Raise AttributeError
  end.

Definition setattrs (kwargs : list (string * string)) (d : Payment) : Payment :=
  fold_left (fun acc kv => setattr kv.1 kv.2 acc) kwargs d.

Section Run.

(** The date stamp, a module global set under [__main__]. *)
Variable SYSTIME : string.

Definition defaults : list (string * string) :=
  [ ("interface_source", quoted "BEN");
    ("batch_run_id", quoted "NOT SET");
    ("posting_ref", quoted "NOT SET");
    ("account_ref", quoted "NOT SET");
    ("payee_type", quoted "CL");
    ("payee_name", quoted "NOT SET");
    ("payee_address", quoted "NOT SET");
    ("claim_ref", quoted "NOT SET");
    ("claimant_name", quoted "Aggregated DHP UC Payment");
    ("claimant_adddress", quoted "Aggregated DHP UC Payment");
    ("amount", quoted "amount");
    ("posting_start_date", quoted SYSTIME);
    ("posting_end_date", quoted SYSTIME);
    ("payment_method", quoted "BACS");
    ("creditor_account_ref", quoted EmptyString);
    ("sort_code", quoted "NOT SET");
    ("bank_account", quoted "NOT SET");
    ("bank_account_name", quoted "NOT SET");
    ("building_society_num", quoted "NOT SET");
    ("post_office_name", quoted EmptyString);
    ("post_office_address", quoted EmptyString);
    ("collection_flag", quoted "N");
    ("document_num", quoted EmptyString);
    ("document_type", quoted EmptyString);
    ("replacement_flag", quoted "N");
    ("effective_date", quoted SYSTIME);
    ("blank_one", quoted EmptyString);
    ("blank_two", quoted EmptyString);
    ("document_date", quoted EmptyString) ].

(** [Payment.__init__]: the defaults first, then the keyword arguments. *)
Definition Payment_init (kwargs : list (string * string)) : Payment :=
  setattrs kwargs (setattrs defaults []).

(** [Payment.get_sql_fields]: the four identity fields, each sliced
    [[1:-2]], in the order the queries take them. *)
Record sql_fields : Type := {
  sql_bank_account : string;
  sql_sort_code : string;
  sql_payee_name : string;
  sql_building_society_num : string }.

Definition get_sql_fields (self : Payment) : result sql_fields :=
  bank_account ← getattr self "bank_account";
  sort_code ← getattr self "sort_code";
  payee_name ← getattr self "payee_name";
  building_society_num ← getattr self "building_society_num";
  Ok {| sql_bank_account := py_slice 1 (-2) bank_account;
        sql_sort_code := py_slice 1 (-2) sort_code;
        sql_payee_name := py_slice 1 (-2) payee_name;
        sql_building_society_num := py_slice 1 (-2) building_society_num |}.

(** ** Record parser *)

(** The record that starts at line [i]. *)
Definition create_payment (lines : list string) (i : nat) : result Payment :=
  batch_run_id ← getitem lines (i + 1);
  posting_ref ← getitem lines (i + 2);
  payee_name ← getitem lines (i + 17);
  payee_address ← getitem lines (i + 6);
  claim_ref ← getitem lines (i + 7);
  amount ← getitem lines (i + 10);
  sort_code ← getitem lines (i + 15);
  bank_account ← getitem lines (i + 16);
  bank_account_name ← getitem lines (i + 17);
  building_society_num ← getitem lines (i + 18);
  Ok (Payment_init
        [ ("batch_run_id", batch_run_id);
          ("posting_ref", posting_ref);
          ("payee_name", payee_name);
          ("payee_address", payee_address);
          ("claim_ref", claim_ref);
          ("amount", amount);
          ("sort_code", sort_code);
          ("bank_account", bank_account);
          ("bank_account_name", bank_account_name);
          ("building_society_num", building_society_num) ]).

Definition create_payments (lines : list string) : result (list Payment) :=
  mapM (create_payment lines) (py_range 1 (length lines) 29).

End Run.


(** ** Python floats: IEEE 754 binary64, round to nearest, ties to even *)

(** A float is a value of the standard library's [spec_float]: a signed
    zero, a signed infinity, NaN, or [S754_finite s m e] for
    [(-1) ^ s * m * 2 ^ e].  Every operation computes the exact rational
    result and rounds it once. *)
Module Float.

Local Open Scope Z_scope.

(** The nearest integer to [p / q], ties to the even one ([0 <= p], [0 < q]). *)
Definition round_half_even (p q : Z) : Z :=
  let k := p / q in
  match 2 * (p mod q) ?= q with
  | Lt => k
  | Gt => k + 1
  | Eq => if Z.even k then k else k + 1
  end.

(** [floor (log2 (p / q))] for positive [p] and [q]. *)
Definition ilog2_ratio (p q : Z) : Z :=
  let d := Z.log2 p - Z.log2 q in
  let below := if 0 <=? d then p <? q * 2 ^ d else p * 2 ^ (- d) <? q in
  if below then d - 1 else d.

(** The binary64 value nearest to [p / q] ([0 <= p], [0 < q]), with sign
    [s]: 53 significant bits, exponents of the last bit from -1074 to 971,
    overflow to infinity. *)
Definition round_ratio (s : bool) (p q : Z) : spec_float :=
  if p =? 0 then S754_zero s
  else
    let e := Z.max (ilog2_ratio p q - 52) (-1074) in
    let m := if 0 <=? e then round_half_even p (q * 2 ^ e)
             else round_half_even (p * 2 ^ (- e)) q in
    let '(m, e) := if m =? 2 ^ 53 then (2 ^ 52, e + 1) else (m, e) in
    if m =? 0 then S754_zero s
    else if 971 <? e then S754_infinity s
    else S754_finite s (Z.to_pos m) e.

(** The binary64 value nearest to [n * 2 ^ e] ([0 <= n]). *)
Definition round_dyadic (s : bool) (n e : Z) : spec_float :=
  if 0 <=? e then round_ratio s (n * 2 ^ e) 1 else round_ratio s n (2 ^ (- e)).

(** The binary64 value nearest to [n * 10 ^ e] ([0 <= n]). *)
Definition round_decimal (s : bool) (n e : Z) : spec_float :=
  if 0 <=? e then round_ratio s (n * 10 ^ e) 1 else round_ratio s n (10 ^ (- e)).

(** [m] with the sign [s]. *)
Definition signed (s : bool) (m : Z) : Z := if s then - m else m.

(** [x + y] on floats: the exact sum of two finite values, rounded; an
    exact sum of zero is [+0.0]. *)
Definition add (x y : spec_float) : spec_float :=
  match x, y with
  | S754_nan, _ | _, S754_nan => S754_nan
  | S754_infinity sx, S754_infinity sy => if Bool.eqb sx sy then x else S754_nan
  | S754_infinity _, _ => x
  | _, S754_infinity _ => y
  | S754_zero sx, S754_zero sy => if Bool.eqb sx sy then x else S754_zero false
  | S754_zero _, _ => y
  | _, S754_zero _ => x
  | S754_finite sx mx ex, S754_finite sy my ey =>
      let e := Z.min ex ey in
      let n := signed sx (Z.pos mx * 2 ^ (ex - e))
               + signed sy (Z.pos my * 2 ^ (ey - e)) in
      if n =? 0 then S754_zero false else round_dyadic (n <? 0) (Z.abs n) e
  end.

(** *** [float(str)] *)

(** The characters [0] to [9] and their values. *)
Definition is_digit (c : ascii) : bool :=
  let n := Z.of_nat (nat_of_ascii c) in (48 <=? n) && (n <=? 57).

Definition digit_value (c : ascii) : Z := Z.of_nat (nat_of_ascii c) - 48.

(** Tab, line feed, vertical tab, form feed, carriage return, space, and
    the two spaces above 127 (next line, no-break space). *)
Definition is_space (c : ascii) : bool :=
  let n := Z.of_nat (nat_of_ascii c) in
  ((9 <=? n) && (n <=? 13)) || (n =? 32) || (n =? 133) || (n =? 160).

(** Leading and trailing whitespace is ignored. *)
Fixpoint lstrip (s : string) : string :=
  match s with
  | String c s' => if is_space c then lstrip s' else s
  | EmptyString => EmptyString
  end.

Fixpoint rstrip (s : string) : string :=
  match s with
  | String c s' =>
      match rstrip s' with
      | EmptyString => if is_space c then EmptyString else String c EmptyString
      | t => String c t
      end
  | EmptyString => EmptyString
  end.

(** Underscores may only stand between two digits; they are removed.
    [prev] is the character before [s]. *)
Fixpoint drop_underscores (prev : ascii) (s : string) : option string :=
  match s with
  | EmptyString => if Ascii.eqb prev "_" then None else Some EmptyString
  | String c s' =>
      if Ascii.eqb c "_" then
        if is_digit prev then drop_underscores c s' else None
      else if Ascii.eqb prev "_" && negb (is_digit c) then None
      else option_map (String c) (drop_underscores c s')
  end.

(** An optional sign; [true] for minus. *)
Definition read_sign (s : string) : bool * string :=
  match s with
  | String "-" s' => (true, s')
  | String "+" s' => (false, s')
  | _ => (false, s)
  end.

(** Reads a run of digits: the number read so far, the count of digits
    read, and what follows. *)
Fixpoint read_digits (acc : Z) (n : nat) (s : string) : Z * nat * string :=
  match s with
  | String c s' =>
      if is_digit c then read_digits (10 * acc + digit_value c) (S n) s'
      else (acc, n, s)
  | EmptyString => (acc, n, s)
  end.

(** [inf], [infinity] and [nan] are matched without regard to case. *)
Definition lower (c : ascii) : ascii :=
  let n := nat_of_ascii c in
  if ((65 <=? n) && (n <=? 90))%nat then ascii_of_nat (n + 32) else c.

Fixpoint lowercase (s : string) : string :=
  match s with
  | String c s' => String (lower c) (lowercase s')
  | EmptyString => EmptyString
  end.

(** An unsigned decimal literal [digits[.digits][e[+-]digits]] as
    [(n, e)], standing for [n * 10 ^ e]. *)
Definition parse_decimal (s : string) : option (Z * Z) :=
  let '(ip, ni, s1) := read_digits 0 0 s in
  let '(m, nf, s2) :=
    match s1 with
    | String "." s1' => read_digits ip 0 s1'
    | _ => (ip, 0%nat, s1)
    end in
  if (ni + nf =? 0)%nat then None
  else
    match s2 with
    | EmptyString => Some (m, - Z.of_nat nf)
    | String c s3 =>
        if Ascii.eqb (lower c) "e" then
          let '(neg, s4) := read_sign s3 in
          let '(x, nx, s5) := read_digits 0 0 s4 in
          if (nx =? 0)%nat then None
          else
            match s5 with
            | EmptyString => Some (m, signed neg x - Z.of_nat nf)
            | _ => None
            end
        else None
    end.

(** [float(s)]: the float nearest to the number written, or ValueError. *)
Definition of_string (s : string) : result spec_float :=
  match drop_underscores "000" (rstrip (lstrip s)) with
  | None => Raise ValueError
  | Some t =>
      let '(neg, u) := read_sign t in
      let l := lowercase u in
      if String.eqb l "inf" || String.eqb l "infinity" then Ok (S754_infinity neg)
      else if String.eqb l "nan" then Ok S754_nan
      else
        match parse_decimal u with
        | Some (n, e) => Ok (round_decimal neg n e)
        | None => Raise ValueError
        end
  end.

(** *** [format(x, '.2f')] *)

(** The decimal digits of a natural number. *)
Definition str_of_Z (n : Z) : string :=
  NilZero.string_of_uint (N.to_uint (Z.to_N n)).

(** A number below 100 as two digits. *)
Definition two_digits (n : Z) : string :=
  String (ascii_of_nat (48 + Z.to_nat (n / 10)))
    (String (ascii_of_nat (48 + Z.to_nat (n mod 10))) EmptyString).

(** A non-negative number of hundredths, written with two decimals. *)
Definition format_hundredths (s : bool) (r : Z) : string :=
  (if s then "-" else EmptyString) +:+ str_of_Z (r / 100) +:+ "." +:+ two_digits (r mod 100).

(** ['{0:.2f}'.format(x)]: the value of [x] rounded to hundredths, ties
    to even. *)
Definition format_2f (x : spec_float) : string :=
  match x with
  | S754_nan => "nan"
  | S754_infinity s => if s then "-inf" else "inf"
  | S754_zero s => format_hundredths s 0
  | S754_finite s m e =>
      format_hundredths s
        (if 0 <=? e then 100 * Z.pos m * 2 ^ e
         else round_half_even (100 * Z.pos m) (2 ^ (- e)))
  end.

End Float.

(** ** Identity resolver *)

Section Resolver.

(** The reference store behind the [pyodbc] connection, and what executing
    the two statements of [sql/insert_query.sql] and [sql/select_query.sql]
    with a parameter tuple does to it: the first returns the store after
    the statement, the second the first column of the first row fetched,
    as text, or [None] when no row comes back. *)
Variable connection : Type.
Variable insert_query : connection -> list string -> connection.
Variable select_query : connection -> list string -> option string.

(** One iteration of the loop of [query_payments]. *)
Definition query_payment (conn : connection) (payment : Payment)
  : result (connection * Payment) :=
  sql ← get_sql_fields payment;
  let conn' :=
    insert_query conn
      [ sql_bank_account sql; sql_sort_code sql; sql_payee_name sql;
        sql_building_society_num sql; sql_bank_account sql;
        sql_sort_code sql; sql_payee_name sql;
        sql_building_society_num sql ] in
  match select_query conn'
          [ sql_bank_account sql; sql_sort_code sql; sql_payee_name sql;
            sql_building_society_num sql ] with
  | Some ref => Ok (conn', setattr "account_ref" (quoted ref) payment)
  | None => Raise TypeError
  end.

(** [query_payments]: the payments are updated in place; the model returns
    them, in the same order, with the store after the last statement. *)
Fixpoint query_payments (conn : connection) (payments : list Payment)
  : result (connection * list Payment) :=
  match payments with
  | [] => Ok (conn, [])
  | payment :: rest =>
      '(conn', payment') ← query_payment conn payment;
      '(conn'', rest') ← query_payments conn' rest;
      Ok (conn'', payment' :: rest')
  end.

End Resolver.

(** ** Aggregator *)

(** A [dict] from account reference to the payments that carry it, in
    insertion order of the keys. *)
Definition groups_dict : Type := list (string * list Payment).

(** [groups.setdefault(key, []).append(payment)] *)
Fixpoint setdefault_append (key : string) (payment : Payment) (groups : groups_dict)
  : groups_dict :=
  match groups with
  | [] => [(key, [payment])]
  | (k, ps) :: groups' =>
      if String.eqb k key then (k, (ps ++ [payment])%list) :: groups'
      else (k, ps) :: setdefault_append key payment groups'
  end.

Fixpoint group_payments_from (groups : groups_dict) (payments : list Payment)
  : result groups_dict :=
  match payments with
  | [] => Ok groups
  | payment :: rest =>
      account_ref ← getattr payment "account_ref";
      group_payments_from (setdefault_append account_ref payment groups) rest
  end.

Definition group_payments (payments : list Payment) : result groups_dict :=
  group_payments_from [] payments.

(** The inner loop of [sum_payments]: [total] starts as the integer [0],
    which adds to a float as [0.0] does and formats as [0.0] does. *)
Fixpoint sum_amounts (total : spec_float) (payments : list Payment)
  : result spec_float :=
  match payments with
  | [] => Ok total
  | payment :: rest =>
      text ← getattr payment "amount";
      amount ← Float.of_string (py_slice 1 (-2) text);
      sum_amounts (Float.add total amount) rest
  end.

Section Aggregate.

Variable SYSTIME : string.

(** The body of the outer loop of [sum_payments]: the record for one group. *)
Definition sum_group (payments : list Payment) : result Payment :=
  total ← sum_amounts (S754_zero false) payments;
  let str_total := quoted (Float.format_2f total) in
  first ← getitem payments 0;
  batch_run_id ← getattr first "batch_run_id";
  posting_ref ← getattr first "posting_ref";
  account_ref ← getattr first "account_ref";
  payee_name ← getattr first "payee_name";
  payee_address ← getattr first "payee_address";
  claim_ref ← getattr first "claim_ref";
  sort_code ← getattr first "sort_code";
  bank_account ← getattr first "bank_account";
  bank_account_name ← getattr first "bank_account_name";
  building_society_num ← getattr first "building_society_num";
  Ok (Payment_init SYSTIME
        [ ("batch_run_id", batch_run_id);
          ("posting_ref", posting_ref);
          ("account_ref", account_ref);
          ("payee_name", payee_name);
          ("payee_address", payee_address);
          ("claim_ref", claim_ref);
          ("amount", str_total);
          ("sort_code", sort_code);
          ("bank_account", bank_account);
          ("bank_account_name", bank_account_name);
          ("building_society_num", building_society_num) ]).

Definition sum_payments (groups : groups_dict) : result (list Payment) :=
  mapM (fun group => sum_group group.2) groups.

End Aggregate.

(** ** Writer *)

(** [str.splitlines]: the line boundaries are line feed, carriage return
    (alone or before a line feed), vertical tab, form feed, the file, group
    and record separators and next line. *)
Definition is_linebreak (c : ascii) : bool :=
  let n := nat_of_ascii c in
  ((10 <=? n) && (n <=? 13)) || ((28 <=? n) && (n <=? 30)) || (n =? 133).

Fixpoint splitlines (s : string) : list string :=
  match s with
  | EmptyString => []
  | String c s' =>
      let rest := splitlines s' in
      if is_linebreak c then
        match s' with
        | String c' _ =>
            if Ascii.eqb c "013" && Ascii.eqb c' "010" then rest
            else EmptyString :: rest
        | EmptyString => EmptyString :: rest
        end
      else
        match rest with
        | [] => [String c EmptyString]
        | line :: rest' => String c line :: rest'
        end
  end.

(** [s.replace(old, new)] for a non-empty [old]; [skip] counts the
    characters of a match still to pass over. *)
Fixpoint replace_from (old new : string) (skip : nat) (s : string) : string :=
  match s with
  | EmptyString => EmptyString
  | String c s' =>
      match skip with
      | S k => replace_from old new k s'
      | O =>
          if String.prefix old s then new +:+ replace_from old new (String.length old - 1) s'
          else String c (replace_from old new 0 s')
      end
  end.

Definition replace (old new s : string) : string := replace_from old new 0 s.

(** [str(n)] for a natural number. *)
Definition str_of_nat (n : nat) : string := Float.str_of_Z (Z.of_nat n).

Definition newline : string := String "010" EmptyString.

(** The lines written for one record: every attribute but [defaults], in
    [__dict__] order. *)
Definition payment_lines (payment : Payment) : string :=
  fold_left
    (fun out kv =>
       if negb (String.eqb kv.1 "defaults") then out +:+ kv.2 +:+ newline else out)
    payment EmptyString.

Section Writer.

Variable WRITETIME : string.
Variable f : string.

Definition already_checked_log : string := ".\logs\already_checked.log".

Definition payments_log : string := ".\logs\payments.log".

(** Opening a file in mode ['a'] and writing [text] to it. *)
Definition append_file (fs : gmap string string) (path text : string)
  : gmap string string :=
  <[path := default EmptyString (fs !! path) +:+ text]> fs.

(** [write_payments] over a file system of path-to-content bindings.
    Directories are not modelled: [os.makedirs] and the [open] calls are
    taken to find the directories they need, and [shutil.copy2] to meet
    one file behind two paths only when the paths are equal.  The model
    has no exception for a missing directory or for another spelling of
    [path]: where it returns, the code returns the same or raises one of
    those. *)
Definition write_payments (fs : gmap string string)
    (path backup : string) (summed_payments : list Payment)
  : result (gmap string string * string) :=
  let temp_new_file := replace "\data" "\new" f in
  match fs !! path with
  | None => Raise FileNotFoundError
  | Some original =>
      if String.eqb path backup then Raise SameFileError
      else
        let fs1 := <[backup := original]> fs in
        header ← getitem (splitlines original) 0;
        let body := fold_left (fun out payment => out +:+ payment_lines payment)
                      summed_payments (header +:+ newline) in
        let count := fold_left (fun count _ => count + 1) summed_payments 0 in
        let fs2 := <[temp_new_file := body]> fs1 in
        let fs3 := append_file fs2 already_checked_log (path +:+ newline) in
        let success_string :=
          WRITETIME +:+ " - Successfully written " +:+ str_of_nat count +:+ "/"
          +:+ str_of_nat (length summed_payments) +:+ " payments to " +:+ path
          +:+ newline in
        let fs4 := append_file fs3 payments_log success_string in
        Ok (fs4, success_string)
  end.

End Writer.

(** * Vocabulary of the statements *)

(** The last binding of [key] among keyword arguments, if any. *)
Fixpoint last_binding (key : string) (kwargs : list (string * string)) (found : option string)
  : option string :=
  match kwargs with
  | [] => found
  | (k, v) :: rest =>
      last_binding key rest (if String.eqb k key then Some v else found)
  end.

(** The fields [create_payments] reads from the file. *)
Definition parsed_fields : list string :=
  [ "batch_run_id"; "posting_ref"; "payee_name"; "payee_address"; "claim_ref";
    "amount"; "sort_code"; "bank_account"; "bank_account_name";
    "building_society_num" ].

(** [p] holds the lines of the block that starts at line [i]: each parsed
    field is the line at its offset, every other field is the default. *)
Definition record_of_block (SYSTIME : string) (lines : list string) (i : nat)
    (p : Payment) : Prop :=
  getattr p "batch_run_id" = getitem lines (i + 1) /\
  getattr p "posting_ref" = getitem lines (i + 2) /\
  getattr p "payee_address" = getitem lines (i + 6) /\
  getattr p "claim_ref" = getitem lines (i + 7) /\
  getattr p "amount" = getitem lines (i + 10) /\
  getattr p "sort_code" = getitem lines (i + 15) /\
  getattr p "bank_account" = getitem lines (i + 16) /\
  getattr p "bank_account_name" = getitem lines (i + 17) /\
  getattr p "payee_name" = getitem lines (i + 17) /\
  getattr p "building_society_num" = getitem lines (i + 18) /\
  forall key, key ∉ parsed_fields -> getattr p key = getattr (defaults SYSTIME) key.

(** The fields [sum_payments] passes to the constructor. *)
Definition copied_fields : list string :=
  [ "batch_run_id"; "posting_ref"; "account_ref"; "payee_name"; "payee_address";
    "claim_ref"; "amount"; "sort_code"; "bank_account"; "bank_account_name";
    "building_society_num" ].

(** [p] holds the constructor's default in every field that
    [sum_payments] does not copy. *)
Definition holds_defaults (SYSTIME : string) (p : Payment) : Prop :=
  forall key, key ∉ copied_fields -> getattr p key = getattr (defaults SYSTIME) key.

(** Sample records: a date stamp and two payments to one payee. *)
Definition sample_SYSTIME : string := "04-NOV-2026".

Definition field_line (value : string) : string := quoted value +:+ " ".

Definition sample_payment (amount : string) : Payment :=
  Payment_init sample_SYSTIME
    [ ("batch_run_id", field_line "B0042");
      ("posting_ref", field_line "P7");
      ("account_ref", quoted "1");
      ("payee_name", field_line "J SMITH");
      ("payee_address", field_line "1 HIGH STREET");
      ("claim_ref", field_line "C100");
      ("amount", amount);
      ("sort_code", field_line "401234");
      ("bank_account", field_line "12345678");
      ("bank_account_name", field_line "J SMITH");
      ("building_society_num", field_line EmptyString) ].

(** Modelled from the spec: the reference store and the two statements of
    [sql/insert_query.sql] and [sql/select_query.sql], which are not among
    the sources.  The store keeps the identity 4-tuples in the order they
    were first inserted; the insert is an insert-if-absent keyed by the
    tuple (the first four of its eight parameters are the values, the last
    four the key of the existence test), and the select returns the
    reference the store assigned to the tuple, its rank in the store. *)
Definition ref_store : Type := list (list string).

Definition ref_store_insert (store : ref_store) (params : list string) : ref_store :=
  if decide (drop 4 params ∈ store) then store else (store ++ [take 4 params])%list.

Fixpoint ref_store_rank (store : ref_store) (identity : list string) (rank : nat)
  : option nat :=
  match store with
  | [] => None
  | row :: store' =>
      if decide (row = identity) then Some rank
      else ref_store_rank store' identity (S rank)
  end.

Definition ref_store_select (store : ref_store) (params : list string) : option string :=
  str_of_nat <$> ref_store_rank store params 1.

(** Two records of one payee whose lines differ in the number of spaces
    after the closing quote only. *)
Definition payee_record (spaces amount : string) : Payment :=
  Payment_init sample_SYSTIME
    [ ("payee_name", quoted "J SMITH" +:+ spaces);
      ("amount", quoted amount +:+ spaces);
      ("sort_code", quoted "401234" +:+ spaces);
      ("bank_account", quoted "12345678" +:+ spaces);
      ("building_society_num", quoted "7" +:+ spaces) ].

(** The parameters of the select statement. *)
Definition identity_params (sql : sql_fields) : list string :=
  [ sql_bank_account sql; sql_sort_code sql; sql_payee_name sql;
    sql_building_society_num sql ].

(** The attribute names of a record in the order the constructor sets them. *)
Definition field_order : list string :=
  [ "interface_source"; "batch_run_id"; "posting_ref"; "account_ref"; "payee_type";
    "payee_name"; "payee_address"; "claim_ref"; "claimant_name"; "claimant_adddress";
    "amount"; "posting_start_date"; "posting_end_date"; "payment_method";
    "creditor_account_ref"; "sort_code"; "bank_account"; "bank_account_name";
    "building_society_num"; "post_office_name"; "post_office_address";
    "collection_flag"; "document_num"; "document_type"; "replacement_flag";
    "effective_date"; "blank_one"; "blank_two"; "document_date" ].

(** The text of an output file: the header line, then one line per field
    of each record, the fields of a record in [field_order]. *)
Definition record_text (p : Payment) : string :=
  fold_right
    (fun key text => default EmptyString (lookup_attr key p) +:+ newline +:+ text)
    EmptyString field_order.

Definition file_text (header : string) (records : list Payment) : string :=
  header +:+ newline +:+ fold_right (fun p text => record_text p +:+ text) EmptyString records.

(** The summary line for [n] records written to [path]. *)
Definition summary_line (WRITETIME : string) (written expected : nat) (path : string)
  : string :=
  WRITETIME +:+ " - Successfully written " +:+ str_of_nat written +:+ "/"
  +:+ str_of_nat expected +:+ " payments to " +:+ path +:+ newline.

Definition sample_file : string :=
  "HEADER 04112026" +:+ newline +:+ field_line "BEN" +:+ newline.

(** A whole number of hundredths written with two decimals, as in
    [12.50] for 1250. *)
Definition cents_text (c : Z) : string := Float.format_hundredths false c.

(** The exact sum of amounts given in hundredths, with two decimals. *)
Definition exact_total (cents : list Z) : string :=
  cents_text (fold_right Z.add 0%Z cents).

(** [p] carries the amount of [c] hundredths: its text in quotes, followed
    by one character. *)
Definition amount_is_cents (p : Payment) (c : Z) : Prop :=
  (0 <= c)%Z /\
  exists ch, getattr p "amount" = Ok (quoted (cents_text c) +:+ String ch EmptyString).

(** A file of one header line and one block of 29 lines. *)
Definition sample_block : list string :=
  map field_line
    [ "BEN"; "B0042"; "P7"; "A1"; "CL"; "J SMITH"; "1 HIGH STREET"; "C100";
      "J SMITH"; "1 HIGH STREET"; "12.50"; "01-NOV-2026"; "07-NOV-2026"; "BACS";
      EmptyString; "401234"; "12345678"; "J SMITH"; "7"; EmptyString;
      EmptyString; "N"; EmptyString; EmptyString; "N"; "04-NOV-2026";
      EmptyString; EmptyString; EmptyString ].

Definition sample_lines : list string := "HEADER 04112026" :: sample_block.

(** The same file with one more line, and with twenty more. *)
Definition short_lines : list string := (sample_lines ++ [field_line "BEN"])%list.

Definition long_lines : list string := (sample_lines ++ take 20 sample_block)%list.

(** A group of two payments to one payee. *)
Definition sample_groups : groups_dict :=
  [ (quoted "1", [sample_payment (field_line "5.00"); sample_payment (field_line "7.50")]) ].

(** A record that holds a payee type of its own. *)
Definition typed_payment : Payment :=
  Payment_init sample_SYSTIME
    [ ("payee_type", quoted "XX"); ("amount", field_line "5.00") ].

(** A file of two blocks for one payee, with amounts 5.00 and 7.50. *)
Definition two_payment_lines : list string :=
  ("HEADER 04112026" :: <[10 := field_line "5.00"]> sample_block
     ++ <[10 := field_line "7.50"]> sample_block)%list.

(** The steps of [__main__] from the lines of the file to the summed
    records, run against the store modelled above. *)
Definition run_pipeline (SYSTIME : string) (lines : list string) : result (list Payment) :=
  payments ← create_payments SYSTIME lines;
  '(_, resolved) ← query_payments ref_store ref_store_insert ref_store_select [] payments;
  groups ← group_payments resolved;
  sum_payments SYSTIME groups.

Section AccuracyVocabulary.

Local Open Scope Z_scope.

(** ** Vocabulary of the accuracy statements *)

(** [2 ^ e] as a rational. *)
Definition pow2 (e : Z) : Q := (2 ^ e)%Q.

(** The rational a finite float stands for. *)
Definition F2Q (x : spec_float) : Q :=
  match x with
  | S754_finite s m e => (inject_Z (Float.signed s (Z.pos m)) * pow2 e)%Q
  | _ => 0%Q
  end.

(** The unit roundoff of binary64, [2 ^ -53]. *)
Definition u53 : Q := 1 # 9007199254740992.

(** Floats that are zero or positive. *)
Definition nonneg (x : spec_float) : Prop :=
  x = S754_zero false \/ exists m e, x = S754_finite false m e.

(** [t] lies within a relative error of [4 * k * u53] of [C] hundredths. *)
Definition within (t : spec_float) (C : Z) (k : nat) : Prop :=
  let s0 := (inject_Z C * (1 # 100))%Q in
  let ck := (4 * u53 * inject_Z (Z.of_nat k))%Q in
  (s0 - ck * s0 <= F2Q t <= s0 + ck * s0)%Q.

(** The number a run of decimal digits adds to [acc]. *)
Fixpoint uint_acc (acc : Z) (d : Decimal.uint) : Z :=
  match d with
  | Decimal.Nil => acc
  | Decimal.D0 d' => uint_acc (10 * acc + 0) d'
  | Decimal.D1 d' => uint_acc (10 * acc + 1) d'
  | Decimal.D2 d' => uint_acc (10 * acc + 2) d'
  | Decimal.D3 d' => uint_acc (10 * acc + 3) d'
  | Decimal.D4 d' => uint_acc (10 * acc + 4) d'
  | Decimal.D5 d' => uint_acc (10 * acc + 5) d'
  | Decimal.D6 d' => uint_acc (10 * acc + 6) d'
  | Decimal.D7 d' => uint_acc (10 * acc + 7) d'
  | Decimal.D8 d' => uint_acc (10 * acc + 8) d'
  | Decimal.D9 d' => uint_acc (10 * acc + 9) d'
  end.

(** No character of the text is an underscore. *)
Fixpoint no_underscore (s : string) : bool :=
  match s with
  | EmptyString => true
  | String c s' => negb (Ascii.eqb c "_") && no_underscore s'
  end.

#[global] Instance spec_float_eq_dec : EqDecision spec_float.
Proof. solve_decision. Defined.

(** Floats of every kind and magnitude, to compare operations on. *)
Definition sample_floats : list spec_float :=
  [ S754_zero false; S754_zero true; S754_infinity false; S754_infinity true; S754_nan;
    S754_finite false 1 (-1074); S754_finite true 1 (-1074);
    S754_finite false 4503599627370495 (-1074);
    S754_finite false 4503599627370496 (-1074);
    S754_finite false 7205759403792794 (-56); S754_finite true 7205759403792794 (-56);
    S754_finite false 7205759403792794 (-55);
    S754_finite false 4503599627370496 (-52); S754_finite false 4503599627370497 (-52);
    S754_finite true 9007199254740991 (-53);
    S754_finite false 5629499534213120 (-49); S754_finite false 6400000000000001 (-6);
    S754_finite false 9007199254740991 0; S754_finite false 4503599627370496 1;
    S754_finite false 9007199254740991 971; S754_finite true 9007199254740991 971;
    S754_finite false 4503599627370496 971 ].

(** Quotients of integers below [2 ^ 53], to compare roundings on. *)
Definition sample_ratios : list (positive * positive) :=
  [ (1, 10); (1, 3); (2, 3); (1015, 1000); (5005, 1000); (1, 100); (99, 100);
    (1000000000000001, 100); (9007199254740991, 1); (9007199254740991, 9007199254740990);
    (1, 9007199254740991); (4503599627370497, 4503599627370496); (7, 128); (12345, 100) ]%positive.

(** The canonical float of an integer below [2 ^ 53]. *)
Definition float_of_pos (p : positive) : spec_float :=
  let shift := 52 - Z.log2 (Z.pos p) in
  S754_finite false (Z.to_pos (Z.pos p * 2 ^ shift)) (- shift).

End AccuracyVocabulary.

(** ** File discovery and reading *)

(** [s.startswith(prefix)] and [s.endswith(suffix)]. *)
Definition startswith (prefix s : string) : bool := String.prefix prefix s.

Definition endswith (suffix s : string) : bool :=
  (String.length suffix <=? String.length s)
  && String.eqb (substring (String.length s - String.length suffix)
                   (String.length suffix) s) suffix.

(** [read_file]: the lines of a file. *)
Definition read_file (fs : gmap string string) (filepath : string) : result (list string) :=
  match fs !! filepath with
  | Some text => Ok (splitlines text)
  | None => Raise FileNotFoundError
  end.

(** A file met by [os.walk]: its name and [os.path.join(root, file)]. *)
Record walk_entry : Type := { walk_file : string; walk_path : string }.

Section Discovery.

(** What the operating system answers during the call.
    [modified_after_delta path] is the outcome of the three steps
    [os.stat(path)], [datetime.fromtimestamp(stats.st_mtime)] and
    [modif > delta] for the file at [path]: the truth value of the
    comparison, or the exception that [os.stat] or [fromtimestamp] raises
    (OSError, FileNotFoundError, ValueError, OverflowError).
    [st_mtime path] is [os.stat(path).st_mtime] as the number it stands
    for; [max] asks for it only of files that [os.stat] has answered for
    in the loop. *)
Variable st_mtime : string -> Q.
Variable modified_after_delta : string -> result bool.

(** [max(l, key=st_mtime)]: the first item with the greatest key. *)
Fixpoint max_from (best : string) (l : list string) : string :=
  match l with
  | [] => best
  | item :: l' =>
      max_from (if Qle_bool (st_mtime item) (st_mtime best) then best else item) l'
  end.

Definition py_max (l : list string) : result string :=
  match l with
  | [] => Raise ValueError
  | item :: l' => Ok (max_from item l')
  end.

(** The loop of [get_file_name] over the files that [os.walk] yields,
    from [files_list] on.  The age test is run on every file whose name
    matches, before the ledger is looked at; an exception of the test
    ends the loop. *)
Fixpoint eligible_files (checked files_list : list string) (walk : list walk_entry)
  : result (list string) :=
  match walk with
  | [] => Ok files_list
  | entry :: walk' =>
      if startswith "bpy331_" (walk_file entry) && endswith ".dat" (walk_file entry) then
        after ← modified_after_delta (walk_path entry);
        if after && negb (bool_decide (walk_path entry ∈ checked))
        then eligible_files checked (files_list ++ [walk_path entry])%list walk'
        else eligible_files checked files_list walk'
      else eligible_files checked files_list walk'
  end.

Definition get_file_name (fs : gmap string string) (walk : list walk_entry)
  : result string :=
  match fs !! already_checked_log with
  | None => Raise FileNotFoundError
  | Some text =>
      files_list ← eligible_files (splitlines text) [] walk;
      py_max files_list
  end.

End Discovery.

(** ** The steps of [__main__] *)

(** How the script ends: it runs to its last line, it calls [sys.exit],
    or an exception that nothing catches ends it.  What the steps before
    the exception did to the files and the store is not kept. *)
Inductive main_outcome (connection : Type) : Type :=
| Completed (fs : gmap string string) (conn : connection)
| SysExit (fs : gmap string string) (code : Z)
| Traceback (e : exn).

Arguments Completed {connection} fs conn.
Arguments SysExit {connection} fs code.
Arguments Traceback {connection} e.

Section Main.

Variable connection : Type.
Variable insert_query : connection -> list string -> connection.
Variable select_query : connection -> list string -> option string.

(** From the lines of the file to the summed records. *)
Definition aggregate (SYSTIME : string) (conn : connection) (lines : list string)
  : result (connection * list Payment) :=
  payments ← create_payments SYSTIME lines;
  '(conn', resolved) ← query_payments connection insert_query select_query conn payments;
  groups ← group_payments resolved;
  summed_payments ← sum_payments SYSTIME groups;
  Ok (conn', summed_payments).

(** The script from the search for the file on, with the connection
    [conn] already open.  Only the ValueError of [get_file_name] is
    caught.  The records printed on the way are not modelled. *)
Definition main (WRITETIME SYSTIME : string) (st_mtime : string -> Q)
    (modified_after_delta : string -> result bool) (walk : list walk_entry)
    (fs : gmap string string) (conn : connection) : main_outcome connection :=
  match get_file_name st_mtime modified_after_delta fs walk with
  | Raise ValueError => SysExit (append_file fs payments_log (WRITETIME +:+ newline)) 1
  | Raise e => Traceback e
  | Ok f =>
      match
        (lines ← read_file fs f;
         '(conn', summed_payments) ← aggregate SYSTIME conn lines;
         let archive := replace "\data" "\archive" f in
         '(fs', _) ← write_payments WRITETIME f fs f archive summed_payments;
         Ok (fs', conn'))
      with
      | Ok (fs', conn') => Completed fs' conn'
      | Raise e => Traceback e
      end
  end.

End Main.

(** ** Vocabulary *)

(** The offsets of a block that the parser reads. *)
Definition parsed_offsets : list nat := [1; 2; 6; 7; 10; 15; 16; 17; 18].

(** The references in the order they are first seen. *)
Definition first_seen (refs : list string) : list string :=
  fold_left (fun seen ref => if bool_decide (ref ∈ seen) then seen else (seen ++ [ref])%list)
    refs [].

#[global] Instance exn_eq_dec : EqDecision exn.
Proof. solve_decision. Defined.

#[global] Instance result_eq_dec {A : Type} `{EqDecision A} : EqDecision (result A).
Proof. solve_decision. Defined.

(** The records that carry the reference [ref], in their order. *)
Definition members (ref : string) (payments : list Payment) : list Payment :=
  filter (fun p => getattr p "account_ref" = Ok ref) payments.

(** The dictionary that holds, under each reference in order of first
    appearance, the records that carry it. *)
Definition groups_by_ref (payments : list Payment) (refs : list string) : groups_dict :=
  (fun ref => (ref, members ref payments)) <$> first_seen refs.

(** No character of the text ends a line. *)
Fixpoint no_linebreak (s : string) : bool :=
  match s with
  | EmptyString => true
  | String c s' => negb (is_linebreak c) && no_linebreak s'
  end.

(** The text is empty or ends with a line feed. *)
Fixpoint ends_lines (s : string) : bool :=
  match s with
  | EmptyString => true
  | String c EmptyString => Ascii.eqb c "010"
  | String _ s' => ends_lines s'
  end.

(** The lines of an output file: the header, then the 29 fields of each
    record, in [field_order]. *)
Definition record_lines (p : Payment) : list string :=
  (fun key => default EmptyString (lookup_attr key p)) <$> field_order.

Definition file_lines (header : string) (records : list Payment) : list string :=
  header :: concat (record_lines <$> records).

(** No attribute of the record holds a line break. *)
Definition one_line_fields (p : Payment) : Prop :=
  Forall (fun value => no_linebreak value = true) p.*2.

(** [p'] is what the parser makes of the lines written for [p]: the
    nine fields it reads at their own offsets, the payee name from the
    line of the bank account name, every other field the default. *)
Definition reparsed (SYSTIME : string) (p p' : Payment) : Prop :=
  (forall key,
     key ∈ [ "batch_run_id"; "posting_ref"; "payee_address"; "claim_ref"; "amount";
             "sort_code"; "bank_account"; "bank_account_name"; "building_society_num" ] ->
     getattr p' key = getattr p key) /\
  getattr p' "payee_name" = getattr p "bank_account_name" /\
  forall key, key ∉ parsed_fields -> getattr p' key = getattr (defaults SYSTIME) key.

(** The name test of [get_file_name] on one file that [os.walk] yields,
    and the three tests together. *)
Definition name_matches (entry : walk_entry) : bool :=
  startswith "bpy331_" (walk_file entry) && endswith ".dat" (walk_file entry).

Definition is_eligible (modified_after_delta : string -> result bool)
    (checked : list string) (entry : walk_entry) : bool :=
  name_matches entry
  && bool_decide (modified_after_delta (walk_path entry) = Ok true)
  && negb (bool_decide (walk_path entry ∈ checked)).

(** The age test returns for every file of [walk] whose name matches. *)
Definition age_tests_return (modified_after_delta : string -> result bool)
    (walk : list walk_entry) : Prop :=
  Forall (fun entry => name_matches entry = true ->
                       exists after, modified_after_delta (walk_path entry) = Ok after) walk.

(** The first age test of [walk] that fails raises [e]. *)
Definition age_test_raises (modified_after_delta : string -> result bool)
    (walk : list walk_entry) (e : exn) : Prop :=
  exists before entry after,
    walk = (before ++ entry :: after)%list /\
    age_tests_return modified_after_delta before /\
    name_matches entry = true /\
    modified_after_delta (walk_path entry) = Raise e.

(** The text holds a double quote. *)
Fixpoint has_quote (s : string) : bool :=
  match s with
  | EmptyString => false
  | String c s' => Ascii.eqb c dq || has_quote s'
  end.
(** The call returned. *)
Definition succeeded {A : Type} (r : result A) : bool :=
  match r with Ok _ => true | Raise _ => false end.

(** ** Sample files *)

(** A data file of two blocks for one payee, the disk that holds it with
    an empty ledger, and what [os.walk] and [os.stat] answer there. *)
Definition sample_path : string := ".\data\bpy331_1.dat".

Definition sample_data_file : string :=
  fold_right (fun line text => line +:+ newline +:+ text) EmptyString two_payment_lines.

Definition sample_disk : gmap string string :=
  {[ sample_path := sample_data_file; already_checked_log := EmptyString ]}.

Definition sample_walk : list walk_entry :=
  [ {| walk_file := "bpy331_1.dat"; walk_path := sample_path |};
    {| walk_file := "notes.txt"; walk_path := ".\data\notes.txt" |};
    {| walk_file := "bpy331_2.dat"; walk_path := ".\data\bpy331_2.dat" |} ].

Definition sample_st_mtime (path : string) : Q :=
  if String.eqb path sample_path then 2 else 1.

(** Two resolved records of one payee and one of another. *)
Definition sample_resolved : list Payment :=
  [ sample_payment (field_line "5.00");
    setattr "account_ref" (quoted "2") (sample_payment (field_line "1.25"));
    sample_payment (field_line "7.50") ].

(** The time stamp of the run, the archive path of the sample file, and
    the age test, which every file of the sample passes. *)
Definition sample_WRITETIME : string := "04-NOV-2026 09:00:00".

Definition sample_archive : string := ".\archive\bpy331_1.dat".

Definition sample_walk_stat (path : string) : result bool := Ok true.

(** An age test that fails on the last file of the sample walk, as
    [datetime.fromtimestamp] does on a time stamp out of its range. *)
Definition sample_walk_stat_fails (path : string) : result bool :=
  if String.eqb path ".\data\bpy331_2.dat" then Raise ValueError else Ok true.

(** * Properties *)

(** ** Attribute dictionaries *)

Lemma lookup_attr_setattr key key' value d :
  lookup_attr key (setattr key' value d)
  = if String.eqb key' key then Some value else lookup_attr key d.
Proof.
  induction d as [|[k v] d IH]; simpl.
  - reflexivity.
  - destruct (String.eqb k key') eqn:Hk; simpl.
    + apply String.eqb_eq in Hk. subst k.
      destruct (String.eqb key' key); reflexivity.
    + destruct (String.eqb k key) eqn:Hkk.
      * apply String.eqb_eq in Hkk. subst k. rewrite String.eqb_sym, Hk. reflexivity.
      * exact IH.
Qed.

Lemma lookup_attr_setattrs key kwargs d :
  lookup_attr key (setattrs kwargs d) = last_binding key kwargs (lookup_attr key d).
Proof.
  revert d. induction kwargs as [|[k v] kwargs IH]; intros d; simpl.
  - reflexivity.
  - unfold setattrs in *. simpl. rewrite IH, lookup_attr_setattr. reflexivity.
Qed.

Lemma last_binding_not_in key kwargs found :
  key ∉ kwargs.*1 -> last_binding key kwargs found = found.
Proof.
  revert found. induction kwargs as [|[k v] kwargs IH]; intros found Hnot; simpl.
  - reflexivity.
  - rewrite fmap_cons in Hnot. apply not_elem_of_cons in Hnot as [Hne Hnot].
    rewrite IH by exact Hnot. simpl in Hne.
    destruct (String.eqb k key) eqn:Hk; [|reflexivity].
    apply String.eqb_eq in Hk. congruence.
Qed.

(** An attribute no keyword argument names keeps its default. *)
Lemma getattr_Payment_init_default SYSTIME kwargs key :
  key ∉ kwargs.*1 ->
  getattr (Payment_init SYSTIME kwargs) key = getattr (defaults SYSTIME) key.
Proof.
  intros Hnot. unfold getattr, Payment_init.
  rewrite lookup_attr_setattrs, last_binding_not_in by exact Hnot. reflexivity.
Qed.

(** Setting an attribute that exists keeps the order of the names. *)
Lemma setattr_keys key value d :
  key ∈ d.*1 -> (setattr key value d).*1 = d.*1.
Proof.
  induction d as [|[k v] d IH]; simpl; intros Hin.
  - inversion Hin.
  - destruct (String.eqb k key) eqn:Hk; simpl.
    + reflexivity.
    + f_equal. apply IH. apply elem_of_cons in Hin as [Heq|Hin]; [|exact Hin].
      apply String.eqb_neq in Hk. congruence.
Qed.

Lemma setattrs_keys kwargs d :
  Forall (fun key => key ∈ d.*1) kwargs.*1 -> (setattrs kwargs d).*1 = d.*1.
Proof.
  revert d. induction kwargs as [|[k v] kwargs IH]; intros d Hall; simpl.
  - reflexivity.
  - rewrite fmap_cons in Hall. apply Forall_cons in Hall as [Hk Hall]. simpl in Hk.
    unfold setattrs in *. simpl. rewrite IH.
    + apply setattr_keys, Hk.
    + rewrite setattr_keys by exact Hk. exact Hall.
Qed.

Lemma mapM_Ok_inv {A B : Type} (fn : A -> result B) (l : list A) (out : list B) :
  mapM fn l = Ok out -> Forall2 (fun a b => fn a = Ok b) l out.
Proof.
  revert out. induction l as [|a l IH]; simpl; intros out H.
  - inversion H. constructor.
  - destruct (fn a) as [b|e] eqn:Ha; simpl in H; [|discriminate].
    destruct (mapM fn l) as [bs|e] eqn:Hl; simpl in H; [|discriminate].
    inversion H. subst out. constructor; [exact Ha|]. apply IH. reflexivity.
Qed.

Lemma mapM_app_Ok {A B : Type} (fn : A -> result B) (l1 l2 : list A) out1 out2 :
  mapM fn l1 = Ok out1 -> mapM fn l2 = Ok out2 ->
  mapM fn (l1 ++ l2)%list = Ok (out1 ++ out2)%list.
Proof.
  revert out1. induction l1 as [|a l1 IH]; simpl; intros out1 H1 H2.
  - inversion H1. exact H2.
  - destruct (fn a) as [b|e]; simpl in *; [|discriminate].
    destruct (mapM fn l1) as [bs|e]; simpl in *; [|discriminate].
    inversion H1. subst out1. rewrite (IH bs eq_refl H2). reflexivity.
Qed.

Lemma mapM_app_Raise {A B : Type} (fn : A -> result B) (l1 l2 : list A) out1 e :
  mapM fn l1 = Ok out1 -> mapM fn l2 = Raise e ->
  mapM fn (l1 ++ l2)%list = Raise e.
Proof.
  revert out1. induction l1 as [|a l1 IH]; simpl; intros out1 H1 H2.
  - exact H2.
  - destruct (fn a) as [b|e']; simpl in *; [|discriminate].
    destruct (mapM fn l1) as [bs|e']; simpl in *; [|discriminate].
    rewrite (IH bs eq_refl H2). reflexivity.
Qed.

Lemma py_range_blocks (N r : nat) :
  r < 29 -> 
  py_range 1 (1 + 29 * N + r) 29
  = map (fun j => 1 + j * 29) (seq 0 (if decide (r = 0) then N else S N)).
Proof.
  intros Hr. unfold py_range. f_equal. f_equal.
  replace (1 + 29 * N + r - 1 + (29 - 1)) with ((r + 28) + N * 29) by lia.
  rewrite Nat.div_add by lia.
  destruct (decide (r = 0)) as [->|Hne].
  - simpl. reflexivity.
  - replace (r + 28) with ((r - 1) + 1 * 29) by lia.
    rewrite Nat.div_add by lia. rewrite Nat.div_small by lia. lia.
Qed.

(** ** Record parser *)

Lemma getitem_lt {A : Type} (l : list A) (i : nat) :
  i < length l -> exists a, l !! i = Some a /\ getitem l i = Ok a.
Proof.
  intros Hi. destruct (lookup_lt_is_Some_2 l i Hi) as [a Ha].
  exists a. unfold getitem. rewrite Ha. split; reflexivity.
Qed.

Lemma getitem_ge {A : Type} (l : list A) (i : nat) :
  length l <= i -> getitem l i = Raise IndexError.
Proof.
  intros Hi. unfold getitem. rewrite (lookup_ge_None_2 l i Hi). reflexivity.
Qed.

Lemma create_payment_Ok SYSTIME (lines : list string) (i : nat) :
  i + 18 < length lines ->
  exists p, create_payment SYSTIME lines i = Ok p /\ record_of_block SYSTIME lines i p.
Proof.
  intros Hlen. unfold create_payment.
  destruct (getitem_lt lines (i + 1)) as (v1 & _ & E1); [lia|].
  destruct (getitem_lt lines (i + 2)) as (v2 & _ & E2); [lia|].
  destruct (getitem_lt lines (i + 6)) as (v6 & _ & E6); [lia|].
  destruct (getitem_lt lines (i + 7)) as (v7 & _ & E7); [lia|].
  destruct (getitem_lt lines (i + 10)) as (v10 & _ & E10); [lia|].
  destruct (getitem_lt lines (i + 15)) as (v15 & _ & E15); [lia|].
  destruct (getitem_lt lines (i + 16)) as (v16 & _ & E16); [lia|].
  destruct (getitem_lt lines (i + 17)) as (v17 & _ & E17); [lia|].
  destruct (getitem_lt lines (i + 18)) as (v18 & _ & E18); [lia|].
  rewrite E1, E2, E6, E7, E10, E15, E16, E17, E18. simpl.
  eexists. split; [reflexivity|].
  unfold record_of_block.
  rewrite E1, E2, E6, E7, E10, E15, E16, E17, E18.
  split_and!; try reflexivity.
  intros key Hkey. apply (getattr_Payment_init_default SYSTIME _ key). exact Hkey.
Qed.

(** A block cut short before its offset 18 makes the parser fail. *)
Lemma create_payment_IndexError SYSTIME (lines : list string) (i : nat) :
  length lines <= i + 18 -> create_payment SYSTIME lines i = Raise IndexError.
Proof.
  intros Hlen. unfold create_payment.
  repeat match goal with
  | |- context [getitem lines ?j] =>
      let Hj := fresh "Hj" in
      destruct (decide (j < length lines)) as [Hj|Hj];
      [ destruct (getitem_lt lines j Hj) as (? & _ & ->); simpl
      | rewrite (getitem_ge lines j) by lia; reflexivity ]
  end.
  lia.
Qed.

(** The records of consecutive blocks that all lie within the file. *)
Lemma create_payment_blocks SYSTIME (lines : list string) (start n : nat) :
  29 * (start + n) < length lines ->
  exists payments,
    mapM (create_payment SYSTIME lines) (map (fun j => 1 + j * 29) (seq start n))
    = Ok payments /\
    length payments = n /\
    forall b, b < n ->
      exists p, payments !! b = Some p /\
                record_of_block SYSTIME lines (1 + 29 * (start + b)) p.
Proof.
  revert start. induction n as [|n IH]; intros start Hlen.
  - exists []. split_and!; [reflexivity|reflexivity|intros b Hb; lia].
  - destruct (create_payment_Ok SYSTIME lines (1 + start * 29)) as (p & Hp & Hrec); [lia|].
    destruct (IH (S start)) as (ps & Hps & Hlen' & Hrecs); [lia|].
    exists (p :: ps). cbn [seq map mapM]. rewrite Hp. cbn [mbind result_bind].
    rewrite Hps. cbn [mbind result_bind length].
    split_and!; [reflexivity|lia|].
    intros [|b] Hb.
    + exists p. split; [reflexivity|].
      replace (1 + 29 * (start + 0)) with (1 + start * 29) by lia. exact Hrec.
    + destruct (Hrecs b) as (p' & Hp' & Hrec'); [lia|].
      exists p'. split; [exact Hp'|].
      replace (start + S b) with (S start + b) by lia. exact Hrec'.
Qed.

(** A record depends on the lines of its own block only. *)
Lemma create_payment_take SYSTIME (lines : list string) (n i : nat) :
  i + 18 < n -> create_payment SYSTIME (take n lines) i = create_payment SYSTIME lines i.
Proof.
  intros Hi. unfold create_payment, getitem.
  rewrite !lookup_take_lt by lia. reflexivity.
Qed.

Lemma mapM_ext_Forall {A B : Type} (fn gn : A -> result B) (l : list A) :
  Forall (fun a => fn a = gn a) l -> mapM fn l = mapM gn l.
Proof.
  induction 1 as [|a l Ha _ IH]; [reflexivity|].
  cbn [mapM]. rewrite Ha, IH. reflexivity.
Qed.

(** C4: one header line followed by exactly [N] full 29-line blocks gives
    exactly [N] records; the record of block [b] takes batch_run_id,
    posting_ref, payee_address, claim_ref, amount, sort_code, bank_account,
    bank_account_name and payee_name, and building_society_num from the
    block's offsets 1, 2, 6, 7, 10, 15, 16, 17 and 18, and every other field
    from the defaults of the constructor. *)
Theorem create_payments_full_blocks SYSTIME (lines : list string) (N : nat) :
  length lines = 1 + 29 * N ->
  exists payments,
    create_payments SYSTIME lines = Ok payments /\
    length payments = N /\
    forall b, b < N ->
      exists p, payments !! b = Some p /\
                record_of_block SYSTIME lines (1 + 29 * b) p.
Proof.
  intros Hlen. unfold create_payments.
  rewrite Hlen. replace (1 + 29 * N) with (1 + 29 * N + 0) by lia.
  rewrite py_range_blocks by lia. simpl decide. cbv iota.
  apply (create_payment_blocks SYSTIME lines 0 N). lia.
Qed.

(** C5, as the code has it: with [29 * N + r] lines after the header,
    [0 < r < 29], the short trailing block is not dropped.  Up to 18
    remainder lines the parser fails with IndexError; from 19 on it returns
    the records of the [N] complete blocks followed by one more record,
    built from the remainder lines. *)
Theorem create_payments_short_trailing_block SYSTIME (lines : list string) (N r : nat) :
  length lines = 1 + 29 * N + r ->
  0 < r < 29 ->
  exists complete,
    create_payments SYSTIME (take (1 + 29 * N) lines) = Ok complete /\
    length complete = N /\
    (r <= 18 -> create_payments SYSTIME lines = Raise IndexError) /\
    (19 <= r ->
       exists p, create_payments SYSTIME lines = Ok (complete ++ [p])%list /\
                 record_of_block SYSTIME lines (1 + 29 * N) p).
Proof.
  intros Hlen Hr.
  destruct (create_payment_blocks SYSTIME lines 0 N) as (complete & Hps & Hlenc & _); [lia|].
  assert (Hcomplete : create_payments SYSTIME (take (1 + 29 * N) lines) = Ok complete).
  { unfold create_payments. rewrite length_take_le by lia.
    replace (1 + 29 * N) with (1 + 29 * N + 0) at 2 by lia.
    rewrite py_range_blocks by lia. simpl decide. cbv iota.
    rewrite <- Hps. apply mapM_ext_Forall.
    apply Forall_forall. intros i Hi.
    apply list_elem_of_In, in_map_iff in Hi as (j & <- & Hj).
    apply in_seq in Hj. apply create_payment_take. lia. }
  assert (Hrange : py_range 1 (length lines) 29
                   = (map (fun j => 1 + j * 29) (seq 0 N) ++ [1 + N * 29])%list).
  { rewrite Hlen, py_range_blocks by lia.
    destruct (decide (r = 0)); [lia|].
    rewrite seq_S, map_app. reflexivity. }
  exists complete. split_and!; [exact Hcomplete|exact Hlenc| |].
  - intros Hshort. unfold create_payments. rewrite Hrange.
    apply (mapM_app_Raise _ _ _ complete); [exact Hps|].
    cbn [mapM]. rewrite create_payment_IndexError by lia. reflexivity.
  - intros Hlong.
    destruct (create_payment_Ok SYSTIME lines (1 + N * 29)) as (p & Hp & Hrec); [lia|].
    exists p. split.
    + unfold create_payments. rewrite Hrange.
      apply mapM_app_Ok; [exact Hps|]. cbn [mapM]. rewrite Hp. reflexivity.
    + replace (1 + 29 * N) with (1 + N * 29) by lia. exact Hrec.
Qed.

(** ** Slices *)

Lemma substring_0_app (v w : string) : substring 0 (String.length v) (v +:+ w) = v.
Proof.
  induction v as [|c v IH]; simpl.
  - destruct w; reflexivity.
  - rewrite IH. reflexivity.
Qed.

Lemma length_append (v w : string) :
  String.length (v +:+ w) = String.length v + String.length w.
Proof. induction v as [|c v IH]; simpl; [reflexivity|]. rewrite IH. reflexivity. Qed.

Lemma append_assoc (u v w : string) : (u +:+ v) +:+ w = u +:+ (v +:+ w).
Proof.
  induction u as [|c u IH]; [reflexivity|].
  change (String c ((u +:+ v) +:+ w) = String c (u +:+ v +:+ w)).
  f_equal. exact IH.
Qed.

(** On a quoted value followed by exactly one character, the slice
    [[1:-2]] is the value. *)
Lemma py_slice_quoted_one_trailing (v : string) (c : ascii) :
  py_slice 1 (-2) (quoted v +:+ String c EmptyString) = v.
Proof.
  assert (Hshape : quoted v +:+ String c EmptyString
                   = String dq (v +:+ String dq (String c EmptyString))).
  { unfold quoted.
    change (String dq ((v +:+ String dq EmptyString) +:+ String c EmptyString)
            = String dq (v +:+ String dq (String c EmptyString))).
    rewrite append_assoc. reflexivity. }
  rewrite Hshape. unfold py_slice. cbn [String.length].
  rewrite length_append. cbn [String.length].
  unfold clamp_index.
  replace (1 <? 0)%Z with false by reflexivity.
  replace (-2 <? 0)%Z with true by reflexivity.
  rewrite Z.min_l by lia. rewrite Z.max_l by lia.
  replace (Z.to_nat 1) with 1 by reflexivity.
  replace (Z.to_nat _) with (String.length v) by lia.
  cbn [substring]. apply substring_0_app.
Qed.

(** ** Identity fields *)

(** C3, at a failing input: on fields whose closing quote ends the line
    the slice [[1:-2]] takes the last character of each value with the
    quote, and on fields with two trailing spaces it leaves the closing
    quote in the key. *)
Theorem get_sql_fields_fixed_slice :
  get_sql_fields
    (Payment_init sample_SYSTIME
       [ ("bank_account", quoted "12345678"); ("sort_code", quoted "401234");
         ("payee_name", quoted "J SMITH"); ("building_society_num", quoted "7") ])
  = Ok {| sql_bank_account := "1234567"; sql_sort_code := "40123";
          sql_payee_name := "J SMIT"; sql_building_society_num := EmptyString |}
  /\
  get_sql_fields
    (Payment_init sample_SYSTIME
       [ ("bank_account", quoted "12345678" +:+ "  "); ("sort_code", quoted "401234" +:+ "  ");
         ("payee_name", quoted "J SMITH" +:+ "  ");
         ("building_society_num", quoted "7" +:+ "  ") ])
  = Ok {| sql_bank_account := "12345678" +:+ String dq EmptyString;
          sql_sort_code := "401234" +:+ String dq EmptyString;
          sql_payee_name := "J SMITH" +:+ String dq EmptyString;
          sql_building_society_num := "7" +:+ String dq EmptyString |}.
Proof. split; reflexivity. Qed.

(** X3: with exactly one character after the closing quote of each field,
    the key is the four unquoted values. *)
Lemma get_sql_fields_one_trailing (p : Payment) (b s n m : string) (cb cs cn cm : ascii) :
  getattr p "bank_account" = Ok (quoted b +:+ String cb EmptyString) ->
  getattr p "sort_code" = Ok (quoted s +:+ String cs EmptyString) ->
  getattr p "payee_name" = Ok (quoted n +:+ String cn EmptyString) ->
  getattr p "building_society_num" = Ok (quoted m +:+ String cm EmptyString) ->
  get_sql_fields p
  = Ok {| sql_bank_account := b; sql_sort_code := s; sql_payee_name := n;
          sql_building_society_num := m |}.
Proof.
  intros Hb Hs Hn Hm. unfold get_sql_fields. rewrite Hb, Hs, Hn, Hm.
  cbn [mbind result_bind]. rewrite !py_slice_quoted_one_trailing. reflexivity.
Qed.

(** ** Aggregator: the fields of the output records *)

Lemma bind_Ok_inv {A B : Type} (r : result A) (k : A -> result B) (b : B) :
  (r ≫= k) = Ok b -> exists a, r = Ok a /\ k a = Ok b.
Proof. destruct r as [a|e]; simpl; [eauto|discriminate]. Qed.

Lemma sum_group_Ok_inv SYSTIME (payments : list Payment) (out : Payment) :
  sum_group SYSTIME payments = Ok out ->
  exists total first v1 v2 v3 v4 v5 v6 v7 v8 v9 v10,
    sum_amounts (S754_zero false) payments = Ok total /\
    payments !! 0 = Some first /\
    getattr first "batch_run_id" = Ok v1 /\
    getattr first "posting_ref" = Ok v2 /\
    getattr first "account_ref" = Ok v3 /\
    getattr first "payee_name" = Ok v4 /\
    getattr first "payee_address" = Ok v5 /\
    getattr first "claim_ref" = Ok v6 /\
    getattr first "sort_code" = Ok v7 /\
    getattr first "bank_account" = Ok v8 /\
    getattr first "bank_account_name" = Ok v9 /\
    getattr first "building_society_num" = Ok v10 /\
    out = Payment_init SYSTIME
            [ ("batch_run_id", v1); ("posting_ref", v2); ("account_ref", v3);
              ("payee_name", v4); ("payee_address", v5); ("claim_ref", v6);
              ("amount", quoted (Float.format_2f total)); ("sort_code", v7);
              ("bank_account", v8); ("bank_account_name", v9);
              ("building_society_num", v10) ].
Proof.
  unfold sum_group. intros H.
  apply bind_Ok_inv in H as (total & Ht & H).
  apply bind_Ok_inv in H as (first & Hf & H).
  unfold getitem in Hf. destruct (payments !! 0) as [first'|] eqn:Hfirst; [|discriminate].
  inversion Hf. subst first'.
  do 10 (apply bind_Ok_inv in H as (? & ? & H)).
  inversion H.
  eexists total, first, _, _, _, _, _, _, _, _, _, _.
  split_and!; try eassumption; reflexivity.
Qed.

Lemma sum_payments_lookup SYSTIME (groups : groups_dict) (outs : list Payment) :
  sum_payments SYSTIME groups = Ok outs ->
  length outs = length groups /\
  forall i group out, groups !! i = Some group -> outs !! i = Some out ->
    sum_group SYSTIME group.2 = Ok out.
Proof.
  intros H. apply mapM_Ok_inv in H. split.
  - symmetry. eapply Forall2_length, H.
  - intros i group out Hg Ho. exact (Forall2_lookup_lr _ _ _ _ _ _ H Hg Ho).
Qed.

(** C9: every output record of [sum_payments] holds the constructor's
    default in each field outside the eleven that are passed to the
    constructor, whatever the members of its group hold there. *)
Theorem sum_payments_resets_uncopied_fields SYSTIME (groups : groups_dict)
    (outs : list Payment) :
  sum_payments SYSTIME groups = Ok outs ->
  length outs = length groups /\
  forall out key, out ∈ outs -> key ∉ copied_fields ->
    getattr out key = getattr (defaults SYSTIME) key.
Proof.
  intros H. destruct (sum_payments_lookup _ _ _ H) as [Hlen Hlook].
  split; [exact Hlen|].
  intros out key Hout Hkey.
  apply list_elem_of_lookup in Hout as [i Hi].
  destruct (lookup_lt_is_Some_2 groups i) as [group Hg].
  { rewrite <- Hlen. eapply lookup_lt_Some, Hi. }
  specialize (Hlook i group out Hg Hi).
  apply sum_group_Ok_inv in Hlook
    as (total & first & v1 & v2 & v3 & v4 & v5 & v6 & v7 & v8 & v9 & v10 & Hrest).
  destruct Hrest as (_ & _ & _ & _ & _ & _ & _ & _ & _ & _ & _ & _ & ->).
  apply getattr_Payment_init_default. exact Hkey.
Qed.

(** The defaults of the constructor in every field that is not copied. *)
Lemma sum_group_keeps_fields SYSTIME (payments : list Payment) (first out : Payment) :
  sum_group SYSTIME payments = Ok out ->
  payments !! 0 = Some first ->
  holds_defaults SYSTIME first ->
  forall key, key <> "amount" -> getattr out key = getattr first key.
Proof.
  intros Hsum Hfirst Hdef key Hkey.
  apply sum_group_Ok_inv in Hsum
    as (total & first' & v1 & v2 & v3 & v4 & v5 & v6 & v7 & v8 & v9 & v10 & Hrest).
  destruct Hrest as (_ & Hf & H1 & H2 & H3 & H4 & H5 & H6 & H7 & H8 & H9 & H10 & ->).
  rewrite Hfirst in Hf. inversion Hf. subst first'.
  destruct (decide (key ∈ copied_fields)) as [Hin|Hnot].
  - unfold copied_fields in Hin.
    repeat (apply elem_of_cons in Hin as [->|Hin]); try congruence;
      try (first [rewrite H1|rewrite H2|rewrite H3|rewrite H4|rewrite H5|rewrite H6
                 |rewrite H7|rewrite H8|rewrite H9|rewrite H10]; reflexivity).
    inversion Hin.
  - rewrite (Hdef key Hnot). apply getattr_Payment_init_default. exact Hnot.
Qed.

(** C7, as the code has it: when the first record of a group holds the
    constructor's defaults in the fields outside the eleven copied ones,
    the output record of the group differs from it in the amount only. *)
Theorem sum_payments_keeps_fields_of_first SYSTIME (groups : groups_dict)
    (outs : list Payment) (i : nat) (ref : string) (payments : list Payment)
    (first out : Payment) :
  sum_payments SYSTIME groups = Ok outs ->
  groups !! i = Some (ref, payments) ->
  outs !! i = Some out ->
  payments !! 0 = Some first ->
  holds_defaults SYSTIME first ->
  forall key, key <> "amount" -> getattr out key = getattr first key.
Proof.
  intros H Hg Ho Hfirst Hdef.
  destruct (sum_payments_lookup _ _ _ H) as [_ Hlook].
  specialize (Hlook i _ out Hg Ho). cbn [snd] in Hlook.
  exact (sum_group_keeps_fields SYSTIME payments first out Hlook Hfirst Hdef).
Qed.

(** C10: on a file that holds its header line only, the parser returns no
    record, grouping no record gives the empty dictionary and summing the
    empty dictionary gives no record. *)
Theorem header_only_pipeline SYSTIME (header : string) :
  create_payments SYSTIME [header] = Ok [] /\
  group_payments [] = Ok [] /\
  sum_payments SYSTIME [] = Ok [].
Proof. split_and!; reflexivity. Qed.

(** ** Identity resolver and grouping *)

(** C2, at a failing input: two records of one payee, the first with one
    space after the closing quotes and the second with two, are resolved
    under different keys, receive different account references and end up
    in different groups. *)
Theorem query_payments_splits_on_trailing_whitespace :
  let first := payee_record " " "5.00" in
  let second := payee_record "  " "7.50" in
  exists store first' second',
    query_payments ref_store ref_store_insert ref_store_select [] [first; second]
    = Ok (store, [first'; second']) /\
    getattr first' "account_ref" = Ok (quoted "1") /\
    getattr second' "account_ref" = Ok (quoted "2") /\
    group_payments [first'; second']
    = Ok [(quoted "1", [first']); (quoted "2", [second'])].
Proof.
  intros first second. vm_compute. eexists _, _, _. split_and!; reflexivity.
Qed.

Section ResolverProperties.

Variable connection : Type.
Variable insert_query : connection -> list string -> connection.
Variable select_query : connection -> list string -> option string.

(** The store never changes the reference of an identity it holds. *)
Hypothesis select_stable : forall conn params params' ref,
  select_query conn params = Some ref ->
  select_query (insert_query conn params') params = Some ref.

Lemma lookup_attr_setattr_same key value d :
  lookup_attr key (setattr key value d) = Some value.
Proof. rewrite lookup_attr_setattr, String.eqb_refl. reflexivity. Qed.

Lemma query_payment_Ok_inv conn payment conn' payment' :
  query_payment connection insert_query select_query conn payment = Ok (conn', payment') ->
  exists sql ref,
    get_sql_fields payment = Ok sql /\
    conn' = insert_query conn (identity_params sql ++ identity_params sql)%list /\
    select_query conn' (identity_params sql) = Some ref /\
    payment' = setattr "account_ref" (quoted ref) payment.
Proof.
  unfold query_payment. intros H.
  apply bind_Ok_inv in H as (sql & Hsql & H).
  destruct (select_query _ _) as [ref|] eqn:Hsel; [|discriminate].
  inversion H. subst. exists sql, ref. split_and!; try reflexivity; assumption.
Qed.

(** Later statements leave an assigned reference as it is. *)
Lemma query_payments_stable conn payments conn' payments' params ref :
  query_payments connection insert_query select_query conn payments = Ok (conn', payments') ->
  select_query conn params = Some ref ->
  select_query conn' params = Some ref.
Proof.
  revert conn conn' payments'. induction payments as [|payment rest IH];
    intros conn conn' payments' H Hsel; cbn [query_payments] in H.
  - inversion H. subst. exact Hsel.
  - apply bind_Ok_inv in H as ([conn1 payment1] & H1 & H).
    apply bind_Ok_inv in H as ([conn2 rest2] & H2 & H).
    inversion H. subst.
    apply query_payment_Ok_inv in H1 as (sql & ref1 & _ & -> & _ & _).
    eapply IH; [exact H2|]. apply select_stable, Hsel.
Qed.

(** Every record leaves [query_payments] with the reference the final
    store holds for its key. *)
Lemma query_payments_account_ref conn payments conn' payments' i payment :
  query_payments connection insert_query select_query conn payments = Ok (conn', payments') ->
  payments !! i = Some payment ->
  exists sql ref payment',
    get_sql_fields payment = Ok sql /\
    select_query conn' (identity_params sql) = Some ref /\
    payments' !! i = Some payment' /\
    getattr payment' "account_ref" = Ok (quoted ref).
Proof.
  revert conn conn' payments' i. induction payments as [|p rest IH];
    intros conn conn' payments' i H Hi; cbn [query_payments] in H.
  - inversion Hi.
  - apply bind_Ok_inv in H as ([conn1 p1] & H1 & H).
    apply bind_Ok_inv in H as ([conn2 rest2] & H2 & H).
    inversion H. subst.
    destruct i as [|i]; cbn in Hi.
    + inversion Hi. subst p.
      apply query_payment_Ok_inv in H1 as (sql & ref & Hsql & -> & Hsel & ->).
      exists sql, ref, (setattr "account_ref" (quoted ref) payment).
      split_and!; [exact Hsql| |reflexivity|].
      * eapply query_payments_stable; [exact H2|exact Hsel].
      * unfold getattr. rewrite lookup_attr_setattr_same. reflexivity.
    + destruct (IH _ _ _ _ H2 Hi) as (sql & ref & payment' & Hsql & Hsel & Hl & Hattr).
      exists sql, ref, payment'. split_and!; assumption.
Qed.

(** X5: two records resolved under the same key receive the same
    reference, against a store that keeps the references it has given out. *)
Lemma query_payments_same_key conn payments conn' payments' i j p q :
  query_payments connection insert_query select_query conn payments = Ok (conn', payments') ->
  payments !! i = Some p ->
  payments !! j = Some q ->
  get_sql_fields p = get_sql_fields q ->
  exists ref p' q',
    payments' !! i = Some p' /\ payments' !! j = Some q' /\
    getattr p' "account_ref" = Ok (quoted ref) /\
    getattr q' "account_ref" = Ok (quoted ref).
Proof.
  intros H Hi Hj Hkey.
  destruct (query_payments_account_ref _ _ _ _ _ _ H Hi)
    as (sql & ref & p' & Hsql & Hsel & Hp' & Hattr).
  destruct (query_payments_account_ref _ _ _ _ _ _ H Hj)
    as (sql2 & ref2 & q' & Hsql2 & Hsel2 & Hq' & Hattr2).
  rewrite Hkey, Hsql2 in Hsql. inversion Hsql. subst sql2.
  rewrite Hsel in Hsel2. inversion Hsel2. subst ref2.
  exists ref, p', q'. split_and!; assumption.
Qed.

End ResolverProperties.

(** The group of a reference, if there is one. *)
Lemma setdefault_append_keys key payment (groups : groups_dict) :
  NoDup groups.*1 -> NoDup (setdefault_append key payment groups).*1.
Proof.
  intros Hnd.
  assert (Hkeys : forall k, k ∈ (setdefault_append key payment groups).*1 ->
                            k = key \/ k ∈ groups.*1).
  { induction groups as [|[k ps] groups IH]; cbn [setdefault_append]; intros k' Hk'.
    - cbn in Hk'. apply list_elem_of_singleton in Hk'. left. exact Hk'.
    - destruct (String.eqb k key) eqn:Hk.
      + right. exact Hk'.
      + rewrite fmap_cons in Hk'. cbn in Hk'. apply elem_of_cons in Hk' as [->|Hk'].
        * right. rewrite fmap_cons. apply elem_of_cons. left. reflexivity.
        * apply NoDup_cons in Hnd as [_ Hnd].
          destruct (IH Hnd k' Hk') as [->|Hin]; [left; reflexivity|].
          right. rewrite fmap_cons. apply elem_of_cons. right. exact Hin. }
  clear Hkeys.
  induction groups as [|[k ps] groups IH]; cbn [setdefault_append].
  - cbn. apply NoDup_singleton.
  - destruct (String.eqb k key) eqn:Hk.
    + exact Hnd.
    + rewrite fmap_cons in *. cbn [fst] in *. apply NoDup_cons in Hnd as [Hnotin Hnd].
      apply NoDup_cons. split; [|apply IH, Hnd].
      intros Hin. apply Hnotin. clear IH Hnotin Hnd.
      induction groups as [|[k2 ps2] groups IH]; cbn [setdefault_append] in Hin.
      * cbn in Hin. apply list_elem_of_singleton in Hin. subst k.
        rewrite String.eqb_refl in Hk. discriminate.
      * destruct (String.eqb k2 key); [exact Hin|].
        rewrite fmap_cons in *. cbn [fst] in *. apply elem_of_cons in Hin as [->|Hin].
        -- apply elem_of_cons. left. reflexivity.
        -- apply elem_of_cons. right. apply IH, Hin.
Qed.

Lemma setdefault_append_new key payment (groups : groups_dict) :
  exists ps, (key, ps) ∈ setdefault_append key payment groups /\ payment ∈ ps.
Proof.
  induction groups as [|[k ps] groups IH]; cbn [setdefault_append].
  - exists [payment]. split; apply list_elem_of_singleton; reflexivity.
  - destruct (String.eqb k key) eqn:Hk.
    + apply String.eqb_eq in Hk. subst k. exists (ps ++ [payment])%list. split.
      * apply elem_of_cons. left. reflexivity.
      * apply elem_of_app. right. apply list_elem_of_singleton. reflexivity.
    + destruct IH as (ps' & Hin & Hp). exists ps'. split; [|exact Hp].
      apply elem_of_cons. right. exact Hin.
Qed.

Lemma setdefault_append_old key payment (groups : groups_dict) k ps p :
  (k, ps) ∈ groups -> p ∈ ps ->
  exists ps', (k, ps') ∈ setdefault_append key payment groups /\ p ∈ ps'.
Proof.
  induction groups as [|[k0 ps0] groups IH]; cbn [setdefault_append]; intros Hin Hp.
  - inversion Hin.
  - apply elem_of_cons in Hin as [Heq|Hin].
    + inversion Heq. subst k0 ps0. destruct (String.eqb k key).
      * exists (ps ++ [payment])%list. split; [apply elem_of_cons; left; reflexivity|].
        apply elem_of_app. left. exact Hp.
      * exists ps. split; [apply elem_of_cons; left; reflexivity|exact Hp].
    + destruct (String.eqb k0 key).
      * exists ps. split; [apply elem_of_cons; right; exact Hin|exact Hp].
      * destruct (IH Hin Hp) as (ps' & Hin' & Hp'). exists ps'.
        split; [apply elem_of_cons; right; exact Hin'|exact Hp'].
Qed.

Lemma group_payments_from_spec (groups0 groups : groups_dict) (payments : list Payment) :
  group_payments_from groups0 payments = Ok groups ->
  NoDup groups0.*1 ->
  NoDup groups.*1 /\
  (forall k ps p, (k, ps) ∈ groups0 -> p ∈ ps -> exists ps', (k, ps') ∈ groups /\ p ∈ ps') /\
  (forall p ref, p ∈ payments -> getattr p "account_ref" = Ok ref ->
     exists ps, (ref, ps) ∈ groups /\ p ∈ ps).
Proof.
  revert groups0. induction payments as [|payment rest IH];
    intros groups0 H Hnd; cbn [group_payments_from] in H.
  - inversion H. subst. split_and!; [exact Hnd|eauto|].
    intros p ref Hp. inversion Hp.
  - apply bind_Ok_inv in H as (ref0 & Href0 & H).
    destruct (IH _ H (setdefault_append_keys ref0 payment groups0 Hnd))
      as (Hnd' & Hold & Hnew).
    split_and!; [exact Hnd'| |].
    + intros k ps p Hin Hp.
      destruct (setdefault_append_old ref0 payment groups0 k ps p Hin Hp) as (ps1 & Hin1 & Hp1).
      exact (Hold k ps1 p Hin1 Hp1).
    + intros p ref Hp Href. apply elem_of_cons in Hp as [->|Hp].
      * rewrite Href in Href0. inversion Href0. subst ref0.
        destruct (setdefault_append_new ref payment groups0) as (ps1 & Hin1 & Hp1).
        exact (Hold ref ps1 payment Hin1 Hp1).
      * exact (Hnew p ref Hp Href).
Qed.

(** Records that carry the same account reference are members of one
    group, the only group under that reference. *)
Lemma group_payments_same_ref (payments : list Payment) (groups : groups_dict)
    (p q : Payment) (ref : string) :
  group_payments payments = Ok groups ->
  p ∈ payments -> q ∈ payments ->
  getattr p "account_ref" = Ok ref ->
  getattr q "account_ref" = Ok ref ->
  NoDup groups.*1 /\ exists ps, (ref, ps) ∈ groups /\ p ∈ ps /\ q ∈ ps.
Proof.
  intros H Hp Hq Hrp Hrq.
  destruct (group_payments_from_spec [] groups payments H) as (Hnd & _ & Hnew).
  { apply NoDup_nil_2. }
  split; [exact Hnd|].
  destruct (Hnew p ref Hp Hrp) as (ps & Hin & Hpin).
  destruct (Hnew q ref Hq Hrq) as (ps' & Hin' & Hqin).
  assert (ps' = ps) as ->.
  { clear -Hnd Hin Hin'. induction groups as [|[k0 ps0] groups IH]; [inversion Hin|].
    rewrite fmap_cons in Hnd. cbn [fst] in Hnd. apply NoDup_cons in Hnd as [Hnotin Hnd].
    apply elem_of_cons in Hin as [Heq|Hin]; apply elem_of_cons in Hin' as [Heq'|Hin'].
    - congruence.
    - inversion Heq. subst. exfalso. apply Hnotin.
      apply (list_elem_of_fmap_2 fst) in Hin'. exact Hin'.
    - inversion Heq'. subst. exfalso. apply Hnotin.
      apply (list_elem_of_fmap_2 fst) in Hin. exact Hin.
    - exact (IH Hnd Hin Hin'). }
  exists ps. split_and!; assumption.
Qed.

(** ** Writer *)

Lemma append_nil_r (s : string) : s +:+ EmptyString = s.
Proof.
  induction s as [|c s IH]; [reflexivity|].
  change (String c (s +:+ EmptyString) = String c s). f_equal. exact IH.
Qed.

(** A loop that appends to a text is the concatenation of what it appends. *)
Lemma fold_left_append {A : Type} (g : A -> string) (l : list A) (acc : string) :
  fold_left (fun out x => out +:+ g x) l acc
  = acc +:+ fold_right (fun x text => g x +:+ text) EmptyString l.
Proof.
  revert acc. induction l as [|x l IH]; intros acc; cbn [fold_left fold_right].
  - symmetry. apply append_nil_r.
  - rewrite IH, append_assoc. reflexivity.
Qed.

Lemma payment_lines_loop (p : Payment) (acc : string) :
  "defaults" ∉ p.*1 ->
  fold_left
    (fun out (kv : string * string) =>
       if negb (String.eqb kv.1 "defaults") then out +:+ kv.2 +:+ newline else out)
    p acc
  = fold_left (fun out (kv : string * string) => out +:+ (kv.2 +:+ newline)) p acc.
Proof.
  revert acc. induction p as [|[k v] p IH]; intros acc Hnot; cbn [fold_left]; [reflexivity|].
  rewrite fmap_cons in Hnot. apply not_elem_of_cons in Hnot as [Hk Hnot].
  cbn [fst snd] in *.
  destruct (String.eqb k "defaults") eqn:Hkd.
  - apply String.eqb_eq in Hkd. congruence.
  - cbn [negb]. apply IH, Hnot.
Qed.

Lemma payment_lines_values (p : Payment) :
  "defaults" ∉ p.*1 ->
  payment_lines p = fold_right (fun v text => v +:+ newline +:+ text) EmptyString p.*2.
Proof.
  intros Hnot. unfold payment_lines.
  rewrite payment_lines_loop by exact Hnot.
  rewrite fold_left_append. change (EmptyString +:+ ?t) with t.
  clear Hnot. induction p as [|[k v] p IH]; [reflexivity|].
  rewrite fmap_cons. cbn [fold_right snd]. rewrite IH, append_assoc. reflexivity.
Qed.

Lemma lookup_attr_values (p : Payment) :
  NoDup p.*1 ->
  map (fun key => default EmptyString (lookup_attr key p)) p.*1 = p.*2.
Proof.
  induction p as [|[k v] p IH]; intros Hnd; [reflexivity|].
  rewrite !fmap_cons in *. cbn [fst snd] in *. apply NoDup_cons in Hnd as [Hnotin Hnd].
  cbn [map lookup_attr]. rewrite String.eqb_refl. cbn [default]. f_equal.
  rewrite <- (IH Hnd). apply map_ext_in. intros key Hkey.
  destruct (String.eqb k key) eqn:Hk; [|reflexivity].
  apply String.eqb_eq in Hk. subst key. exfalso. apply Hnotin.
  apply list_elem_of_In. exact Hkey.
Qed.

Lemma field_order_NoDup : NoDup field_order.
Proof. apply (bool_decide_unpack _). vm_compute. exact I. Qed.

(** For a record whose attributes are the canonical ones, in order, the
    loop over [__dict__] writes its fields in [field_order]. *)
Lemma payment_lines_record_text (p : Payment) :
  p.*1 = field_order -> payment_lines p = record_text p.
Proof.
  intros Hkeys. rewrite payment_lines_values.
  - unfold record_text. rewrite <- lookup_attr_values.
    + rewrite Hkeys. generalize field_order as keys.
      induction keys as [|key keys IH]; [reflexivity|].
      cbn [map fold_right]. rewrite IH. reflexivity.
    + rewrite Hkeys. exact field_order_NoDup.
  - rewrite Hkeys. apply (bool_decide_unpack _). vm_compute. exact I.
Qed.

Lemma count_loop {A : Type} (l : list A) (n : nat) :
  fold_left (fun count _ => count + 1) l n = n + length l.
Proof.
  revert n. induction l as [|a l IH]; intros n; cbn [fold_left length]; [lia|].
  rewrite IH. lia.
Qed.

(** Every record built by the constructor from canonical keyword names
    has the canonical attributes, in order. *)
Lemma Payment_init_keys SYSTIME (kwargs : list (string * string)) :
  Forall (fun key => key ∈ field_order) kwargs.*1 ->
  (Payment_init SYSTIME kwargs).*1 = field_order.
Proof.
  intros Hall. unfold Payment_init. rewrite setattrs_keys; [reflexivity|].
  exact Hall.
Qed.

(** X24: every record that [sum_payments] returns has the 29 canonical
    attributes, in the canonical order. *)
Lemma sum_payments_field_order SYSTIME (groups : groups_dict) (outs : list Payment) :
  sum_payments SYSTIME groups = Ok outs -> Forall (fun p => p.*1 = field_order) outs.
Proof.
  intros H. destruct (sum_payments_lookup _ _ _ H) as [Hlen Hlook].
  apply Forall_lookup. intros i out Hi.
  destruct (lookup_lt_is_Some_2 groups i) as [group Hg].
  { rewrite <- Hlen. eapply lookup_lt_Some, Hi. }
  specialize (Hlook i group out Hg Hi).
  apply sum_group_Ok_inv in Hlook
    as (total & first & v1 & v2 & v3 & v4 & v5 & v6 & v7 & v8 & v9 & v10 & Hrest).
  destruct Hrest as (_ & _ & _ & _ & _ & _ & _ & _ & _ & _ & _ & _ & ->).
  apply Payment_init_keys. rewrite !fmap_cons. cbn [fst].
  repeat (apply Forall_cons; split; [apply (bool_decide_unpack _); vm_compute; exact I|]).
  apply Forall_nil_2.
Qed.

(** C8: when [write_payments] returns, it has written, to the path it
    derives from the module's file name, the first line of the original
    file followed by every field of every record, one per line, each
    record in the canonical field order, and what it returns is the
    summary line, which reports the number of records written against the
    number it was given. *)
Theorem write_payments_output WRITETIME f (fs fs' : gmap string string)
    (path backup : string) (summed_payments : list Payment)
    (original header : string) (rest : list string) (success_string : string) :
  write_payments WRITETIME f fs path backup summed_payments = Ok (fs', success_string) ->
  fs !! path = Some original ->
  splitlines original = header :: rest ->
  Forall (fun p => p.*1 = field_order) summed_payments ->
  success_string
  = summary_line WRITETIME (length summed_payments) (length summed_payments) path /\
  let temp_new_file := replace "\data" "\new" f in
  (temp_new_file <> already_checked_log -> temp_new_file <> payments_log ->
   fs' !! temp_new_file = Some (file_text header summed_payments)).
Proof.
  intros Hrun Hpath Hlines Hkeys. unfold write_payments in Hrun.
  rewrite Hpath in Hrun. destruct (String.eqb path backup); [discriminate|].
  rewrite Hlines in Hrun. cbn [getitem lookup list_lookup mbind result_bind] in Hrun.
  rewrite count_loop in Hrun. cbn [Nat.add] in Hrun.
  inversion Hrun as [[Hfs Hs]]. clear Hrun Hs. split; [reflexivity|].
  cbv zeta. intros Hlog1 Hlog2. unfold append_file.
  rewrite lookup_insert_ne by (intros E; apply Hlog2; symmetry; exact E).
  rewrite lookup_insert_ne by (intros E; apply Hlog1; symmetry; exact E).
  rewrite lookup_insert_eq. f_equal.
  unfold file_text. rewrite fold_left_append, append_assoc. f_equal. f_equal.
  clear -Hkeys. induction Hkeys as [|p ps Hp _ IH]; [reflexivity|].
  cbn [fold_right]. rewrite IH, (payment_lines_record_text p Hp). reflexivity.
Qed.

(** ** Accuracy of the float operations *)

Section Accuracy.

Local Open Scope Z_scope.

Lemma round_half_even_near (p q : Z) :
  0 < q -> 2 * Z.abs (Float.round_half_even p q * q - p) <= q.
Proof.
  intros Hq. unfold Float.round_half_even.
  pose proof (Z.div_mod p q ltac:(lia)) as Hdm.
  pose proof (Z.mod_pos_bound p q Hq) as Hr.
  revert Hdm Hr. generalize (p / q) (p mod q). intros k r -> Hr.
  destruct (Z.compare_spec (2 * r) q) as [Hc|Hc|Hc].
  - destruct (Z.even k).
    + replace (k * q - (q * k + r)) with (- r) by ring. lia.
    + replace ((k + 1) * q - (q * k + r)) with (q - r) by ring. lia.
  - replace (k * q - (q * k + r)) with (- r) by ring. lia.
  - replace ((k + 1) * q - (q * k + r)) with (q - r) by ring. lia.
Qed.

Lemma round_half_even_unique (p q c : Z) :
  0 < q -> 2 * Z.abs (c * q - p) < q -> Float.round_half_even p q = c.
Proof.
  intros Hq Hc. unfold Float.round_half_even.
  pose proof (Z.div_mod p q ltac:(lia)) as Hdm.
  pose proof (Z.mod_pos_bound p q Hq) as Hr.
  revert Hdm Hr. generalize (p / q) (p mod q). intros k r -> Hr.
  replace (c * q - (q * k + r)) with ((c - k) * q - r) in Hc by ring.
  assert (Hk : c - k = 0 \/ c - k = 1).
  { destruct (Z.lt_trichotomy (c - k) 0) as [Hlt|[Heq|Hgt]]; [exfalso|lia|].
    - assert ((c - k) * q <= - q) by nia. lia.
    - destruct (Z.eq_dec (c - k) 1); [lia|exfalso].
      assert (2 * q <= (c - k) * q) by nia. lia. }
  destruct Hk as [Hk|Hk]; rewrite Hk in Hc.
  - assert (k = c) as -> by lia.
    destruct (Z.compare_spec (2 * r) q); lia.
  - assert (k = c - 1) as -> by lia.
    destruct (Z.compare_spec (2 * r) q); lia.
Qed.

Lemma pow2_pos e : (0 < pow2 e)%Q.
Proof. apply Qpower_0_lt. reflexivity. Qed.

Lemma pow2_add a b : (pow2 (a + b) == pow2 a * pow2 b)%Q.
Proof. apply Qpower_plus. discriminate. Qed.

Lemma pow2_inject n : 0 <= n -> (inject_Z (2 ^ n) == pow2 n)%Q.
Proof. intros Hn. apply (Zpower_Qpower 2 n Hn). Qed.

Lemma pow2_opp_r e : (pow2 e * pow2 (- e) == 1)%Q.
Proof.
  rewrite <- pow2_add. replace (e + - e) with 0 by lia. reflexivity.
Qed.

Lemma pow2_le a b : a <= b -> (pow2 a <= pow2 b)%Q.
Proof. intros H. apply Qpower_le_compat_l; [exact H|discriminate]. Qed.

Lemma pow2_lt_inv a b : (pow2 a < pow2 b)%Q -> a < b.
Proof. intros H. apply (Qpower_lt_compat_l_inv 2 a b H). reflexivity. Qed.

Lemma log2_bounds_Q (p : Z) :
  0 < p -> (pow2 (Z.log2 p) <= inject_Z p < pow2 (Z.log2 p + 1))%Q.
Proof.
  intros Hp. destruct (Z.log2_spec p Hp) as [Hlo Hhi].
  pose proof (Z.log2_nonneg p) as Hnn.
  rewrite <- !pow2_inject by lia. rewrite <- Zle_Qle, <- Zlt_Qlt.
  split; [exact Hlo|]. replace (Z.log2 p + 1) with (Z.succ (Z.log2 p)) by lia. exact Hhi.
Qed.

(** The comparison made by [ilog2_ratio]. *)
Lemma below_pow2 (p q d : Z) :
  0 < p -> 0 < q ->
  (if 0 <=? d then p <? q * 2 ^ d else p * 2 ^ (- d) <? q) = true
  <-> (inject_Z p < inject_Z q * pow2 d)%Q.
Proof.
  intros Hp Hq. destruct (Z.leb_spec 0 d) as [Hd|Hd].
  - rewrite Z.ltb_lt, Zlt_Qlt, inject_Z_mult, pow2_inject by lia. reflexivity.
  - rewrite Z.ltb_lt, Zlt_Qlt, inject_Z_mult, pow2_inject by lia.
    pose proof (pow2_pos d) as Hpd. pose proof (pow2_opp_r d) as Hone.
    rewrite <- (Qmult_lt_r _ _ (pow2 d) Hpd).
    assert (Hsimp : (inject_Z p * pow2 (- d) * pow2 d == inject_Z p)%Q).
    { rewrite <- Qmult_assoc, (Qmult_comm (pow2 (- d))), Hone. ring. }
    rewrite Hsimp. reflexivity.
Qed.

Lemma ilog2_ratio_spec (p q : Z) :
  0 < p -> 0 < q ->
  let L := Float.ilog2_ratio p q in
  (pow2 L * inject_Z q <= inject_Z p < pow2 (L + 1) * inject_Z q)%Q.
Proof.
  intros Hp Hq. unfold Float.ilog2_ratio.
  set (d := Z.log2 p - Z.log2 q).
  pose proof (below_pow2 p q d Hp Hq) as Hbelow.
  destruct (log2_bounds_Q p Hp) as [Hpl Hph].
  destruct (log2_bounds_Q q Hq) as [Hql Hqh].
  assert (Ha : (pow2 (Z.log2 p) == pow2 (d - 1) * pow2 (Z.log2 q + 1))%Q).
  { rewrite <- pow2_add. unfold d. replace (Z.log2 p - Z.log2 q - 1 + (Z.log2 q + 1)) with (Z.log2 p) by lia. reflexivity. }
  assert (Hb : (pow2 (Z.log2 p + 1) == pow2 (d + 1) * pow2 (Z.log2 q))%Q).
  { rewrite <- pow2_add. unfold d. replace (Z.log2 p - Z.log2 q + 1 + Z.log2 q) with (Z.log2 p + 1) by lia. reflexivity. }
  pose proof (pow2_pos (d - 1)) as Hd1. pose proof (pow2_pos (d + 1)) as Hd2.
  destruct (if 0 <=? d then p <? q * 2 ^ d else p * 2 ^ (- d) <? q) eqn:Hb'.
  - cbv zeta. replace (d - 1 + 1) with d by lia. split.
    + rewrite Ha in Hpl. eapply Qle_trans; [|exact Hpl].
      apply Qmult_le_l; [exact Hd1|]. apply Qlt_le_weak. exact Hqh.
    + rewrite (Qmult_comm (pow2 d)). apply Hbelow. reflexivity.
  - cbv zeta. split.
    + rewrite (Qmult_comm (pow2 d)). apply Qnot_lt_le. intros Hlt.
      apply Hbelow in Hlt. congruence.
    + rewrite Hb in Hph. eapply Qlt_le_trans; [exact Hph|].
      apply Qmult_le_l; [exact Hd2|]. exact Hql.
Qed.

Lemma Qpos_nonzero (x : Q) : (0 < x)%Q -> ~ (x == 0)%Q.
Proof. intros Hx H0. rewrite H0 in Hx. apply (Qlt_irrefl 0). exact Hx. Qed.

Lemma inject_Z_pos (z : Z) : 0 < z -> (0 < inject_Z z)%Q.
Proof. intros H. rewrite Zlt_Qlt in H. exact H. Qed.

(** Rounding to the nearest integer, read on the quotient. *)
Lemma round_half_even_near_Q (p q : Z) :
  0 < q ->
  (- (1 # 2) <= inject_Z (Float.round_half_even p q) - inject_Z p / inject_Z q <= 1 # 2)%Q.
Proof.
  intros Hq. pose proof (round_half_even_near p q Hq) as Hnear.
  set (m := Float.round_half_even p q) in *.
  pose proof (inject_Z_pos q Hq) as Hqq.
  assert (Hlo : - q <= 2 * (m * q - p)) by lia.
  assert (Hhi : 2 * (m * q - p) <= q) by lia.
  rewrite Zle_Qle in Hlo, Hhi. unfold Z.sub in Hlo, Hhi.
  repeat first [ rewrite inject_Z_mult in Hlo | rewrite inject_Z_plus in Hlo
               | rewrite inject_Z_opp in Hlo ].
  repeat first [ rewrite inject_Z_mult in Hhi | rewrite inject_Z_plus in Hhi
               | rewrite inject_Z_opp in Hhi ].
  assert (Heq : ((inject_Z m - inject_Z p / inject_Z q) * inject_Z q
                 == inject_Z m * inject_Z q - inject_Z p)%Q).
  { field. apply Qpos_nonzero, Hqq. }
  split.
  - apply (Qmult_le_r _ _ _ Hqq). rewrite Heq.
    change (inject_Z 2) with 2%Q in *. lra.
  - apply (Qmult_le_r _ _ _ Hqq). rewrite Heq.
    change (inject_Z 2) with 2%Q in *. lra.
Qed.

(** The quotient [p / q] lies in the binade of its [ilog2_ratio]. *)
Lemma ilog2_ratio_binade (p q : Z) :
  0 < p -> 0 < q ->
  let L := Float.ilog2_ratio p q in
  (pow2 L <= inject_Z p / inject_Z q < pow2 (L + 1))%Q.
Proof.
  intros Hp Hq L. destruct (ilog2_ratio_spec p q Hp Hq) as [Hlo Hhi]. fold L in Hlo, Hhi.
  pose proof (inject_Z_pos q Hq) as Hqq.
  split.
  - apply Qle_shift_div_l; assumption.
  - apply Qlt_shift_div_r; assumption.
Qed.

Lemma round_ratio_normal (s : bool) (p q : Z) :
  0 < p -> 0 < q ->
  let L := Float.ilog2_ratio p q in
  -1022 <= L <= 1022 ->
  exists m e,
    Float.round_ratio s p q = S754_finite s m e /\
    (inject_Z p / inject_Z q - pow2 (L - 53)
     <= inject_Z (Z.pos m) * pow2 e
     <= inject_Z p / inject_Z q + pow2 (L - 53))%Q.
Proof.
  intros Hp Hq L HL.
  destruct (ilog2_ratio_binade p q Hp Hq) as [Hlo Hhi]. fold L in Hlo, Hhi.
  set (x := (inject_Z p / inject_Z q)%Q) in *.
  pose proof (inject_Z_pos q Hq) as Hqq. pose proof (inject_Z_pos p Hp) as Hpp.
  unfold Float.round_ratio. fold L.
  destruct (Z.eqb_spec p 0) as [->|_]; [lia|].
  rewrite Z.max_l by lia. set (E := L - 52).
  set (m0 := if 0 <=? E then Float.round_half_even p (q * 2 ^ E)
             else Float.round_half_even (p * 2 ^ (- E)) q).
  pose proof (pow2_pos E) as HpE. pose proof (pow2_opp_r E) as Hone.
  (* the scaled quotient *)
  assert (Hy : exists y : Q,
             (y * pow2 E == x)%Q /\ (- (1 # 2) <= inject_Z m0 - y <= 1 # 2)%Q).
  { unfold m0. destruct (Z.leb_spec 0 E) as [HE|HE].
    - exists (inject_Z p / inject_Z (q * 2 ^ E))%Q. split.
      + rewrite inject_Z_mult, pow2_inject by lia. unfold x. field.
        split; apply Qpos_nonzero; assumption.
      + apply round_half_even_near_Q. pose proof (Z.pow_pos_nonneg 2 E). lia.
    - exists (inject_Z (p * 2 ^ (- E)) / inject_Z q)%Q. split.
      + rewrite inject_Z_mult, pow2_inject by lia. unfold x.
        transitivity (inject_Z p / inject_Z q * (pow2 E * pow2 (- E)))%Q.
        * field. apply Qpos_nonzero, Hqq.
        * rewrite Hone. ring.
      + apply round_half_even_near_Q. exact Hq. }
  destruct Hy as (y & Hyx & Hnear).
  (* the scaled quotient has 53 bits *)
  assert (Hy52 : (pow2 52 <= y < pow2 53)%Q).
  { assert (Hyeq : (y == x * pow2 (- E))%Q).
    { rewrite <- Hyx. rewrite <- Qmult_assoc, Hone. ring. }
    pose proof (pow2_pos (- E)) as HpnE.
    rewrite Hyeq. split.
    - replace 52 with (L + - E) by (unfold E; lia). rewrite pow2_add.
      apply Qmult_le_compat_r; [exact Hlo|]. apply Qlt_le_weak. exact HpnE.
    - replace 53 with (L + 1 + - E) by (unfold E; lia). rewrite pow2_add.
      apply Qmult_lt_compat_r; assumption. }
  rewrite <- !pow2_inject in Hy52 by lia.
  assert (Hm0 : 2 ^ 52 <= m0 <= 2 ^ 53).
  { destruct Hy52 as [Hy1 Hy2]. destruct Hnear as [Hn1 Hn2]. split.
    - assert (H : (inject_Z (2 * 2 ^ 52) <= inject_Z (2 * m0 + 1))%Q).
      { rewrite inject_Z_plus, !inject_Z_mult. change (inject_Z 2) with 2%Q.
        change (inject_Z 1) with 1%Q. lra. }
      rewrite <- Zle_Qle in H. lia.
    - assert (H : (inject_Z (2 * m0) <= inject_Z (2 * 2 ^ 53 + 1))%Q).
      { rewrite inject_Z_plus, !inject_Z_mult. change (inject_Z 2) with 2%Q.
        change (inject_Z 1) with 1%Q. lra. }
      rewrite <- Zle_Qle in H. lia. }
  (* the error, scaled back *)
  assert (Herr : (x - pow2 (L - 53) <= inject_Z m0 * pow2 E <= x + pow2 (L - 53))%Q).
  { assert (Hhalf : (pow2 (L - 53) == (1 # 2) * pow2 E)%Q).
    { replace (L - 53) with (-1 + E) by (unfold E; lia). rewrite pow2_add. reflexivity. }
    rewrite Hhalf, <- Hyx. destruct Hnear as [Hn1 Hn2].
    pose proof (Qmult_le_compat_r _ _ (pow2 E) Hn1 (Qlt_le_weak _ _ HpE)) as H1.
    pose proof (Qmult_le_compat_r _ _ (pow2 E) Hn2 (Qlt_le_weak _ _ HpE)) as H2.
    split.
    - apply Qle_minus_iff. apply Qle_minus_iff in H1.
      eapply Qle_trans; [exact H1|]. apply Qle_lteq. right. ring.
    - apply Qle_minus_iff. apply Qle_minus_iff in H2.
      eapply Qle_trans; [exact H2|]. apply Qle_lteq. right. ring. }
  destruct (Z.eqb_spec m0 (2 ^ 53)) as [Hm|Hm].
  - exists (Z.to_pos (2 ^ 52)), (E + 1).
    destruct (Z.eqb_spec (2 ^ 52) 0) as [H0|_]; [discriminate H0|].
    destruct (Z.ltb_spec 971 (E + 1)) as [Hbig|_]; [unfold E in Hbig; lia|].
    split; [reflexivity|].
    assert (Hval : (inject_Z (Z.pos (Z.to_pos (2 ^ 52))) * pow2 (E + 1)
                    == inject_Z m0 * pow2 E)%Q).
    { rewrite Hm. rewrite (Z.add_comm E 1), pow2_add. 
      change (inject_Z (Z.pos (Z.to_pos (2 ^ 52))) * (pow2 1 * pow2 E)
              == inject_Z (2 ^ 53) * pow2 E)%Q.
      rewrite Qmult_assoc. apply Qmult_comp; [reflexivity|reflexivity]. }
    rewrite Hval. exact Herr.
  - exists (Z.to_pos m0), E.
    destruct (Z.eqb_spec m0 0) as [H0|_]; [lia|].
    destruct (Z.ltb_spec 971 E) as [Hbig|_]; [unfold E in Hbig; lia|].
    split; [reflexivity|]. rewrite Z2Pos.id by lia. exact Herr.
Qed.

Lemma pow2_m53 : (pow2 (-53) == u53)%Q.
Proof. reflexivity. Qed.

(** The range of the lemmas below: from [2 ^ -1022] up to [2 ^ 1023]. *)
Lemma round_ratio_relative (s : bool) (p q : Z) :
  0 < p -> 0 < q ->
  (pow2 (-1022) <= inject_Z p / inject_Z q)%Q ->
  (inject_Z p / inject_Z q < pow2 1023)%Q ->
  exists m e,
    Float.round_ratio s p q = S754_finite s m e /\
    (inject_Z p / inject_Z q * (1 - u53)
     <= inject_Z (Z.pos m) * pow2 e
     <= inject_Z p / inject_Z q * (1 + u53))%Q.
Proof.
  intros Hp Hq Hlo Hhi.
  destruct (ilog2_ratio_binade p q Hp Hq) as [Hbl Hbh].
  set (L := Float.ilog2_ratio p q) in *.
  assert (HL : -1022 <= L <= 1022).
  { split.
    - assert (H : -1022 < L + 1); [|lia]. apply pow2_lt_inv.
      eapply Qle_lt_trans; [exact Hlo|exact Hbh].
    - assert (H : L < 1023); [|lia]. apply pow2_lt_inv.
      eapply Qle_lt_trans; [exact Hbl|exact Hhi]. }
  destruct (round_ratio_normal s p q Hp Hq HL) as (m & e & Hr & Herr).
  fold L in Herr. exists m, e. split; [exact Hr|].
  assert (Hu : (pow2 (L - 53) <= inject_Z p / inject_Z q * u53)%Q).
  { replace (L - 53) with (L + -53) by lia. rewrite pow2_add, pow2_m53.
    apply Qmult_le_compat_r; [exact Hbl|discriminate]. }
  set (x := (inject_Z p / inject_Z q)%Q) in *. lra.
Qed.

Lemma F2Q_nonneg (x : spec_float) : nonneg x -> (0 <= F2Q x)%Q.
Proof.
  intros [->|(m & e & ->)]; cbn [F2Q Float.signed].
  - apply Qle_refl.
  - apply Qmult_le_0_compat; [|apply Qlt_le_weak, pow2_pos].
    apply Qlt_le_weak, inject_Z_pos. reflexivity.
Qed.

(** The nearest float to a quotient of naturals, zero included. *)
Lemma round_ratio_nonneg (p q : Z) :
  0 <= p -> 0 < q ->
  (p = 0 \/ (pow2 (-1022) <= inject_Z p / inject_Z q < pow2 1023)%Q) ->
  nonneg (Float.round_ratio false p q) /\
  (inject_Z p / inject_Z q * (1 - u53)
   <= F2Q (Float.round_ratio false p q)
   <= inject_Z p / inject_Z q * (1 + u53))%Q.
Proof.
  intros Hp Hq Hrange.
  destruct (Z.eq_dec p 0) as [->|Hne].
  - split; [left; reflexivity|]. cbn [Float.round_ratio Z.eqb F2Q].
    assert (H0 : (inject_Z 0 / inject_Z q == 0)%Q) by (unfold Qdiv; ring).
    rewrite H0. lra.
  - destruct Hrange as [H0|[Hlo Hhi]]; [contradiction|].
    destruct (round_ratio_relative false p q) as (m & e & Hr & Herr);
      [lia|exact Hq|exact Hlo|exact Hhi|].
    rewrite Hr. split; [right; eauto|exact Herr].
Qed.

(** Addition of two positive floats rounds their exact sum. *)
Lemma add_finite (mx : positive) (ex : Z) (my : positive) (ey : Z) :
  let sum := (inject_Z (Z.pos mx) * pow2 ex + inject_Z (Z.pos my) * pow2 ey)%Q in
  (pow2 (-1022) <= sum)%Q -> (sum < pow2 1023)%Q ->
  nonneg (Float.add (S754_finite false mx ex) (S754_finite false my ey)) /\
  (sum * (1 - u53)
   <= F2Q (Float.add (S754_finite false mx ex) (S754_finite false my ey))
   <= sum * (1 + u53))%Q.
Proof.
  intros sum Hlo Hhi. cbn [Float.add Float.signed].
  set (e := Z.min ex ey).
  set (n := Z.pos mx * 2 ^ (ex - e) + Z.pos my * 2 ^ (ey - e)).
  assert (Hpx : 0 < 2 ^ (ex - e)) by (apply Z.pow_pos_nonneg; unfold e; lia).
  assert (Hpy : 0 < 2 ^ (ey - e)) by (apply Z.pow_pos_nonneg; unfold e; lia).
  assert (Hn : 0 < n) by (unfold n; nia).
  assert (Hsum : (inject_Z n * pow2 e == sum)%Q).
  { unfold n, sum. rewrite inject_Z_plus, !inject_Z_mult.
    rewrite !pow2_inject by (unfold e; lia).
    rewrite Qmult_plus_distr_l, <- !Qmult_assoc, <- !pow2_add.
    replace (ex - e + e) with ex by lia. replace (ey - e + e) with ey by lia.
    reflexivity. }
  destruct (Z.eqb_spec n 0) as [H0|_]; [lia|].
  destruct (Z.ltb_spec n 0) as [Hneg|_]; [lia|].
  rewrite Z.abs_eq by lia. unfold Float.round_dyadic.
  pose proof (pow2_pos e) as Hpe.
  destruct (Z.leb_spec 0 e) as [He|He].
  - assert (Hx : (inject_Z (n * 2 ^ e) / inject_Z 1 == sum)%Q).
    { rewrite inject_Z_mult, pow2_inject by lia. rewrite <- Hsum. field. }
    destruct (round_ratio_nonneg (n * 2 ^ e) 1) as [Hnn Herr].
    + pose proof (Z.pow_pos_nonneg 2 e). nia.
    + lia.
    + right. rewrite Hx. split; assumption.
    + split; [exact Hnn|]. rewrite Hx in Herr. exact Herr.
  - assert (Hx : (inject_Z n / inject_Z (2 ^ (- e)) == sum)%Q).
    { rewrite pow2_inject by lia. rewrite <- Hsum.
      pose proof (pow2_opp_r e) as Hone. pose proof (pow2_pos (- e)) as Hpne.
      transitivity (inject_Z n * (pow2 e * pow2 (- e)) / pow2 (- e))%Q.
      - rewrite Hone. field. apply Qpos_nonzero, Hpne.
      - field. apply Qpos_nonzero, Hpne. }
    destruct (round_ratio_nonneg n (2 ^ (- e))) as [Hnn Herr].
    + lia.
    + apply Z.pow_pos_nonneg; lia.
    + right. rewrite Hx. split; assumption.
    + split; [exact Hnn|]. rewrite Hx in Herr. exact Herr.
Qed.

Lemma add_nonneg (x y : spec_float) :
  nonneg x -> nonneg y ->
  ((F2Q x + F2Q y == 0)%Q \/
   (pow2 (-1022) <= F2Q x + F2Q y)%Q /\ (F2Q x + F2Q y < pow2 1023)%Q) ->
  nonneg (Float.add x y) /\
  ((F2Q x + F2Q y) * (1 - u53) <= F2Q (Float.add x y)
   <= (F2Q x + F2Q y) * (1 + u53))%Q.
Proof.
  intros Hx Hy Hrange.
  pose proof (F2Q_nonneg x Hx) as Hx0. pose proof (F2Q_nonneg y Hy) as Hy0.
  destruct Hx as [->|(mx & ex & ->)]; destruct Hy as [->|(my & ey & ->)].
  - split; [left; reflexivity|]. cbn [Float.add Bool.eqb F2Q]. lra.
  - split; [right; eauto|]. cbn [Float.add]. cbn [F2Q] in *.
    set (v := (inject_Z (Float.signed false (Z.pos my)) * pow2 ey)%Q) in *.
    unfold u53. lra.
  - split; [right; eauto|]. cbn [Float.add]. cbn [F2Q] in *.
    set (v := (inject_Z (Float.signed false (Z.pos mx)) * pow2 ex)%Q) in *.
    unfold u53. lra.
  - cbn [F2Q Float.signed] in *.
    assert (Hpos : (0 < inject_Z (Z.pos mx) * pow2 ex)%Q).
    { apply Qmult_lt_0_compat; [apply inject_Z_pos; reflexivity|apply pow2_pos]. }
    destruct Hrange as [H0|[Hlo Hhi]].
    + exfalso. set (a := (inject_Z (Z.pos mx) * pow2 ex)%Q) in *.
      set (b := (inject_Z (Z.pos my) * pow2 ey)%Q) in *. lra.
    + apply add_finite; assumption.
Qed.

(** One step of the summation: an error of [c] relative to the exact sum
    grows by at most [4 * u53]. *)
Lemma sum_step_error (s0 a v fa v' c : Q) :
  (0 <= s0 -> 0 <= a -> 0 <= c -> c <= 1 ->
   s0 - c * s0 <= v <= s0 + c * s0 ->
   a * (1 - u53) <= fa <= a * (1 + u53) ->
   (v + fa) * (1 - u53) <= v' <= (v + fa) * (1 + u53) ->
   (s0 + a) - (c + 4 * u53) * (s0 + a) <= v' <= (s0 + a) + (c + 4 * u53) * (s0 + a))%Q.
Proof.
  intros HS Ha Hc Hc1 Hv Hfa Hv'.
  assert (HX : (c * s0 <= s0)%Q).
  { rewrite <- (Qmult_1_l s0) at 2. apply Qmult_le_compat_r; assumption. }
  assert (HX0 : (0 <= c * s0)%Q) by (apply Qmult_le_0_compat; assumption).
  assert (HY : (0 <= c * a)%Q) by (apply Qmult_le_0_compat; assumption).
  set (X := (c * s0)%Q) in *. set (Y := (c * a)%Q) in *.
  assert (Hexp : ((c + 4 * u53) * (s0 + a) == X + Y + 4 * u53 * s0 + 4 * u53 * a)%Q).
  { unfold X, Y. ring. }
  rewrite Hexp. unfold u53 in *. lra.
Qed.

Lemma append_cons (c : ascii) (u v : string) : String c u +:+ v = String c (u +:+ v).
Proof. reflexivity. Qed.

Lemma append_nil_l (v : string) : EmptyString +:+ v = v.
Proof. reflexivity. Qed.

Lemma uint_acc_of_uint_acc (d : Decimal.uint) (acc : positive) :
  Z.pos (Pos.of_uint_acc d acc) = uint_acc (Z.pos acc) d.
Proof.
  revert acc. induction d; intros acc; cbn [Pos.of_uint_acc uint_acc];
    try reflexivity; rewrite IHd; f_equal; lia.
Qed.

Lemma uint_acc_of_uint (d : Decimal.uint) : Z.of_N (Pos.of_uint d) = uint_acc 0 d.
Proof.
  induction d; cbn [Pos.of_uint uint_acc]; try reflexivity; try exact IHd;
    cbn [Z.of_N]; rewrite uint_acc_of_uint_acc; reflexivity.
Qed.

Lemma uint_acc_to_uint (n : Z) : 0 <= n -> uint_acc 0 (N.to_uint (Z.to_N n)) = n.
Proof.
  intros Hn. rewrite <- uint_acc_of_uint.
  change (Pos.of_uint (N.to_uint (Z.to_N n))) with (N.of_uint (N.to_uint (Z.to_N n))).
  rewrite DecimalN.Unsigned.of_to. lia.
Qed.

Lemma read_digits_stop (acc : Z) (n : nat) (c : ascii) (s : string) :
  Float.is_digit c = false ->
  Float.read_digits acc n (String c s) = (acc, n, String c s).
Proof. intros Hc. cbn [Float.read_digits]. rewrite Hc. reflexivity. Qed.

(** Reading the digits of a decimal numeral. *)
Lemma read_digits_uint (d : Decimal.uint) (acc : Z) (n : nat) (rest : string) :
  exists n', Float.read_digits acc n (NilEmpty.string_of_uint d +:+ rest)
             = Float.read_digits (uint_acc acc d) n' rest.
Proof.
  revert acc n. induction d; intros acc n; cbn [NilEmpty.string_of_uint uint_acc];
    try (exists n; reflexivity);
    rewrite append_cons; cbn [Float.read_digits];
    match goal with
    | |- context [Float.is_digit ?c] =>
        replace (Float.is_digit c) with true by reflexivity;
        replace (Float.digit_value c) with (Float.digit_value c) by reflexivity
    end; apply IHd.
Qed.

Lemma digit_facts (c : ascii) :
  Float.is_digit c = true ->
  Float.is_space c = false /\ Ascii.eqb c "_" = false /\ Ascii.eqb c "-" = false /\
  Ascii.eqb c "+" = false /\ Float.lower c = c /\ Ascii.eqb c "i" = false /\
  Ascii.eqb c "n" = false /\ Ascii.eqb c "." = false.
Proof.
  destruct c as [[] [] [] [] [] [] [] []]; intros H; try discriminate H;
    split_and!; reflexivity.
Qed.

Lemma digit_char (k : Z) :
  0 <= k < 10 ->
  Float.is_digit (ascii_of_nat (48 + Z.to_nat k)) = true /\
  Float.digit_value (ascii_of_nat (48 + Z.to_nat k)) = k.
Proof.
  intros Hk.
  assert (Hcases : k = 0 \/ k = 1 \/ k = 2 \/ k = 3 \/ k = 4 \/ k = 5 \/ k = 6 \/ k = 7
                   \/ k = 8 \/ k = 9) by lia.
  repeat (destruct Hcases as [->|Hcases]; [split; reflexivity|]).
  subst k. split; reflexivity.
Qed.

Lemma string_of_uint_no_underscore (d : Decimal.uint) :
  no_underscore (NilEmpty.string_of_uint d) = true.
Proof. induction d; cbn [NilEmpty.string_of_uint no_underscore]; try reflexivity; exact IHd. Qed.

Lemma no_underscore_app (u v : string) :
  no_underscore (u +:+ v) = no_underscore u && no_underscore v.
Proof.
  induction u as [|c u IH]; [reflexivity|].
  rewrite append_cons. cbn [no_underscore]. rewrite IH, andb_assoc. reflexivity.
Qed.

Lemma drop_underscores_id (s : string) (prev : ascii) :
  no_underscore s = true -> Ascii.eqb prev "_" = false ->
  Float.drop_underscores prev s = Some s.
Proof.
  revert prev. induction s as [|c s IH]; intros prev Hs Hprev; cbn [Float.drop_underscores].
  - rewrite Hprev. reflexivity.
  - cbn [no_underscore] in Hs. apply andb_true_iff in Hs as [Hc Hs].
    apply negb_true_iff in Hc. rewrite Hc, Hprev. cbn [andb].
    rewrite (IH c Hs Hc). reflexivity.
Qed.

Lemma rstrip_last (s : string) (c : ascii) :
  Float.is_space c = false ->
  Float.rstrip (s +:+ String c EmptyString) = s +:+ String c EmptyString.
Proof.
  intros Hc. induction s as [|a s IH].
  - rewrite append_nil_l. cbn [Float.rstrip]. rewrite Hc. reflexivity.
  - rewrite append_cons. cbn [Float.rstrip]. rewrite IH.
    destruct s; reflexivity.
Qed.

Lemma string_of_uint_first (d : Decimal.uint) :
  d <> Decimal.Nil ->
  exists c s, NilEmpty.string_of_uint d = String c s /\ Float.is_digit c = true.
Proof.
  destruct d; intros Hd; try contradiction; cbn [NilEmpty.string_of_uint];
    eexists _, _; split; reflexivity.
Qed.

(** [float] on a decimal numeral with two decimals: digits, a point, two
    digits. *)
Lemma of_string_two_decimals (d : Decimal.uint) (d1 d2 : ascii) :
  d <> Decimal.Nil -> Float.is_digit d1 = true -> Float.is_digit d2 = true ->
  Float.of_string (NilEmpty.string_of_uint d +:+ String "." (String d1 (String d2 EmptyString)))
  = Ok (Float.round_ratio false
          (100 * uint_acc 0 d + 10 * Float.digit_value d1 + Float.digit_value d2) 100).
Proof.
  intros Hd Hd1 Hd2.
  destruct (string_of_uint_first d Hd) as (c & s & Hshape & Hc).
  destruct (digit_facts c Hc) as (Hsp & Hus & Hminus & Hplus & Hlow & Hi & Hn & Hdot).
  destruct (digit_facts d1 Hd1) as (_ & Hus1 & _).
  destruct (digit_facts d2 Hd2) as (Hsp2 & Hus2 & _).
  set (T := NilEmpty.string_of_uint d +:+ String "." (String d1 (String d2 EmptyString))).
  assert (HT : T = String c (s +:+ String "." (String d1 (String d2 EmptyString)))).
  { unfold T. rewrite Hshape. reflexivity. }
  unfold Float.of_string.
  assert (Hl : Float.lstrip T = T).
  { rewrite HT. cbn [Float.lstrip]. rewrite Hsp. reflexivity. }
  assert (Hr : Float.rstrip T = T).
  { unfold T.
    replace (String "." (String d1 (String d2 EmptyString)))
      with (String "." (String d1 EmptyString) +:+ String d2 EmptyString) by reflexivity.
    rewrite <- append_assoc. apply rstrip_last. exact Hsp2. }
  rewrite Hl, Hr.
  rewrite drop_underscores_id.
  2:{ unfold T. rewrite no_underscore_app, string_of_uint_no_underscore.
      cbn [no_underscore andb]. rewrite Hus1, Hus2. reflexivity. }
  2:{ reflexivity. }
  assert (Hsign : Float.read_sign T = (false, T)).
  { rewrite HT. unfold Float.read_sign.
    destruct c as [[] [] [] [] [] [] [] []]; try discriminate Hminus; try discriminate Hplus;
      reflexivity. }
  rewrite Hsign.
  assert (Hnot_special : forall w, String.eqb (Float.lowercase T) (String "i" w) = false
                                   /\ String.eqb (Float.lowercase T) (String "n" w) = false).
  { intros w. rewrite HT. cbn [Float.lowercase String.eqb]. rewrite Hlow, Hi, Hn.
    split; reflexivity. }
  rewrite (proj1 (Hnot_special _)), (proj1 (Hnot_special _)), (proj2 (Hnot_special _)).
  cbn [orb].
  unfold Float.parse_decimal.
  destruct (read_digits_uint d 0 0 (String "." (String d1 (String d2 EmptyString))))
    as (n' & Hread).
  fold T in Hread. rewrite Hread.
  rewrite read_digits_stop by reflexivity.
  cbn [Float.read_digits]. rewrite Hd1, Hd2.
  replace (n' + 2 =? 0)%nat with false by (symmetry; apply Nat.eqb_neq; lia).
  unfold Float.round_decimal. cbn [Z.of_nat Z.opp Z.leb Z.compare].
  f_equal. f_equal. cbn. lia.
Qed.

Lemma N_to_uint_nonnil (n : N) : N.to_uint n <> Decimal.Nil.
Proof.
  destruct n as [|p]; [discriminate|]. apply DecimalPos.Unsigned.to_uint_nonnil.
Qed.

(** [float] reads the two-decimal text of [c] hundredths as the float
    nearest to [c / 100]. *)
Lemma of_string_cents_text (c : Z) :
  0 <= c -> Float.of_string (cents_text c) = Ok (Float.round_ratio false c 100).
Proof.
  intros Hc. unfold cents_text, Float.format_hundredths, Float.str_of_Z, Float.two_digits.
  set (d := N.to_uint (Z.to_N (c / 100))).
  assert (Hd : d <> Decimal.Nil) by apply N_to_uint_nonnil.
  replace (NilZero.string_of_uint d) with (NilEmpty.string_of_uint d)
    by (destruct d; [contradiction|reflexivity..]).
  destruct (digit_char (c mod 100 / 10)) as [Hd1 Hv1].
  { Z.div_mod_to_equations. lia. }
  destruct (digit_char (c mod 100 mod 10)) as [Hd2 Hv2].
  { apply Z.mod_pos_bound. lia. }
  rewrite append_nil_l.
  change ("." +:+ ?t) with (String "." t).
  rewrite (of_string_two_decimals d _ _ Hd Hd1 Hd2).
  rewrite Hv1, Hv2. unfold d. rewrite uint_acc_to_uint by (apply Z.div_pos; lia).
  f_equal. f_equal. Z.div_mod_to_equations. lia.
Qed.

Lemma pow2_small : (pow2 (-1022) <= 1 # 256)%Q.
Proof.
  apply Qle_trans with (pow2 (-8)); [apply pow2_le; lia|]. apply Qle_refl.
Qed.

Lemma pow2_large : (inject_Z (2 ^ 61) <= pow2 1023)%Q.
Proof.
  apply Qle_trans with (pow2 61); [|apply pow2_le; lia].
  rewrite pow2_inject by lia. apply Qle_refl.
Qed.

Lemma inject_Z_nonneg (z : Z) : 0 <= z -> (0 <= inject_Z z)%Q.
Proof. intros H. rewrite Zle_Qle in H. exact H. Qed.

Lemma inject_Z_ge_1 (z : Z) : 1 <= z -> (1 <= inject_Z z)%Q.
Proof. intros H. rewrite Zle_Qle in H. exact H. Qed.

Lemma sum_amounts_within (payments : list Payment) (cents : list Z) :
  Forall2 amount_is_cents payments cents ->
  forall (t : spec_float) (C : Z) (k : nat),
    nonneg t -> 0 <= C ->
    Z.of_nat (k + length payments) <= 2 ^ 50 ->
    C + fold_right Z.add 0 cents < 2 ^ 60 ->
    within t C k ->
    exists t',
      sum_amounts t payments = Ok t' /\ nonneg t' /\
      within t' (C + fold_right Z.add 0 cents) (k + length payments).
Proof.
  induction 1 as [|p c payments cents [Hc (ch & Hamount)] Hrest IH];
    intros t C k Ht HC Hn Hbound Hw.
  - exists t. cbn [sum_amounts fold_right length].
    rewrite Z.add_0_r, Nat.add_0_r. split_and!; [reflexivity|exact Ht|exact Hw].
  - cbn [fold_right length] in *.
    assert (Hsum0 : 0 <= fold_right Z.add 0 cents).
    { clear -Hrest. induction Hrest as [|? ? ? ? [H0 _] _ IH]; cbn [fold_right]; lia. }
    cbn [sum_amounts]. rewrite Hamount. cbn [mbind result_bind].
    rewrite py_slice_quoted_one_trailing, of_string_cents_text by exact Hc.
    cbn [mbind result_bind].
    set (fa := Float.round_ratio false c 100).
    (* the parsed amount *)
    assert (Hq100 : (inject_Z c / inject_Z 100 == inject_Z c * (1 # 100))%Q).
    { unfold Qdiv. reflexivity. }
    destruct (round_ratio_nonneg c 100 Hc ltac:(lia)) as [Hfa_nn Hfa].
    { destruct (Z.eq_dec c 0) as [H0|Hne]; [left; exact H0|right].
      rewrite Hq100.
      assert (H1 : (1 <= inject_Z c)%Q) by (apply inject_Z_ge_1; lia).
      assert (H2 : (inject_Z c < inject_Z (2 ^ 61))%Q) by (rewrite <- Zlt_Qlt; lia).
      pose proof pow2_small. pose proof pow2_large. split; lra. }
    fold fa in Hfa_nn, Hfa. rewrite Hq100 in Hfa.
    (* the running total *)
    unfold within in Hw. cbv zeta in Hw.
    set (s0 := (inject_Z C * (1 # 100))%Q) in *.
    set (a := (inject_Z c * (1 # 100))%Q) in *.
    set (ck := (4 * u53 * inject_Z (Z.of_nat k))%Q) in *.
    assert (HS0 : (0 <= s0)%Q).
    { unfold s0. pose proof (inject_Z_nonneg C HC). lra. }
    assert (Ha0 : (0 <= a)%Q).
    { unfold a. pose proof (inject_Z_nonneg c Hc). lra. }
    assert (Hck0 : (0 <= ck)%Q).
    { unfold ck. pose proof (inject_Z_nonneg (Z.of_nat k) ltac:(lia)). unfold u53. lra. }
    assert (Hck1 : (ck <= 1 # 2)%Q).
    { unfold ck. assert (H : (inject_Z (Z.of_nat k) <= inject_Z (2 ^ 50))%Q)
        by (rewrite <- Zle_Qle; lia).
      change (inject_Z (2 ^ 50)) with (1125899906842624 # 1)%Q in H. unfold u53. lra. }
    assert (HX : (ck * s0 <= (1 # 2) * s0)%Q).
    { apply Qmult_le_compat_r; assumption. }
    assert (HX0 : (0 <= ck * s0)%Q) by (apply Qmult_le_0_compat; assumption).
    destruct (add_nonneg t fa Ht Hfa_nn) as [Hadd_nn Hadd].
    { destruct (Z.eq_dec (C + c) 0) as [H0|Hne].
      - left. assert (C = 0) as HC0 by lia. assert (c = 0) as Hc0 by lia.
        assert (Hs0eq : (s0 == 0)%Q) by (unfold s0; rewrite HC0; reflexivity).
        assert (Ha : (a == 0)%Q) by (unfold a; rewrite Hc0; reflexivity).
        pose proof (F2Q_nonneg t Ht). pose proof (F2Q_nonneg fa Hfa_nn).
        rewrite Hs0eq in Hw. rewrite Ha in Hfa.
        set (X := (ck * 0)%Q) in *. assert (X == 0)%Q by (unfold X; ring).
        apply Qle_antisym; lra.
      - right.
        assert (H1 : (1 <= inject_Z C + inject_Z c)%Q).
        { rewrite <- inject_Z_plus. apply inject_Z_ge_1. lia. }
        assert (H2 : (inject_Z C + inject_Z c < inject_Z (2 ^ 60))%Q).
        { rewrite <- inject_Z_plus, <- Zlt_Qlt. lia. }
        change (inject_Z (2 ^ 60)) with (1152921504606846976 # 1)%Q in H2.
        pose proof pow2_small as Hsmall. pose proof pow2_large as Hlarge.
        change (inject_Z (2 ^ 61)) with (2305843009213693952 # 1)%Q in Hlarge.
        set (X := (ck * s0)%Q) in *. unfold s0, a, u53 in *.
        split; lra. }
    destruct (IH (Float.add t fa) (C + c) (S k)) as (t' & Hsum & Hnn' & Hw').
    + exact Hadd_nn.
    + lia.
    + lia.
    + lia.
    + unfold within. cbv zeta.
      assert (HSa : (inject_Z (C + c) * (1 # 100) == s0 + a)%Q).
      { rewrite inject_Z_plus. unfold s0, a. ring. }
      assert (Hck : (4 * u53 * inject_Z (Z.of_nat (S k)) == ck + 4 * u53)%Q).
      { rewrite Nat2Z.inj_succ. unfold Z.succ. rewrite inject_Z_plus. unfold ck. ring. }
      rewrite HSa, Hck.
      apply (sum_step_error s0 a (F2Q t) (F2Q fa) _ ck); try assumption; lra.
    + exists t'. split_and!; [exact Hsum|exact Hnn'|].
      replace (C + (c + fold_right Z.add 0 cents)) with (C + c + fold_right Z.add 0 cents) by lia.
      replace (k + S (length payments))%nat with (S k + length payments)%nat by lia.
      exact Hw'.
Qed.

(** A total within half a hundredth of [C / 100] is written as [C]
    hundredths. *)
Lemma format_2f_within (t : spec_float) (C : Z) (n : nat) :
  nonneg t -> 0 <= C -> within t C n -> Z.of_nat n * C < 2 ^ 50 ->
  Float.format_2f t = cents_text C.
Proof.
  intros Ht HC Hw Hbound. unfold within in Hw. cbv zeta in Hw.
  assert (HnC : (inject_Z (Z.of_nat n) * inject_Z C < inject_Z (2 ^ 50))%Q).
  { rewrite <- inject_Z_mult, <- Zlt_Qlt. exact Hbound. }
  change (inject_Z (2 ^ 50)) with (1125899906842624 # 1)%Q in HnC.
  set (P := (inject_Z (Z.of_nat n) * inject_Z C)%Q) in *.
  assert (Herr : (4 * u53 * inject_Z (Z.of_nat n) * (inject_Z C * (1 # 100))
                  == (4 # 100) * u53 * P)%Q) by (unfold P; ring).
  rewrite Herr in Hw. clear Herr.
  assert (Hnear : (inject_Z C - (1 # 2) < 100 * F2Q t < inject_Z C + (1 # 2))%Q).
  { unfold u53 in Hw. split; lra. }
  clear Hw HnC P Hbound.
  destruct Ht as [->|(m & e & ->)].
  - cbn [F2Q] in Hnear. cbn [Float.format_2f]. unfold cents_text. f_equal.
    assert (H : (inject_Z C < inject_Z 1)%Q) by (change (inject_Z 1) with 1%Q; lra).
    rewrite <- Zlt_Qlt in H. lia.
  - cbn [F2Q Float.signed] in Hnear. cbn [Float.format_2f]. unfold cents_text. f_equal.
    destruct (Z.leb_spec 0 e) as [He|He].
    + rewrite <- pow2_inject in Hnear by lia.
      assert (H1 : (inject_Z (2 * C) < inject_Z (2 * (100 * Z.pos m * 2 ^ e) + 1))%Q).
      { rewrite inject_Z_plus, !inject_Z_mult.
        change (inject_Z 2) with 2%Q. change (inject_Z 100) with 100%Q.
        change (inject_Z 1) with 1%Q. lra. }
      assert (H2 : (inject_Z (2 * (100 * Z.pos m * 2 ^ e)) < inject_Z (2 * C + 1))%Q).
      { rewrite inject_Z_plus, !inject_Z_mult.
        change (inject_Z 2) with 2%Q. change (inject_Z 100) with 100%Q.
        change (inject_Z 1) with 1%Q. lra. }
      rewrite <- Zlt_Qlt in H1, H2. lia.
    + apply round_half_even_unique; [apply Z.pow_pos_nonneg; lia|].
      pose proof (pow2_opp_r e) as Hone. rewrite <- (pow2_inject (- e)) in Hone by lia.
      set (D := 2 ^ (- e)) in *.
      assert (HD : 0 < D) by (apply Z.pow_pos_nonneg; lia).
      pose proof (inject_Z_pos D HD) as HDq.
      destruct Hnear as [Hn1 Hn2].
      apply (Qmult_lt_compat_r _ _ _ HDq) in Hn1, Hn2.
      assert (Hmid : (100 * (inject_Z (Z.pos m) * pow2 e) * inject_Z D
                      == 100 * inject_Z (Z.pos m))%Q).
      { rewrite <- Qmult_assoc, <- (Qmult_assoc (inject_Z (Z.pos m))), Hone. ring. }
      rewrite Hmid in Hn1, Hn2.
      assert (H1 : (inject_Z (2 * (C * D)) < inject_Z (2 * (100 * Z.pos m) + D))%Q).
      { rewrite inject_Z_plus, !inject_Z_mult.
        change (inject_Z 2) with 2%Q. change (inject_Z 100) with 100%Q. lra. }
      assert (H2 : (inject_Z (2 * (100 * Z.pos m)) < inject_Z (2 * (C * D) + D))%Q).
      { rewrite inject_Z_plus, !inject_Z_mult.
        change (inject_Z 2) with 2%Q. change (inject_Z 100) with 100%Q. lra. }
      rewrite <- Zlt_Qlt in H1, H2. lia.
Qed.

(** The total of a group whose amounts are whole hundredths. *)
Lemma sum_amounts_exact (payments : list Payment) (cents : list Z) :
  Forall2 amount_is_cents payments cents ->
  Z.of_nat (length payments) <= 2 ^ 50 ->
  Z.of_nat (length payments) * fold_right Z.add 0 cents < 2 ^ 50 ->
  exists total,
    sum_amounts (S754_zero false) payments = Ok total /\
    Float.format_2f total = exact_total cents.
Proof.
  intros Hall Hlen Hbound.
  assert (Hsum0 : 0 <= fold_right Z.add 0 cents).
  { clear -Hall. induction Hall as [|? ? ? ? [H0 _] _ IH]; cbn [fold_right]; lia. }
  destruct payments as [|p payments].
  - inversion Hall. subst. exists (S754_zero false). split; reflexivity.
  - assert (Hlen1 : 1 <= Z.of_nat (length (p :: payments))) by (cbn [length]; lia).
    destruct (sum_amounts_within _ _ Hall (S754_zero false) 0 0) as (t' & Hsum & Hnn & Hw).
    + left. reflexivity.
    + lia.
    + exact Hlen.
    + nia.
    + unfold within. cbv zeta. cbn [F2Q]. change (inject_Z 0) with 0%Q.
      change (inject_Z (Z.of_nat 0)) with 0%Q. split; apply Qle_lteq; right; ring.
    + exists t'. split; [exact Hsum|].
      unfold exact_total. rewrite Z.add_0_l in Hw. cbn [Nat.add] in Hw.
      apply (format_2f_within t' _ (length (p :: payments))); assumption.
Qed.

End Accuracy.

(** ** Aggregator: the amount of the output records *)

Lemma sum_group_amount SYSTIME (payments : list Payment) (out : Payment) :
  sum_group SYSTIME payments = Ok out ->
  exists total,
    sum_amounts (S754_zero false) payments = Ok total /\
    getattr out "amount" = Ok (quoted (Float.format_2f total)).
Proof.
  intros H. apply sum_group_Ok_inv in H
    as (total & first & v1 & v2 & v3 & v4 & v5 & v6 & v7 & v8 & v9 & v10 & Hrest).
  destruct Hrest as (Ht & _ & _ & _ & _ & _ & _ & _ & _ & _ & _ & _ & ->).
  exists total. split; [exact Ht|reflexivity].
Qed.

(** C1, as the code has it: the amounts are parsed to binary64 floats and
    added as floats, so the total is exact within bounds only.  For a
    group of [n] records whose amounts are whole hundredths, written with
    two decimals in quotes and followed by one character, with [n] at most
    [2 ^ 50] and [n] times the exact total in hundredths below [2 ^ 50],
    the total computed is the exact sum written with two decimals, and it
    is the amount of the group's output record. *)
Theorem sum_payments_exact_total SYSTIME (groups : groups_dict) (i : nat)
    (ref : string) (payments : list Payment) (cents : list Z) :
  groups !! i = Some (ref, payments) ->
  Forall2 amount_is_cents payments cents ->
  (Z.of_nat (length payments) <= 2 ^ 50)%Z ->
  (Z.of_nat (length payments) * fold_right Z.add 0%Z cents < 2 ^ 50)%Z ->
  (exists total,
     sum_amounts (S754_zero false) payments = Ok total /\
     Float.format_2f total = exact_total cents) /\
  forall outs out,
    sum_payments SYSTIME groups = Ok outs -> outs !! i = Some out ->
    getattr out "amount" = Ok (quoted (exact_total cents)).
Proof.
  intros Hg Hall Hlen Hbound.
  destruct (sum_amounts_exact payments cents Hall Hlen Hbound) as (total & Hsum & Hfmt).
  split; [exists total; split; assumption|].
  intros outs out Houts Hout.
  destruct (sum_payments_lookup _ _ _ Houts) as [_ Hlook].
  specialize (Hlook i _ out Hg Hout). cbn [snd] in Hlook.
  apply sum_group_amount in Hlook as (total' & Hsum' & Hamount).
  rewrite Hsum in Hsum'. inversion Hsum'. subst total'.
  rewrite Hamount, Hfmt. reflexivity.
Qed.

(** C6, as the code has it: a group of one record is summed like any
    other.  When the record holds the fields that are copied and its
    amount is a whole number of hundredths below [2 ^ 50], written with two
    decimals in quotes and followed by one character, the output record
    exists and its amount is the input amount without the character after
    the closing quote; and wherever the group stands in the dictionary,
    that record is its output. *)
Theorem sum_payments_singleton SYSTIME (p : Payment) (c : Z) (ch : ascii) :
  (forall key, key ∈ copied_fields -> exists v, getattr p key = Ok v) ->
  getattr p "amount" = Ok (quoted (cents_text c) +:+ String ch EmptyString) ->
  (0 <= c < 2 ^ 50)%Z ->
  exists out,
    sum_group SYSTIME [p] = Ok out /\
    getattr out "amount" = Ok (quoted (cents_text c)) /\
    forall (groups : groups_dict) (i : nat) (ref : string) (outs : list Payment),
      groups !! i = Some (ref, [p]) ->
      sum_payments SYSTIME groups = Ok outs ->
      length outs = length groups /\ outs !! i = Some out.
Proof.
  intros Hfields Hamount Hc.
  destruct (sum_amounts_exact [p] [c]) as (total & Hsum & Hfmt).
  { constructor; [|constructor]. split; [lia|]. exists ch. exact Hamount. }
  { cbn [length]. lia. }
  { cbn [length fold_right]. lia. }
  unfold exact_total in Hfmt. cbn [fold_right] in Hfmt. rewrite Z.add_0_r in Hfmt.
  assert (Hin : forall key, key ∈ copied_fields -> exists v, getattr p key = Ok v)
    by exact Hfields.
  unfold copied_fields in Hin.
  destruct (Hin "batch_run_id") as [v1 H1]; [repeat constructor|].
  destruct (Hin "posting_ref") as [v2 H2]; [repeat constructor|].
  destruct (Hin "account_ref") as [v3 H3]; [repeat constructor|].
  destruct (Hin "payee_name") as [v4 H4]; [repeat constructor|].
  destruct (Hin "payee_address") as [v5 H5]; [repeat constructor|].
  destruct (Hin "claim_ref") as [v6 H6]; [repeat constructor|].
  destruct (Hin "sort_code") as [v7 H7]; [repeat constructor|].
  destruct (Hin "bank_account") as [v8 H8]; [repeat constructor|].
  destruct (Hin "bank_account_name") as [v9 H9]; [repeat constructor|].
  destruct (Hin "building_society_num") as [v10 H10]; [repeat constructor|].
  eexists. split_and!.
  - unfold sum_group. rewrite Hsum. cbn [mbind result_bind getitem lookup list_lookup].
    rewrite H1, H2, H3, H4, H5, H6, H7, H8, H9, H10. cbn [mbind result_bind]. reflexivity.
  - rewrite Hfmt. reflexivity.
  - intros groups i ref outs Hg Houts.
    destruct (sum_payments_lookup _ _ _ Houts) as [Hlen Hlook]. split; [exact Hlen|].
    destruct (lookup_lt_is_Some_2 outs i) as [out' Hout'].
    { rewrite Hlen. eapply lookup_lt_Some, Hg. }
    specialize (Hlook i _ out' Hg Hout'). cbn [snd] in Hlook.
    rewrite Hout'. f_equal.
    unfold sum_group in Hlook. rewrite Hsum in Hlook.
    cbn [mbind result_bind getitem lookup list_lookup] in Hlook.
    rewrite H1, H2, H3, H4, H5, H6, H7, H8, H9, H10 in Hlook.
    cbn [mbind result_bind] in Hlook. inversion Hlook. reflexivity.
Qed.

(** ** The pipeline *)

(** The reference store of the model keeps the references it assigned. *)
Lemma ref_store_rank_app (store : ref_store) (row identity : list string) (rank ref : nat) :
  ref_store_rank store identity rank = Some ref ->
  ref_store_rank (store ++ [row])%list identity rank = Some ref.
Proof.
  revert rank. induction store as [|r store IH]; intros rank; cbn [ref_store_rank app].
  - discriminate.
  - destruct (decide (r = identity)); [trivial|]. apply IH.
Qed.

Lemma ref_store_select_stable (store : ref_store) (params params' : list string)
    (ref : string) :
  ref_store_select store params = Some ref ->
  ref_store_select (ref_store_insert store params') params = Some ref.
Proof.
  unfold ref_store_select, ref_store_insert. intros Hsel.
  destruct (decide (drop 4 params' ∈ store)); [exact Hsel|].
  destruct (ref_store_rank store params 1) as [rank|] eqn:Hrank; [|discriminate].
  rewrite (ref_store_rank_app _ _ _ _ _ Hrank). exact Hsel.
Qed.

Lemma create_payment_holds_defaults SYSTIME (lines : list string) (i : nat) (p : Payment) :
  create_payment SYSTIME lines i = Ok p -> holds_defaults SYSTIME p.
Proof.
  unfold create_payment. intros H.
  do 10 (apply bind_Ok_inv in H as (? & _ & H)).
  inversion H. intros key Hkey. apply getattr_Payment_init_default.
  intros Hin. apply Hkey. unfold copied_fields.
  rewrite !fmap_cons in Hin. cbn [fst] in Hin.
  repeat (apply elem_of_cons in Hin as [->|Hin]; [repeat constructor|]).
  inversion Hin.
Qed.

(** The parser leaves the defaults in every field that is not copied, and
    the resolver only sets the account reference. *)
Lemma create_payments_hold_defaults SYSTIME (lines : list string) (payments : list Payment) :
  create_payments SYSTIME lines = Ok payments -> Forall (holds_defaults SYSTIME) payments.
Proof.
  unfold create_payments. intros H. apply mapM_Ok_inv in H.
  induction H as [|i p range payments Hp _ IH]; constructor; [|exact IH].
  exact (create_payment_holds_defaults SYSTIME lines i p Hp).
Qed.

Lemma query_payments_hold_defaults SYSTIME (connection : Type)
    (insert_query : connection -> list string -> connection)
    (select_query : connection -> list string -> option string)
    (conn conn' : connection) (payments payments' : list Payment) :
  query_payments connection insert_query select_query conn payments = Ok (conn', payments') ->
  Forall (holds_defaults SYSTIME) payments ->
  Forall (holds_defaults SYSTIME) payments'.
Proof.
  revert conn conn' payments'. induction payments as [|p rest IH];
    intros conn conn' payments' H Hall; cbn [query_payments] in H.
  - inversion H. constructor.
  - apply bind_Ok_inv in H as ([conn1 p1] & H1 & H).
    apply bind_Ok_inv in H as ([conn2 rest2] & H2 & H).
    inversion H. subst. apply Forall_cons in Hall as [Hp Hall].
    constructor; [|exact (IH _ _ _ H2 Hall)].
    apply query_payment_Ok_inv in H1 as (sql & ref & _ & _ & _ & ->).
    intros key Hkey. unfold getattr. rewrite lookup_attr_setattr.
    destruct (String.eqb "account_ref" key) eqn:Hk.
    + apply String.eqb_eq in Hk. subst key. exfalso. apply Hkey.
      unfold copied_fields. repeat constructor.
    + exact (Hp key Hkey).
Qed.

(** ** The models at sample values *)

Example py_range_header_only : py_range 1 1 29 = [].
Proof. reflexivity. Qed.

Example py_range_two_blocks : py_range 1 59 29 = [1; 30].
Proof. reflexivity. Qed.

Example py_range_short_block : py_range 1 31 29 = [1; 30].
Proof. reflexivity. Qed.

Example py_slice_field : py_slice 1 (-2) (field_line "J SMITH") = "J SMITH".
Proof. reflexivity. Qed.

Example py_slice_short : py_slice 1 (-2) "ab" = EmptyString.
Proof. reflexivity. Qed.

Example replace_data_new :
  replace "\data" "\new" ".\data\bpy331_1.dat" = ".\new\bpy331_1.dat".
Proof. reflexivity. Qed.

Example replace_non_overlapping : replace "aa" "b" "aaa" = "ba".
Proof. reflexivity. Qed.

Example splitlines_sample :
  splitlines ("ab" +:+ newline +:+ newline +:+ "c" +:+ String "013" newline +:+ "d")
  = ["ab"; EmptyString; "c"; "d"].
Proof. reflexivity. Qed.

Example cents_text_samples :
  map cents_text [1250%Z; 5%Z; 0%Z] = ["12.50"; "0.05"; "0.00"].
Proof. reflexivity. Qed.

(** The float nearest to one tenth, and to 1.015. *)
Example of_string_tenth :
  Float.of_string "0.1" = Ok (S754_finite false 7205759403792794 (-56)).
Proof. vm_compute. reflexivity. Qed.

Example of_string_1015 :
  Float.of_string "1.015" = Ok (S754_finite false 4571153621781053 (-52)).
Proof. vm_compute. reflexivity. Qed.

Example of_string_forms :
  map Float.of_string [" 1.5 "; "1_0"; "+.5"; "5."; "1e1"; "-0"; "iNf"; "1e400"]
  = [ Ok (S754_finite false 6755399441055744 (-52));
      Ok (S754_finite false 5629499534213120 (-49));
      Ok (S754_finite false 4503599627370496 (-53));
      Ok (S754_finite false 5629499534213120 (-50));
      Ok (S754_finite false 5629499534213120 (-49));
      Ok (S754_zero true); Ok (S754_infinity false); Ok (S754_infinity false) ].
Proof. vm_compute. reflexivity. Qed.

Example of_string_rejects :
  map Float.of_string ["1__0"; "_1"; "1_"; "1_.5"; "."; "1e"; "12.34" +:+ String dq " "; "1 2"]
  = repeat (Raise ValueError) 8.
Proof. vm_compute. reflexivity. Qed.

Example format_2f_ties :
  map (fun s => Float.format_2f <$> (match Float.of_string s with Ok x => Some x | Raise _ => None end))
      ["0.125"; "0.375"; "1.005"; "2.675"; "-0.001"; "1e23"]
  = [Some "0.12"; Some "0.38"; Some "1.00"; Some "2.67"; Some "-0.00";
     Some "99999999999999991611392.00"].
Proof. vm_compute. reflexivity. Qed.

(** On the sample floats, in every pairing, the addition is the binary64
    addition of the standard library's [SpecFloat]. *)
Example add_matches_SFadd_on_samples :
  Forall (fun x => Forall (fun y => Float.add x y = SFadd 53 1024 x y) sample_floats)
    sample_floats.
Proof. apply (bool_decide_unpack _). vm_compute. exact I. Qed.

(** On the sample quotients the rounding is the binary64 division of
    [SpecFloat] applied to the two integers. *)
Example round_ratio_matches_SFdiv_on_samples :
  Forall (fun pq : positive * positive =>
            Float.round_ratio false (Z.pos pq.1) (Z.pos pq.2)
            = SFdiv 53 1024 (float_of_pos pq.1) (float_of_pos pq.2))
    sample_ratios.
Proof. apply (bool_decide_unpack _). vm_compute. exact I. Qed.

(** The whole pipeline on two payments of 5.00 and 7.50 to one payee: one
    output record, of 12.50, under the first reference of the store. *)
Example pipeline_two_payments :
  (outs ← run_pipeline sample_SYSTIME two_payment_lines;
   mapM (fun out => amount ← getattr out "amount";
                    account_ref ← getattr out "account_ref";
                    Ok (amount, account_ref)) outs)
  = Ok [(quoted "12.50", quoted "1")].
Proof. vm_compute. reflexivity. Qed.

(** * Further properties *)

(** ** Parser and constructor *)

(** X1: the parser reads nine lines of each block and nothing else: two
    inputs of the same length that agree on the offsets 1, 2, 6, 7, 10, 15,
    16, 17 and 18 of every block give the same result, whatever the header
    and the other lines hold. *)
Theorem create_payments_reads_parsed_offsets SYSTIME (lines lines' : list string) :
  length lines = length lines' ->
  (forall b k, k ∈ parsed_offsets ->
     lines !! (1 + 29 * b + k) = lines' !! (1 + 29 * b + k)) ->
  create_payments SYSTIME lines = create_payments SYSTIME lines'.
Proof.
  intros Hlen Hsame. unfold create_payments. rewrite <- Hlen.
  apply mapM_ext_Forall, Forall_forall. intros i Hi.
  apply list_elem_of_In, in_map_iff in Hi as (j & <- & _).
  assert (Hk : forall k, k ∈ parsed_offsets ->
                 getitem lines (1 + j * 29 + k) = getitem lines' (1 + j * 29 + k)).
  { intros k Hk. unfold getitem.
    replace (1 + j * 29 + k) with (1 + 29 * j + k) by lia.
    rewrite (Hsame j k Hk). reflexivity. }
  unfold create_payment, parsed_offsets in *.
  rewrite !Hk by (repeat constructor). reflexivity.
Qed.

Lemma last_binding_is_Some key kwargs found :
  is_Some found -> is_Some (last_binding key kwargs found).
Proof.
  revert found. induction kwargs as [|[k v] kwargs IH]; intros found Hfound;
    cbn [last_binding]; [exact Hfound|].
  apply IH. destruct (String.eqb k key); [eexists; reflexivity|exact Hfound].
Qed.

(** X2: whatever keyword arguments it is given, the constructor builds a
    record that has every one of the 29 fields, so reading a field of a
    constructed record never raises AttributeError. *)
Theorem Payment_init_has_fields SYSTIME (kwargs : list (string * string)) (key : string) :
  key ∈ field_order -> exists value, getattr (Payment_init SYSTIME kwargs) key = Ok value.
Proof.
  intros Hkey. unfold getattr, Payment_init. rewrite lookup_attr_setattrs.
  destruct (last_binding_is_Some key kwargs
              (lookup_attr key (setattrs (defaults SYSTIME) []))) as [value Hvalue].
  - unfold field_order in Hkey.
    repeat (apply elem_of_cons in Hkey as [->|Hkey]; [eexists; reflexivity|]).
    inversion Hkey.
  - rewrite Hvalue. eauto.
Qed.

(** ** Identity resolver *)

Lemma getattr_setattr_ne key key' value (p : Payment) :
  key <> key' -> getattr (setattr key' value p) key = getattr p key.
Proof.
  intros Hne. unfold getattr. rewrite lookup_attr_setattr.
  destruct (String.eqb key' key) eqn:Hk; [|reflexivity].
  apply String.eqb_eq in Hk. congruence.
Qed.

Lemma query_payments_length (connection : Type)
    (insert_query : connection -> list string -> connection)
    (select_query : connection -> list string -> option string)
    (conn conn' : connection) (payments payments' : list Payment) :
  query_payments connection insert_query select_query conn payments = Ok (conn', payments') ->
  length payments' = length payments.
Proof.
  revert conn conn' payments'. induction payments as [|q rest IH];
    intros conn conn' payments' H; cbn [query_payments] in H.
  - inversion H. reflexivity.
  - apply bind_Ok_inv in H as ([conn1 q1] & _ & H).
    apply bind_Ok_inv in H as ([conn2 rest2] & H2 & H).
    inversion H. cbn [length]. rewrite (IH _ _ _ H2). reflexivity.
Qed.

(** X4: [query_payments] returns as many records as it is given, in the
    same order.  Each record comes back as it was but for its account
    reference, which is, in double quotes, what the select statement
    returned for the key of the record, run on the store right after the
    insert statement of that record, the records before it having been
    resolved in turn. *)
Theorem query_payments_sets_account_ref_only (connection : Type)
    (insert_query : connection -> list string -> connection)
    (select_query : connection -> list string -> option string)
    (conn conn' : connection) (payments payments' : list Payment) :
  query_payments connection insert_query select_query conn payments = Ok (conn', payments') ->
  length payments' = length payments /\
  forall i p p', payments !! i = Some p -> payments' !! i = Some p' ->
    exists sql ref before,
      query_payments connection insert_query select_query conn (take i payments)
      = Ok (before, take i payments') /\
      get_sql_fields p = Ok sql /\
      select_query (insert_query before (identity_params sql ++ identity_params sql)%list)
        (identity_params sql) = Some ref /\
      p' = setattr "account_ref" (quoted ref) p /\
      getattr p' "account_ref" = Ok (quoted ref) /\
      forall key, key <> "account_ref" -> getattr p' key = getattr p key.
Proof.
  revert conn conn' payments'. induction payments as [|q rest IH];
    intros conn conn' payments' H; cbn [query_payments] in H.
  - inversion H. split; [reflexivity|]. intros i p p' Hp. inversion Hp.
  - apply bind_Ok_inv in H as ([conn1 q1] & H1 & H).
    apply bind_Ok_inv in H as ([conn2 rest2] & H2 & H).
    inversion H. subst.
    destruct (IH _ _ _ H2) as [Hlen Hrest].
    split; [cbn [length]; rewrite Hlen; reflexivity|].
    intros [|i] p p' Hp Hp'; cbn in Hp, Hp'.
    + inversion Hp. inversion Hp'. subst.
      apply query_payment_Ok_inv in H1 as (sql & ref & Hsql & -> & Hsel & ->).
      exists sql, ref, conn. split_and!; [reflexivity|exact Hsql|exact Hsel|reflexivity| |].
      * unfold getattr. rewrite lookup_attr_setattr_same. reflexivity.
      * intros key Hkey. apply getattr_setattr_ne. exact Hkey.
    + destruct (Hrest i p p' Hp Hp') as (sql & ref & before & Hbefore & Hfields).
      exists sql, ref, before. split; [|exact Hfields].
      cbn [take query_payments]. rewrite H1. cbn [mbind result_bind].
      rewrite Hbefore. reflexivity.
Qed.

(** ** Resolving twice *)

Lemma setattr_setattr (key value value' : string) (d : Payment) :
  setattr key value (setattr key value' d) = setattr key value d.
Proof.
  induction d as [|[k v] d IH]; cbn [setattr].
  - rewrite String.eqb_refl. reflexivity.
  - destruct (String.eqb k key) eqn:Hk; cbn [setattr]; rewrite Hk; [reflexivity|].
    rewrite IH. reflexivity.
Qed.

Lemma get_sql_fields_setattr_account_ref (value : string) (p : Payment) :
  get_sql_fields (setattr "account_ref" value p) = get_sql_fields p.
Proof.
  unfold get_sql_fields. rewrite !getattr_setattr_ne by discriminate. reflexivity.
Qed.

Section ResolvingTwice.

Variable connection : Type.
Variable insert_query : connection -> list string -> connection.
Variable select_query : connection -> list string -> option string.

(** The store never changes the reference of an identity it holds. *)
Hypothesis select_stable : forall conn params params' ref,
  select_query conn params = Some ref ->
  select_query (insert_query conn params') params = Some ref.

Lemma query_payments_resolved (conn : connection) (resolved : list Payment) :
  Forall (fun p' => exists p sql ref,
            p' = setattr "account_ref" (quoted ref) p /\
            get_sql_fields p = Ok sql /\
            select_query conn (identity_params sql) = Some ref) resolved ->
  exists conn', query_payments connection insert_query select_query conn resolved
                = Ok (conn', resolved).
Proof.
  revert conn. induction resolved as [|p' resolved IH]; intros conn Hall.
  - exists conn. reflexivity.
  - apply Forall_cons in Hall as [(p & sql & ref & -> & Hsql & Hsel) Hall].
    cbn [query_payments]. unfold query_payment.
    rewrite get_sql_fields_setattr_account_ref, Hsql. cbn [mbind result_bind].
    change [sql_bank_account sql; sql_sort_code sql; sql_payee_name sql;
            sql_building_society_num sql] with (identity_params sql).
    cbv zeta. rewrite (select_stable _ _ _ _ Hsel). cbn [mbind result_bind].
    rewrite setattr_setattr.
    match goal with
    | |- context [query_payments _ _ _ ?c resolved] => destruct (IH c) as [conn' Hrest]
    end.
    + eapply Forall_impl; [exact Hall|]. cbn.
      intros q (p0 & sql0 & ref0 & -> & Hsql0 & Hsel0).
      exists p0, sql0, ref0. split_and!; [reflexivity|exact Hsql0|].
      apply select_stable. exact Hsel0.
    + rewrite Hrest. cbn [mbind result_bind]. exists conn'. reflexivity.
Qed.

Lemma query_payments_Ok_resolved (conn conn' : connection)
    (payments resolved : list Payment) :
  query_payments connection insert_query select_query conn payments = Ok (conn', resolved) ->
  Forall (fun p' => exists p sql ref,
            p' = setattr "account_ref" (quoted ref) p /\
            get_sql_fields p = Ok sql /\
            select_query conn' (identity_params sql) = Some ref) resolved.
Proof.
  revert conn conn' resolved. induction payments as [|q rest IH];
    intros conn conn' resolved H; cbn [query_payments] in H.
  - inversion H. constructor.
  - apply bind_Ok_inv in H as ([conn1 q1] & H1 & H).
    apply bind_Ok_inv in H as ([conn2 rest2] & H2 & H).
    inversion H. subst. constructor; [|exact (IH _ _ _ H2)].
    apply query_payment_Ok_inv in H1 as (sql & ref & Hsql & -> & Hsel & ->).
    exists q, sql, ref. split_and!; [reflexivity|exact Hsql|].
    exact (query_payments_stable _ _ _ select_stable _ _ _ _ _ _ H2 Hsel).
Qed.

(** X6: resolving the resolved records again changes none of them:
    against a store that keeps the references it has given out, a second
    [query_payments] on the records and the store that the first one
    left succeeds and returns the same records. *)
Theorem query_payments_twice (conn conn' : connection) (payments resolved : list Payment) :
  query_payments connection insert_query select_query conn payments = Ok (conn', resolved) ->
  exists conn'',
    query_payments connection insert_query select_query conn' resolved
    = Ok (conn'', resolved).
Proof.
  intros H. apply query_payments_resolved.
  exact (query_payments_Ok_resolved _ _ _ _ H).
Qed.

End ResolvingTwice.

(** ** Grouping *)

Lemma first_seen_snoc (refs : list string) (ref : string) :
  first_seen (refs ++ [ref])
  = if bool_decide (ref ∈ first_seen refs) then first_seen refs
    else (first_seen refs ++ [ref])%list.
Proof. unfold first_seen. rewrite fold_left_app. reflexivity. Qed.

Lemma first_seen_elem (refs : list string) (ref : string) :
  ref ∈ first_seen refs <-> ref ∈ refs.
Proof.
  induction refs as [|r refs IH] using rev_ind; [reflexivity|].
  rewrite first_seen_snoc, elem_of_app, list_elem_of_singleton.
  destruct (bool_decide_reflect (r ∈ first_seen refs)) as [Hin|Hnot].
  - rewrite IH. split; [tauto|]. intros [H| ->]; [exact H|]. apply IH, Hin.
  - rewrite elem_of_app, list_elem_of_singleton, IH. reflexivity.
Qed.

Lemma first_seen_NoDup (refs : list string) : NoDup (first_seen refs).
Proof.
  induction refs as [|r refs IH] using rev_ind; [apply NoDup_nil_2|].
  rewrite first_seen_snoc.
  destruct (bool_decide_reflect (r ∈ first_seen refs)) as [Hin|Hnot]; [exact IH|].
  apply NoDup_app. split_and!; [exact IH| |apply NoDup_singleton].
  intros x Hx Hx'. apply list_elem_of_singleton in Hx'. subst x. exact (Hnot Hx).
Qed.

Lemma members_snoc (ref : string) (payments : list Payment) (p : Payment) :
  members ref (payments ++ [p])
  = (members ref payments
     ++ if decide (getattr p "account_ref" = Ok ref) then [p] else [])%list.
Proof.
  unfold members. rewrite filter_app. reflexivity.
Qed.

Lemma setdefault_append_fmap (key : string) (payment : Payment)
    (g : string -> list Payment) (keys : list string) :
  NoDup keys ->
  setdefault_append key payment ((fun k => (k, g k)) <$> keys)
  = if bool_decide (key ∈ keys)
    then (fun k => (k, if String.eqb k key then (g k ++ [payment])%list else g k)) <$> keys
    else (((fun k => (k, g k)) <$> keys) ++ [(key, [payment])])%list.
Proof.
  induction keys as [|k keys IH]; intros Hnd; [reflexivity|].
  apply NoDup_cons in Hnd as [Hnotin Hnd]. specialize (IH Hnd).
  rewrite !fmap_cons. cbn [setdefault_append].
  destruct (String.eqb k key) eqn:Hk.
  - apply String.eqb_eq in Hk. subst k.
    rewrite bool_decide_eq_true_2 by (apply elem_of_cons; left; reflexivity).
    f_equal. apply list_fmap_ext. intros i k Hik.
    destruct (String.eqb k key) eqn:Hk; [|reflexivity].
    apply String.eqb_eq in Hk. subst k. exfalso. apply Hnotin.
    eapply list_elem_of_lookup_2, Hik.
  - rewrite IH. apply String.eqb_neq in Hk.
    destruct (bool_decide_reflect (key ∈ keys)) as [Hin|Hnot].
    + rewrite bool_decide_eq_true_2 by (apply elem_of_cons; right; exact Hin).
      reflexivity.
    + rewrite bool_decide_eq_false_2; [reflexivity|].
      intros Hin. apply elem_of_cons in Hin as [->|Hin]; [congruence|exact (Hnot Hin)].
Qed.

Lemma members_not_seen (payments : list Payment) (refs : list string) (ref : string) :
  Forall2 (fun p r => getattr p "account_ref" = Ok r) payments refs ->
  ref ∉ refs -> members ref payments = [].
Proof.
  intros Hrefs Hnot. unfold members.
  induction Hrefs as [|p r payments refs Hp _ IH]; [reflexivity|].
  rewrite filter_cons. apply not_elem_of_cons in Hnot as [Hne Hnot].
  destruct (decide _) as [Heq|_]; [|exact (IH Hnot)].
  rewrite Hp in Heq. congruence.
Qed.

Lemma groups_by_ref_snoc (payments : list Payment) (refs : list string)
    (p : Payment) (ref : string) :
  Forall2 (fun p r => getattr p "account_ref" = Ok r) payments refs ->
  getattr p "account_ref" = Ok ref ->
  setdefault_append ref p (groups_by_ref payments refs)
  = groups_by_ref (payments ++ [p]) (refs ++ [ref]).
Proof.
  intros Hrefs Hp. unfold groups_by_ref.
  rewrite (setdefault_append_fmap ref p (fun k => members k payments))
    by apply first_seen_NoDup.
  rewrite first_seen_snoc.
  destruct (bool_decide_reflect (ref ∈ first_seen refs)) as [Hin|Hnot].
  - apply list_fmap_ext. intros i k _. f_equal. rewrite members_snoc, Hp.
    destruct (String.eqb k ref) eqn:Hk.
    + apply String.eqb_eq in Hk. subst k. rewrite decide_True by reflexivity. reflexivity.
    + apply String.eqb_neq in Hk. rewrite decide_False by congruence.
      rewrite app_nil_r. reflexivity.
  - rewrite fmap_app. f_equal.
    + apply list_fmap_ext. intros i k Hik. f_equal. rewrite members_snoc, Hp.
      rewrite decide_False; [rewrite app_nil_r; reflexivity|].
      intros Heq. inversion Heq. subst k. apply Hnot.
      eapply list_elem_of_lookup_2, Hik.
    + cbn. rewrite members_snoc, Hp, decide_True by reflexivity.
      rewrite (members_not_seen payments refs ref Hrefs); [reflexivity|].
      intros Hin. apply Hnot, first_seen_elem, Hin.
Qed.

Lemma group_payments_from_groups_by_ref (done rest : list Payment) (refs : list string) :
  Forall2 (fun p r => getattr p "account_ref" = Ok r) done refs ->
  group_payments_from (groups_by_ref done refs) rest
  = (refs' ← mapM (fun p => getattr p "account_ref") rest;
     Ok (groups_by_ref (done ++ rest) (refs ++ refs'))).
Proof.
  revert done refs. induction rest as [|p rest IH]; intros done refs Hrefs.
  - cbn. rewrite !app_nil_r. reflexivity.
  - cbn [group_payments_from mapM].
    destruct (getattr p "account_ref") as [ref|e] eqn:Hp; [|reflexivity].
    cbn [mbind result_bind].
    rewrite (groups_by_ref_snoc done refs p ref Hrefs Hp).
    rewrite IH by (apply Forall2_app; [exact Hrefs|repeat constructor; exact Hp]).
    destruct (mapM _ rest) as [refs'|e]; [|reflexivity].
    cbn. rewrite <- !app_assoc. reflexivity.
Qed.

(** X7: [group_payments] reads the account reference of every record, and
    raises what the first failing read raises; otherwise the dictionary
    holds the references in the order they are first seen, and under each
    one exactly the records that carry it, in their input order. *)
Theorem group_payments_by_first_appearance (payments : list Payment) :
  group_payments payments
  = (refs ← mapM (fun p => getattr p "account_ref") payments;
     Ok (groups_by_ref payments refs)).
Proof.
  unfold group_payments.
  apply (group_payments_from_groups_by_ref [] payments []). constructor.
Qed.

Lemma group_payments_Ok_inv (payments : list Payment) (groups : groups_dict) :
  group_payments payments = Ok groups ->
  exists refs,
    Forall2 (fun p r => getattr p "account_ref" = Ok r) payments refs /\
    groups = groups_by_ref payments refs.
Proof.
  unfold group_payments. intros H.
  assert (E := group_payments_from_groups_by_ref [] payments []
                 ltac:(constructor)).
  change (groups_by_ref [] []) with (@nil (string * list Payment)) in E.
  rewrite E in H. clear E.
  apply bind_Ok_inv in H as (refs & Hrefs & H). inversion H.
  exists refs. split; [exact (mapM_Ok_inv _ _ _ Hrefs)|reflexivity].
Qed.

Lemma groups_by_ref_keys (payments : list Payment) (refs : list string) :
  (groups_by_ref payments refs).*1 = first_seen refs.
Proof.
  unfold groups_by_ref. rewrite <- list_fmap_compose. apply list_fmap_id.
Qed.

Lemma members_seen (payments : list Payment) (refs : list string) (ref : string) :
  Forall2 (fun p r => getattr p "account_ref" = Ok r) payments refs ->
  ref ∈ refs -> members ref payments <> [].
Proof.
  intros Hrefs Hin. unfold members.
  induction Hrefs as [|p r payments refs Hp _ IH]; [inversion Hin|].
  rewrite filter_cons. destruct (decide _) as [_|Hne]; [discriminate|].
  apply elem_of_cons in Hin as [->|Hin]; [contradiction|exact (IH Hin)].
Qed.

Lemma members_concat (payments : list Payment) (refs keys : list string) :
  Forall2 (fun p r => getattr p "account_ref" = Ok r) payments refs ->
  NoDup keys -> (forall r, r ∈ refs -> r ∈ keys) ->
  concat ((fun ref => members ref payments) <$> keys) ≡ₚ payments.
Proof.
  intros Hrefs Hnd. induction Hrefs as [|p r payments refs Hp _ IH]; intros Hkeys.
  - clear. induction keys as [|k keys IH]; [reflexivity|exact IH].
  - etrans; [|apply Permutation_skip, IH; intros r' Hr';
               apply Hkeys, elem_of_cons; right; exact Hr'].
    assert (Hr : r ∈ keys) by (apply Hkeys, elem_of_cons; left; reflexivity).
    clear IH Hkeys. induction keys as [|k keys IHk]; [inversion Hr|].
    apply NoDup_cons in Hnd as [Hnotin Hnd]. rewrite !fmap_cons. cbn [concat].
    unfold members at 1. rewrite filter_cons.
    destruct (decide (getattr p "account_ref" = Ok k)) as [Heq|Hne].
    + rewrite Hp in Heq. inversion Heq. subst k. cbn [app].
      apply Permutation_skip. apply Permutation_app_head.
      clear -Hnotin Hp. induction keys as [|k keys IH]; [reflexivity|].
      apply not_elem_of_cons in Hnotin as [Hne Hnotin].
      rewrite !fmap_cons. cbn [concat]. rewrite (IH Hnotin).
      unfold members at 1. rewrite filter_cons, decide_False; [reflexivity|].
      rewrite Hp. congruence.
    + apply elem_of_cons in Hr as [->|Hr]; [rewrite Hp in Hne; contradiction|].
      rewrite (IHk Hnd Hr). symmetry. apply Permutation_middle.
Qed.

(** X8: the groups of [group_payments] partition the records: the keys
    are pairwise distinct, no group is empty, every member of a group
    carries the key of the group, and the groups together hold the
    records of the input, each as often as the input does. *)
Theorem group_payments_partition (payments : list Payment) (groups : groups_dict) :
  group_payments payments = Ok groups ->
  NoDup groups.*1 /\
  (forall ref ps, (ref, ps) ∈ groups ->
     ps <> [] /\ Forall (fun p => getattr p "account_ref" = Ok ref) ps) /\
  concat groups.*2 ≡ₚ payments.
Proof.
  intros H. apply group_payments_Ok_inv in H as (refs & Hrefs & ->).
  split_and!.
  - rewrite groups_by_ref_keys. apply first_seen_NoDup.
  - intros ref ps Hin. unfold groups_by_ref in Hin.
    apply list_elem_of_fmap in Hin as (k & Heq & Hk). inversion Heq. subst ref ps.
    split.
    + apply (members_seen payments refs k Hrefs), first_seen_elem, Hk.
    + apply Forall_forall. intros p Hp. unfold members in Hp.
      apply list_elem_of_filter in Hp as [Hp _]. exact Hp.
  - unfold groups_by_ref. rewrite <- list_fmap_compose.
    apply (members_concat payments refs (first_seen refs) Hrefs).
    + apply first_seen_NoDup.
    + intros r Hr. apply first_seen_elem, Hr.
Qed.

(** ** Aggregation after grouping *)

Lemma of_string_raises (s : string) (e : exn) :
  Float.of_string s = Raise e -> e = ValueError.
Proof.
  unfold Float.of_string. intros H.
  repeat match type of H with
         | context [match ?x with _ => _ end] => destruct x
         | context [if ?x then _ else _] => destruct x
         end; congruence.
Qed.

Lemma sum_amounts_raises (total : spec_float) (payments : list Payment) (e : exn) :
  sum_amounts total payments = Raise e -> e = ValueError \/ e = AttributeError.
Proof.
  revert total. induction payments as [|p payments IH]; intros total H;
    cbn [sum_amounts] in H; [discriminate|].
  unfold getattr in H at 1. destruct (lookup_attr "amount" p) as [text|].
  - cbn [mbind result_bind] in H.
    destruct (Float.of_string _) as [amount|e'] eqn:Hparse.
    + exact (IH _ H).
    + cbn in H. inversion H. subst e'. left. exact (of_string_raises _ _ Hparse).
  - cbn in H. inversion H. right. reflexivity.
Qed.

Lemma sum_group_raises SYSTIME (payments : list Payment) (e : exn) :
  payments <> [] -> sum_group SYSTIME payments = Raise e ->
  e = ValueError \/ e = AttributeError.
Proof.
  intros Hne H. unfold sum_group in H.
  destruct (sum_amounts _ payments) as [total|e'] eqn:Hsum.
  - cbn [mbind result_bind] in H.
    destruct payments as [|first rest]; [contradiction|].
    cbn [getitem lookup list_lookup mbind result_bind] in H.
    unfold getattr in H.
    repeat match type of H with
           | context [lookup_attr ?k first] =>
               destruct (lookup_attr k first); cbn [mbind result_bind] in H
           end; inversion H; right; reflexivity.
  - cbn in H. inversion H. subst e'. exact (sum_amounts_raises _ _ _ Hsum).
Qed.

Lemma mapM_Raise_inv {A B : Type} (fn : A -> result B) (l : list A) (e : exn) :
  mapM fn l = Raise e -> exists a, a ∈ l /\ fn a = Raise e.
Proof.
  induction l as [|a l IH]; cbn [mapM]; intros H; [discriminate|].
  destruct (fn a) as [b|e'] eqn:Ha.
  - cbn [mbind result_bind] in H. destruct (mapM fn l) as [bs|e''].
    + discriminate.
    + cbn in H. inversion H. subst e''. destruct (IH eq_refl) as (a' & Hin & Ha').
      exists a'. split; [apply elem_of_cons; right; exact Hin|exact Ha'].
  - cbn in H. inversion H. subst e'. exists a.
    split; [apply elem_of_cons; left; reflexivity|exact Ha].
Qed.

(** X9: on the dictionary that [group_payments] returns, [sum_payments]
    never raises IndexError: every group has a first record. When it
    raises, it raises ValueError, for an amount that [float] rejects, or
    AttributeError, for a record without a field it reads. *)
Theorem sum_payments_after_group_payments_raises SYSTIME (payments : list Payment)
    (groups : groups_dict) (e : exn) :
  group_payments payments = Ok groups ->
  sum_payments SYSTIME groups = Raise e ->
  e = ValueError \/ e = AttributeError.
Proof.
  intros Hgroups Hsum.
  apply group_payments_Ok_inv in Hgroups as (refs & Hrefs & ->).
  apply mapM_Raise_inv in Hsum as ([ref ps] & Hin & Hraise). cbn [snd] in Hraise.
  apply (sum_group_raises SYSTIME ps e); [|exact Hraise].
  unfold groups_by_ref in Hin.
  apply list_elem_of_fmap in Hin as (k & Heq & Hk). inversion Heq. subst ref ps.
  apply (members_seen payments refs k Hrefs), first_seen_elem, Hk.
Qed.

Lemma sum_group_account_ref SYSTIME (payments : list Payment) (first out : Payment) :
  sum_group SYSTIME payments = Ok out ->
  payments !! 0 = Some first ->
  getattr out "account_ref" = getattr first "account_ref".
Proof.
  intros Hsum Hfirst.
  apply sum_group_Ok_inv in Hsum
    as (total & first' & v1 & v2 & v3 & v4 & v5 & v6 & v7 & v8 & v9 & v10 & Hrest).
  destruct Hrest as (_ & Hf & _ & _ & H3 & _ & _ & _ & _ & _ & _ & _ & ->).
  rewrite Hfirst in Hf. inversion Hf. subst first'. rewrite H3.
  unfold getattr, Payment_init. rewrite lookup_attr_setattrs. reflexivity.
Qed.

(** X10: after [group_payments], [sum_payments] returns one record for
    each distinct account reference of the input, in the order the
    references are first seen, and the record carries that reference. *)
Theorem sum_payments_one_record_per_reference SYSTIME (payments : list Payment)
    (groups : groups_dict) (summed_payments : list Payment) :
  group_payments payments = Ok groups ->
  sum_payments SYSTIME groups = Ok summed_payments ->
  exists refs,
    mapM (fun p => getattr p "account_ref") payments = Ok refs /\
    mapM (fun p => getattr p "account_ref") summed_payments = Ok (first_seen refs) /\
    NoDup (first_seen refs).
Proof.
  intros Hgroups Hsum.
  assert (Hpart := group_payments_Ok_inv payments groups Hgroups).
  destruct Hpart as (refs & Hrefs & ->).
  exists refs. split_and!; [| |apply first_seen_NoDup].
  - clear -Hrefs. induction Hrefs as [|p r payments refs Hp _ IH]; [reflexivity|].
    cbn [mapM]. rewrite Hp, IH. reflexivity.
  - apply mapM_Ok_inv in Hsum. unfold groups_by_ref in Hsum.
    assert (Hall : Forall (fun k => k ∈ refs) (first_seen refs)).
    { apply Forall_forall. intros k Hk. apply first_seen_elem, Hk. }
    revert summed_payments Hsum Hall.
    induction (first_seen refs) as [|k keys IH]; intros summed_payments Hsum Hall.
    + inversion Hsum. reflexivity.
    + rewrite fmap_cons in Hsum. inversion Hsum as [|g out gs outs Hout Hrest]. subst.
      apply Forall_cons in Hall as [Hk Hall].
      cbn [mapM]. rewrite (IH outs Hrest Hall). cbn [snd] in Hout.
      destruct (members k payments) as [|first rest] eqn:Hm.
      { exfalso. exact (members_seen payments refs k Hrefs Hk Hm). }
      rewrite (sum_group_account_ref SYSTIME _ first out Hout eq_refl).
      assert (Hfirst : first ∈ members k payments)
        by (rewrite Hm; apply elem_of_cons; left; reflexivity).
      unfold members in Hfirst. apply list_elem_of_filter in Hfirst as [Hfirst _].
      rewrite Hfirst. reflexivity.
Qed.

(** ** Amounts that [float] rejects *)

Lemma is_space_not_quote (c : ascii) : Float.is_space c = true -> Ascii.eqb c dq = false.
Proof.
  intros H. destruct (Ascii.eqb_spec c dq) as [->|_]; [|reflexivity].
  vm_compute in H. discriminate.
Qed.

Lemma is_digit_not_quote (c : ascii) : Float.is_digit c = true -> Ascii.eqb c dq = false.
Proof.
  intros H. destruct (Ascii.eqb_spec c dq) as [->|_]; [|reflexivity].
  vm_compute in H. discriminate.
Qed.

Lemma lstrip_has_quote (s : string) :
  has_quote s = true -> has_quote (Float.lstrip s) = true.
Proof.
  induction s as [|c s IH]; [discriminate|]. cbn [Float.lstrip has_quote].
  destruct (Float.is_space c) eqn:Hc; [|trivial].
  rewrite (is_space_not_quote c Hc). exact IH.
Qed.

Lemma rstrip_has_quote (s : string) :
  has_quote s = true -> has_quote (Float.rstrip s) = true.
Proof.
  induction s as [|c s IH]; [discriminate|]. cbn [Float.rstrip has_quote].
  intros H. apply orb_true_iff in H as [Hc|Hs].
  - destruct (Float.is_space c) eqn:Hsp.
    { rewrite (is_space_not_quote c Hsp) in Hc. discriminate. }
    destruct (Float.rstrip s); cbn [has_quote]; rewrite Hc; reflexivity.
  - specialize (IH Hs). destruct (Float.rstrip s) as [|c' t]; [discriminate|].
    cbn [has_quote] in *. rewrite IH. apply orb_true_r.
Qed.

Lemma drop_underscores_has_quote (prev : ascii) (s t : string) :
  Float.drop_underscores prev s = Some t -> has_quote s = true -> has_quote t = true.
Proof.
  revert prev t. induction s as [|c s IH]; intros prev t H Hq; [discriminate|].
  cbn [Float.drop_underscores has_quote] in *.
  destruct (Ascii.eqb_spec c "_") as [->|Hne].
  - destruct (Float.is_digit prev); [|discriminate]. exact (IH _ _ H Hq).
  - destruct (Ascii.eqb prev "_" && negb (Float.is_digit c)); [discriminate|].
    destruct (Float.drop_underscores c s) as [t'|] eqn:Ht; [|discriminate].
    inversion H. cbn [has_quote].
    apply orb_true_iff in Hq as [Hc|Hs]; [rewrite Hc; reflexivity|].
    rewrite (IH _ _ Ht Hs). apply orb_true_r.
Qed.

Lemma read_sign_cases (s : string) :
  Float.read_sign s
  = match s with
    | String c s' =>
        if Ascii.eqb c "-" then (true, s')
        else if Ascii.eqb c "+" then (false, s') else (false, s)
    | EmptyString => (false, s)
    end.
Proof.
  destruct s as [|c s']; [reflexivity|].
  destruct c as [[] [] [] [] [] [] [] []]; reflexivity.
Qed.

Lemma read_sign_has_quote (s : string) :
  has_quote s = true -> has_quote (Float.read_sign s).2 = true.
Proof.
  rewrite read_sign_cases. destruct s as [|c s']; [discriminate|].
  cbn [has_quote]. intros H.
  destruct (Ascii.eqb_spec c "-") as [->|_]; [exact H|].
  destruct (Ascii.eqb_spec c "+") as [->|_]; [exact H|exact H].
Qed.

Lemma lowercase_has_quote (s : string) :
  has_quote s = true -> has_quote (Float.lowercase s) = true.
Proof.
  induction s as [|c s IH]; [discriminate|]. cbn [Float.lowercase has_quote].
  intros H. apply orb_true_iff in H as [Hc|Hs].
  - apply Ascii.eqb_eq in Hc. subst c. reflexivity.
  - rewrite (IH Hs). apply orb_true_r.
Qed.

Lemma read_digits_has_quote (s : string) (acc : Z) (n : nat) :
  has_quote s = true -> has_quote (Float.read_digits acc n s).2 = true.
Proof.
  revert acc n. induction s as [|c s IH]; intros acc n H; [discriminate|].
  cbn [Float.read_digits]. destruct (Float.is_digit c) eqn:Hc; [|exact H].
  apply IH. cbn [has_quote] in H. rewrite (is_digit_not_quote c Hc) in H. exact H.
Qed.

Lemma read_fraction_cases (ip : Z) (s : string) :
  match s with
  | String "." s' => Float.read_digits ip 0 s'
  | _ => (ip, 0, s)
  end
  = match s with
    | String c s' => if Ascii.eqb c "." then Float.read_digits ip 0 s' else (ip, 0, s)
    | EmptyString => (ip, 0, s)
    end.
Proof.
  destruct s as [|c s']; [reflexivity|].
  destruct c as [[] [] [] [] [] [] [] []]; reflexivity.
Qed.

Lemma parse_decimal_has_quote (s : string) :
  has_quote s = true -> Float.parse_decimal s = None.
Proof.
  intros H. unfold Float.parse_decimal.
  pose proof (read_digits_has_quote s 0 0 H) as H1.
  destruct (Float.read_digits 0 0 s) as [[ip ni] s1]. cbn [snd] in H1.
  rewrite read_fraction_cases.
  assert (H2 : has_quote
            (match s1 with
             | String c s' =>
                 if Ascii.eqb c "." then Float.read_digits ip 0 s' else (ip, 0, s1)
             | EmptyString => (ip, 0, s1)
             end).2 = true).
  { destruct s1 as [|c s1']; [discriminate|].
    destruct (Ascii.eqb_spec c ".") as [->|_]; [|exact H1].
    apply read_digits_has_quote. exact H1. }
  destruct (match s1 with String c s' => _ | EmptyString => _ end) as [[m nf] s2].
  cbn [snd] in H2. destruct (ni + nf =? 0); [reflexivity|].
  destruct s2 as [|c s3]; [discriminate|].
  destruct (Ascii.eqb (Float.lower c) "e") eqn:He; [|reflexivity].
  assert (H3 : has_quote s3 = true).
  { cbn [has_quote] in H2. apply orb_true_iff in H2 as [Hc|Hs]; [|exact Hs].
    apply Ascii.eqb_eq in Hc. subst c. vm_compute in He. discriminate. }
  pose proof (read_sign_has_quote s3 H3) as H4.
  destruct (Float.read_sign s3) as [neg s4]. cbn [snd] in H4.
  pose proof (read_digits_has_quote s4 0 0 H4) as H5.
  destruct (Float.read_digits 0 0 s4) as [[x nx] s5]. cbn [snd] in H5.
  destruct (nx =? 0); [reflexivity|]. destruct s5; [discriminate|reflexivity].
Qed.

Lemma of_string_has_quote (s : string) :
  has_quote s = true -> Float.of_string s = Raise ValueError.
Proof.
  intros H. unfold Float.of_string.
  destruct (Float.drop_underscores "000" (Float.rstrip (Float.lstrip s))) as [t|] eqn:Ht;
    [|reflexivity].
  apply drop_underscores_has_quote in Ht; [|apply rstrip_has_quote, lstrip_has_quote, H].
  pose proof (read_sign_has_quote t Ht) as Hu.
  destruct (Float.read_sign t) as [neg u]. cbn [snd] in Hu.
  pose proof (lowercase_has_quote u Hu) as Hl.
  destruct (String.eqb_spec (Float.lowercase u) "inf") as [E|_];
    [rewrite E in Hl; discriminate|].
  destruct (String.eqb_spec (Float.lowercase u) "infinity") as [E|_];
    [rewrite E in Hl; discriminate|].
  destruct (String.eqb_spec (Float.lowercase u) "nan") as [E|_];
    [rewrite E in Hl; discriminate|].
  cbn [orb]. rewrite (parse_decimal_has_quote u Hu). reflexivity.
Qed.

Lemma substring_has_quote (v trail : string) (n : nat) :
  String.length v < n -> has_quote (substring 0 n (v +:+ String dq trail)) = true.
Proof.
  revert n. induction v as [|c v IH]; intros n Hn.
  - rewrite append_nil_l. destruct n as [|n]; [inversion Hn|]. reflexivity.
  - rewrite append_cons. destruct n as [|n]; [inversion Hn|].
    cbn [substring has_quote]. rewrite IH by (cbn in Hn; lia). apply orb_true_r.
Qed.

Lemma py_slice_quoted_long_trail (v trail : string) :
  2 <= String.length trail ->
  has_quote (py_slice 1 (-2) (quoted v +:+ trail)) = true.
Proof.
  intros Htrail.
  assert (Hshape : quoted v +:+ trail = String dq (v +:+ String dq trail)).
  { unfold quoted. rewrite append_cons, append_assoc, append_cons, append_nil_l.
    reflexivity. }
  rewrite Hshape. unfold py_slice. cbn [String.length].
  rewrite length_append. cbn [String.length]. unfold clamp_index.
  replace (1 <? 0)%Z with false by reflexivity.
  replace (-2 <? 0)%Z with true by reflexivity.
  rewrite Z.min_l by lia. rewrite Z.max_l by lia.
  replace (Z.to_nat 1) with 1 by reflexivity.
  cbn [substring]. apply substring_has_quote. lia.
Qed.

Lemma sum_amounts_Ok_parses (total result : spec_float) (payments : list Payment)
    (p : Payment) (text : string) :
  sum_amounts total payments = Ok result ->
  p ∈ payments -> getattr p "amount" = Ok text ->
  exists amount, Float.of_string (py_slice 1 (-2) text) = Ok amount.
Proof.
  revert total. induction payments as [|q payments IH]; intros total H Hp Htext;
    [inversion Hp|].
  cbn [sum_amounts] in H.
  apply bind_Ok_inv in H as (text' & Htext' & H).
  apply bind_Ok_inv in H as (amount & Hamount & H).
  apply elem_of_cons in Hp as [->|Hp].
  - rewrite Htext in Htext'. inversion Htext'. subst text'. eauto.
  - exact (IH _ H Hp Htext).
Qed.

(** X11: one amount with two or more characters after its closing
    quote stops the aggregation: the slice [[1:-2]] leaves the closing
    quote in the text, [float] rejects it, and [sum_payments] returns no
    records at all. *)
Theorem sum_payments_rejects_long_trail SYSTIME (groups : groups_dict) (ref : string)
    (payments : list Payment) (p : Payment) (v trail : string) :
  (ref, payments) ∈ groups -> p ∈ payments ->
  getattr p "amount" = Ok (quoted v +:+ trail) ->
  2 <= String.length trail ->
  Float.of_string (py_slice 1 (-2) (quoted v +:+ trail)) = Raise ValueError /\
  forall summed_payments, sum_payments SYSTIME groups <> Ok summed_payments.
Proof.
  intros Hgroup Hp Hamount Htrail.
  pose proof (of_string_has_quote _ (py_slice_quoted_long_trail v trail Htrail)) as Hraise.
  split; [exact Hraise|].
  intros summed_payments Hsum. apply mapM_Ok_inv in Hsum.
  apply list_elem_of_lookup in Hgroup as [i Hi].
  destruct (Forall2_lookup_l _ _ _ _ _ Hsum Hi) as (out & _ & Hout). cbn [snd] in Hout.
  apply sum_group_Ok_inv in Hout as (total & first & v1 & v2 & v3 & v4 & v5 & v6 & v7
                                      & v8 & v9 & v10 & Htotal & _).
  destruct (sum_amounts_Ok_parses _ _ _ _ _ Htotal Hp Hamount) as [amount Hparse].
  rewrite Hraise in Hparse. discriminate.
Qed.

(** ** Lines of a text *)

Lemma splitlines_nil (s : string) : splitlines s = [] -> s = EmptyString.
Proof.
  induction s as [|c s IH]; [reflexivity|]. cbn [splitlines]. intros H. exfalso.
  destruct (is_linebreak c).
  - destruct s as [|c' s']; [discriminate|].
    destruct (Ascii.eqb c "013" && Ascii.eqb c' "010"); [|discriminate].
    specialize (IH H). discriminate.
  - destruct (splitlines s); discriminate.
Qed.

Lemma splitlines_line (line rest : string) :
  no_linebreak line = true ->
  splitlines (line +:+ newline +:+ rest) = line :: splitlines rest.
Proof.
  induction line as [|c line IH]; intros Hline.
  - rewrite append_nil_l. unfold newline. rewrite append_cons, append_nil_l.
    cbn [splitlines]. destruct rest; reflexivity.
  - cbn [no_linebreak] in Hline. apply andb_true_iff in Hline as [Hc Hline].
    apply negb_true_iff in Hc.
    rewrite append_cons. cbn [splitlines]. rewrite Hc, (IH Hline). reflexivity.
Qed.

Lemma splitlines_no_linebreak (s : string) :
  Forall (fun line => no_linebreak line = true) (splitlines s).
Proof.
  induction s as [|c s IH]; [constructor|]. cbn [splitlines].
  destruct (is_linebreak c) eqn:Hc.
  - destruct s as [|c' s']; [repeat constructor|].
    destruct (Ascii.eqb c "013" && Ascii.eqb c' "010"); [exact IH|].
    constructor; [reflexivity|exact IH].
  - destruct (splitlines s) as [|line rest].
    + repeat constructor. cbn [no_linebreak]. rewrite Hc. reflexivity.
    + apply Forall_cons in IH as [Hline Hrest]. constructor; [|exact Hrest].
      cbn [no_linebreak]. rewrite Hc, Hline. reflexivity.
Qed.

Lemma splitlines_cons (c : ascii) (s : string) :
  splitlines (String c s)
  = if is_linebreak c then
      match s with
      | String c' _ =>
          if Ascii.eqb c "013" && Ascii.eqb c' "010" then splitlines s
          else EmptyString :: splitlines s
      | EmptyString => EmptyString :: splitlines s
      end
    else
      match splitlines s with
      | [] => [String c EmptyString]
      | line :: rest' => String c line :: rest'
      end.
Proof. reflexivity. Qed.

Lemma splitlines_app (s t : string) :
  ends_lines s = true -> splitlines (s +:+ t) = (splitlines s ++ splitlines t)%list.
Proof.
  induction s as [|c s IH]; intros Hs; [rewrite append_nil_l; reflexivity|].
  destruct s as [|c' s'].
  - cbn [ends_lines] in Hs. apply Ascii.eqb_eq in Hs. subst c.
    rewrite append_cons, append_nil_l. cbn [splitlines]. destruct t; reflexivity.
  - assert (Hs' : ends_lines (String c' s') = true) by exact Hs.
    specialize (IH Hs'). rewrite append_cons.
    rewrite (splitlines_cons c (String c' s' +:+ t)), (splitlines_cons c (String c' s')).
    rewrite IH, append_cons.
    destruct (is_linebreak c).
    + destruct (Ascii.eqb c "013" && Ascii.eqb c' "010"); reflexivity.
    + destruct (splitlines (String c' s')) as [|line lines] eqn:Hlines; [|reflexivity].
      apply splitlines_nil in Hlines. discriminate.
Qed.

Lemma ends_lines_app (s t : string) :
  ends_lines (s +:+ t +:+ newline) = true.
Proof.
  assert (Ht : forall t, ends_lines (t +:+ newline) = true).
  { clear. induction t as [|c t IH]; [reflexivity|].
    rewrite append_cons. cbn [ends_lines]. rewrite IH.
    destruct (t +:+ newline) eqn:E; [|reflexivity].
    destruct t; discriminate. }
  rewrite <- append_assoc. apply Ht.
Qed.

(** ** Reader *)

(** X12: [read_file] fails only when the file is missing; the lines it
    returns hold no line break, it returns no line exactly for the empty
    file, and a text made of lines that each end with a line feed is
    read back as those lines. *)
Theorem read_file_lines (fs : gmap string string) (filepath : string) :
  (read_file fs filepath = Raise FileNotFoundError <-> fs !! filepath = None) /\
  (forall lines, read_file fs filepath = Ok lines ->
     Forall (fun line => no_linebreak line = true) lines /\
     (lines = [] <-> fs !! filepath = Some EmptyString)) /\
  (forall lines, Forall (fun line => no_linebreak line = true) lines ->
     fs !! filepath
     = Some (fold_right (fun line text => line +:+ newline +:+ text) EmptyString lines) ->
     read_file fs filepath = Ok lines).
Proof.
  unfold read_file. split_and!.
  - destruct (fs !! filepath); split; intros H; (discriminate || reflexivity).
  - intros lines H. destruct (fs !! filepath) as [text|]; [|discriminate].
    inversion H. subst lines. split; [apply splitlines_no_linebreak|].
    split.
    + intros Hnil. apply splitlines_nil in Hnil. subst text. reflexivity.
    + intros E. inversion E. reflexivity.
  - intros lines Hlines ->. f_equal.
    induction Hlines as [|line lines Hline _ IH]; [reflexivity|].
    cbn [fold_right]. rewrite (splitlines_line _ _ Hline), IH. reflexivity.
Qed.

(** ** Writer: errors and effects on the file system *)

Lemma write_payments_Ok_inv WRITETIME f (fs fs' : gmap string string)
    (path backup : string) (summed_payments : list Payment) (success_string : string) :
  write_payments WRITETIME f fs path backup summed_payments = Ok (fs', success_string) ->
  exists original header,
    fs !! path = Some original /\ path <> backup /\
    splitlines original !! 0 = Some header /\
    success_string
    = summary_line WRITETIME (length summed_payments) (length summed_payments) path /\
    fs' = append_file
            (append_file
               (<[replace "\data" "\new" f :=
                    fold_left (fun out payment => out +:+ payment_lines payment)
                      summed_payments (header +:+ newline)]>
                  (<[backup := original]> fs))
               already_checked_log (path +:+ newline))
            payments_log success_string.
Proof.
  unfold write_payments. intros H.
  destruct (fs !! path) as [original|]; [|discriminate].
  destruct (String.eqb path backup) eqn:Heq; [discriminate|].
  apply String.eqb_neq in Heq.
  apply bind_Ok_inv in H as (header & Hheader & H).
  unfold getitem in Hheader.
  destruct (splitlines original !! 0) as [header'|] eqn:Hlines; [|discriminate].
  inversion Hheader. subst header'.
  rewrite count_loop in H. cbn [Nat.add] in H. inversion H.
  exists original, header. split_and!; reflexivity || assumption.
Qed.

(** X13: [write_payments] does not return when the file to copy is
    missing, when the file is empty and so has no header line, or when
    the backup path is the path itself: in each of these cases the call
    raises, whatever the records are. *)
Theorem write_payments_raises WRITETIME f (fs : gmap string string)
    (path backup : string) (summed_payments : list Payment) :
  fs !! path = None \/ fs !! path = Some EmptyString \/ path = backup ->
  exists e, write_payments WRITETIME f fs path backup summed_payments = Raise e.
Proof.
  intros H. unfold write_payments.
  destruct (fs !! path) as [original|] eqn:Hpath; [|eauto].
  destruct (String.eqb path backup) eqn:Heq; [eauto|].
  apply String.eqb_neq in Heq.
  destruct H as [H|[H|H]]; [discriminate| |contradiction].
  inversion H. subst original. eauto.
Qed.

Lemma write_payments_unwritten WRITETIME f (fs fs' : gmap string string)
    (path backup : string) (summed_payments : list Payment) (success_string : string)
    (other : string) :
  write_payments WRITETIME f fs path backup summed_payments = Ok (fs', success_string) ->
  other ∉ [replace "\data" "\new" f; already_checked_log; payments_log] ->
  fs' !! other = if decide (other = backup) then fs !! path else fs !! other.
Proof.
  intros H Hnot.
  apply write_payments_Ok_inv in H as (original & header & Hpath & Hne & _ & _ & ->).
  apply not_elem_of_cons in Hnot as [H1 Hnot].
  apply not_elem_of_cons in Hnot as [H2 Hnot].
  apply not_elem_of_cons in Hnot as [H3 _].
  unfold append_file. rewrite !lookup_insert_ne by congruence.
  destruct (decide (other = backup)) as [->|Hb].
  - rewrite lookup_insert_eq, Hpath. reflexivity.
  - apply lookup_insert_ne. congruence.
Qed.

(** X14: a successful [write_payments] changes four files at most: the
    backup, the output file, the ledger of checked files and the log.
    Every other file is as before, the file itself included, and the
    backup holds what the file held. *)
Theorem write_payments_frame WRITETIME f (fs fs' : gmap string string)
    (path backup : string) (summed_payments : list Payment) (success_string : string) :
  write_payments WRITETIME f fs path backup summed_payments = Ok (fs', success_string) ->
  let written := [replace "\data" "\new" f; already_checked_log; payments_log] in
  (forall other, other <> backup -> other ∉ written -> fs' !! other = fs !! other) /\
  (path ∉ written -> fs' !! path = fs !! path) /\
  (backup ∉ written -> fs' !! backup = fs !! path).
Proof.
  intros H written. split_and!.
  - intros other Hb Hnot. rewrite (write_payments_unwritten _ _ _ _ _ _ _ _ _ H Hnot).
    apply decide_False. exact Hb.
  - intros Hnot. rewrite (write_payments_unwritten _ _ _ _ _ _ _ _ _ H Hnot).
    apply write_payments_Ok_inv in H as (original & header & _ & Hne & _).
    apply decide_False. exact Hne.
  - intros Hnot. rewrite (write_payments_unwritten _ _ _ _ _ _ _ _ _ H Hnot).
    apply decide_True. reflexivity.
Qed.

Lemma write_payments_ledger WRITETIME f (fs fs' : gmap string string)
    (path backup : string) (summed_payments : list Payment) (success_string : string) :
  write_payments WRITETIME f fs path backup summed_payments = Ok (fs', success_string) ->
  backup <> already_checked_log ->
  replace "\data" "\new" f <> already_checked_log ->
  fs' !! already_checked_log
  = Some (default EmptyString (fs !! already_checked_log) +:+ path +:+ newline).
Proof.
  intros H Hb Ht.
  apply write_payments_Ok_inv in H as (original & header & _ & _ & _ & _ & ->).
  unfold append_file at 1. rewrite lookup_insert_ne by discriminate.
  unfold append_file. rewrite lookup_insert_eq. rewrite !lookup_insert_ne by congruence.
  reflexivity.
Qed.

(** X15: a successful [write_payments] adds one line to each of the two
    logs and keeps what they held: the ledger of checked files gains the
    path, the log gains the summary line that is returned. A log that is
    missing is created. After the call the ledger ends with a line feed. *)
Theorem write_payments_appends_to_logs WRITETIME f (fs fs' : gmap string string)
    (path backup : string) (summed_payments : list Payment) (success_string : string) :
  write_payments WRITETIME f fs path backup summed_payments = Ok (fs', success_string) ->
  backup ∉ [already_checked_log; payments_log] ->
  replace "\data" "\new" f ∉ [already_checked_log; payments_log] ->
  exists ledger,
    fs' !! already_checked_log = Some ledger /\
    ledger = default EmptyString (fs !! already_checked_log) +:+ path +:+ newline /\
    ends_lines ledger = true /\
    fs' !! payments_log
    = Some (default EmptyString (fs !! payments_log) +:+ success_string).
Proof.
  intros H Hb Ht.
  apply not_elem_of_cons in Hb as [Hb1 Hb]. apply not_elem_of_cons in Hb as [Hb2 _].
  apply not_elem_of_cons in Ht as [Ht1 Ht]. apply not_elem_of_cons in Ht as [Ht2 _].
  eexists. split_and!.
  - exact (write_payments_ledger _ _ _ _ _ _ _ _ H Hb1 Ht1).
  - reflexivity.
  - apply ends_lines_app.
  - apply write_payments_Ok_inv in H as (original & header & _ & _ & _ & _ & ->).
    unfold append_file at 1. rewrite lookup_insert_eq. f_equal. f_equal.
    unfold append_file. rewrite !lookup_insert_ne by (congruence || discriminate).
    reflexivity.
Qed.

(** ** Writer and parser: the output file read back *)

Lemma write_payments_body (header : string) (records : list Payment) :
  Forall (fun p => p.*1 = field_order) records ->
  fold_left (fun out payment => out +:+ payment_lines payment) records (header +:+ newline)
  = file_text header records.
Proof.
  intros Hkeys. unfold file_text. rewrite fold_left_append, append_assoc. f_equal. f_equal.
  induction Hkeys as [|p ps Hp _ IH]; [reflexivity|].
  cbn [fold_right]. rewrite IH, (payment_lines_record_text p Hp). reflexivity.
Qed.

Lemma join_lines_acc (lines : list string) (acc : string) :
  fold_right (fun line text => line +:+ newline +:+ text) acc lines
  = fold_right (fun line text => line +:+ newline +:+ text) EmptyString lines +:+ acc.
Proof.
  induction lines as [|line lines IH]; cbn [fold_right]; [rewrite append_nil_l; reflexivity|].
  rewrite IH, !append_assoc. reflexivity.
Qed.

Lemma file_text_lines (header : string) (records : list Payment) :
  file_text header records
  = fold_right (fun line text => line +:+ newline +:+ text) EmptyString
      (file_lines header records).
Proof.
  unfold file_text, file_lines. cbn [fold_right]. f_equal. f_equal.
  induction records as [|p records IH]; [reflexivity|].
  rewrite fmap_cons. cbn [fold_right concat]. rewrite fold_right_app, <- IH.
  rewrite join_lines_acc. reflexivity.
Qed.

Lemma lookup_attr_value (key value : string) (p : Payment) :
  lookup_attr key p = Some value -> value ∈ p.*2.
Proof.
  induction p as [|[k v] p IH]; cbn [lookup_attr]; [discriminate|].
  rewrite fmap_cons. cbn [snd]. destruct (String.eqb k key).
  - intros H. inversion H. apply elem_of_cons. left. reflexivity.
  - intros H. apply elem_of_cons. right. exact (IH H).
Qed.

Lemma record_lines_no_linebreak (p : Payment) :
  one_line_fields p -> Forall (fun line => no_linebreak line = true) (record_lines p).
Proof.
  intros Hp. unfold record_lines. apply Forall_fmap, Forall_forall. intros key _.
  cbn. destruct (lookup_attr key p) as [value|] eqn:Hv; [|reflexivity].
  cbn [default]. unfold one_line_fields in Hp. rewrite Forall_forall in Hp.
  apply Hp. exact (lookup_attr_value key value p Hv).
Qed.

Lemma file_lines_no_linebreak (header : string) (records : list Payment) :
  no_linebreak header = true -> Forall one_line_fields records ->
  Forall (fun line => no_linebreak line = true) (file_lines header records).
Proof.
  intros Hh Hrecords. unfold file_lines. constructor; [exact Hh|].
  induction Hrecords as [|p records Hp _ IH]; [constructor|].
  rewrite fmap_cons. cbn [concat]. apply Forall_app. split; [|exact IH].
  exact (record_lines_no_linebreak p Hp).
Qed.

Lemma splitlines_join (lines : list string) :
  Forall (fun line => no_linebreak line = true) lines ->
  splitlines (fold_right (fun line text => line +:+ newline +:+ text) EmptyString lines)
  = lines.
Proof.
  induction 1 as [|line lines Hline _ IH]; [reflexivity|].
  cbn [fold_right]. rewrite (splitlines_line _ _ Hline), IH. reflexivity.
Qed.

(** X16: the file that a successful [write_payments] writes is read
    back by [read_file] as the header line of the original file followed
    by the 29 fields of every record, in the canonical order, when the
    records have the canonical attributes and no field holds a line break. *)
Theorem write_payments_then_read_file WRITETIME f (fs fs' : gmap string string)
    (path backup : string) (summed_payments : list Payment) (success_string : string) :
  write_payments WRITETIME f fs path backup summed_payments = Ok (fs', success_string) ->
  replace "\data" "\new" f ∉ [already_checked_log; payments_log] ->
  Forall (fun p => p.*1 = field_order) summed_payments ->
  Forall one_line_fields summed_payments ->
  exists header rest,
    read_file fs path = Ok (header :: rest) /\
    read_file fs' (replace "\data" "\new" f) = Ok (file_lines header summed_payments).
Proof.
  intros H Ht Hkeys Hlines.
  apply not_elem_of_cons in Ht as [Ht1 Ht]. apply not_elem_of_cons in Ht as [Ht2 _].
  apply write_payments_Ok_inv in H as (original & header & Hpath & _ & Hheader & _ & ->).
  destruct (splitlines original) as [|header' rest] eqn:Hsplit; [discriminate|].
  inversion Hheader. subst header'.
  exists header, rest. unfold read_file. rewrite Hpath, Hsplit. split; [reflexivity|].
  unfold append_file. rewrite !lookup_insert_ne by congruence.
  rewrite lookup_insert_eq, (write_payments_body header _ Hkeys), file_text_lines.
  rewrite splitlines_join; [reflexivity|].
  apply file_lines_no_linebreak; [|exact Hlines].
  pose proof (splitlines_no_linebreak original) as Hall. rewrite Hsplit in Hall.
  apply Forall_cons in Hall as [Hh _]. exact Hh.
Qed.

Lemma record_lines_length (p : Payment) : length (record_lines p) = 29.
Proof. unfold record_lines. rewrite length_fmap. reflexivity. Qed.

Lemma file_lines_length (header : string) (records : list Payment) :
  length (file_lines header records) = 1 + 29 * length records.
Proof.
  unfold file_lines. cbn [length]. f_equal.
  induction records as [|p records IH]; [reflexivity|].
  rewrite fmap_cons. cbn [concat length]. rewrite length_app, record_lines_length, IH. lia.
Qed.

Lemma file_lines_lookup (header : string) (records : list Payment) (b k : nat) (p : Payment) :
  records !! b = Some p -> k < 29 ->
  file_lines header records !! (1 + 29 * (0 + b) + k) = record_lines p !! k.
Proof.
  intros Hb Hk. unfold file_lines.
  replace (1 + 29 * (0 + b) + k) with (S (29 * b + k)) by lia. cbn [lookup list_lookup].
  change (concat (record_lines <$> records) !! (29 * b + k) = record_lines p !! k).
  revert b Hb. induction records as [|q records IH]; intros b Hb; [inversion Hb|].
  rewrite fmap_cons. cbn [concat]. destruct b as [|b].
  - inversion Hb. subst q. replace (29 * 0 + k) with k by lia.
    apply lookup_app_l. rewrite record_lines_length. exact Hk.
  - rewrite lookup_app_r by (rewrite record_lines_length; lia).
    rewrite record_lines_length.
    replace (29 * S b + k - 29) with (29 * b + k) by lia. exact (IH b Hb).
Qed.

Lemma lookup_attr_is_Some (key : string) (p : Payment) :
  key ∈ p.*1 -> is_Some (lookup_attr key p).
Proof.
  induction p as [|[k v] p IH]; [intros H; inversion H|].
  rewrite fmap_cons. cbn [fst lookup_attr]. intros H.
  destruct (String.eqb k key) eqn:Hk; [eexists; reflexivity|].
  apply String.eqb_neq in Hk. apply elem_of_cons in H as [->|H]; [congruence|exact (IH H)].
Qed.

Lemma record_lines_getattr (p : Payment) (k : nat) (key : string) :
  p.*1 = field_order -> field_order !! k = Some key ->
  getitem (record_lines p) k = getattr p key.
Proof.
  intros Hkeys Hk. unfold getitem, record_lines, getattr.
  rewrite list_lookup_fmap, Hk. cbn [fmap option_fmap option_map].
  destruct (lookup_attr_is_Some key p) as [value Hv].
  - rewrite Hkeys. eapply list_elem_of_lookup_2, Hk.
  - rewrite Hv. reflexivity.
Qed.

Lemma file_lines_getattr (header : string) (records : list Payment) (b k : nat)
    (p : Payment) (key : string) :
  records !! b = Some p -> p.*1 = field_order -> field_order !! k = Some key ->
  getitem (file_lines header records) (1 + 29 * (0 + b) + k) = getattr p key.
Proof.
  intros Hb Hkeys Hk. rewrite <- (record_lines_getattr p k key Hkeys Hk).
  unfold getitem. rewrite (file_lines_lookup header records b k p Hb); [reflexivity|].
  apply lookup_lt_Some in Hk. exact Hk.
Qed.

Lemma create_payments_file_lines SYSTIME (header : string) (records : list Payment) :
  Forall (fun p => p.*1 = field_order) records ->
  exists payments,
    create_payments SYSTIME (file_lines header records) = Ok payments /\
    Forall2 (reparsed SYSTIME) records payments.
Proof.
  intros Hkeys. unfold create_payments. rewrite file_lines_length.
  replace (1 + 29 * length records) with (1 + 29 * length records + 0) by lia.
  rewrite py_range_blocks by lia. rewrite decide_True by reflexivity.
  destruct (create_payment_blocks SYSTIME (file_lines header records) 0 (length records))
    as (payments & Hpayments & Hlen & Hblocks).
  { rewrite file_lines_length. lia. }
  exists payments. split; [exact Hpayments|].
  apply Forall2_same_length_lookup_2; [congruence|].
  intros b p p' Hp Hp'.
  destruct (Hblocks b) as (p'' & Hp'' & Hblock); [eapply lookup_lt_Some, Hp|].
  rewrite Hp' in Hp''. inversion Hp''. subst p''.
  assert (Hk : p.*1 = field_order).
  { rewrite Forall_forall in Hkeys. apply Hkeys. eapply list_elem_of_lookup_2, Hp. }
  destruct Hblock as (H1 & H2 & H6 & H7 & H10 & H15 & H16 & H17 & H17' & H18 & Hrest).
  rewrite (file_lines_getattr header records b 1 p "batch_run_id" Hp Hk eq_refl) in H1.
  rewrite (file_lines_getattr header records b 2 p "posting_ref" Hp Hk eq_refl) in H2.
  rewrite (file_lines_getattr header records b 6 p "payee_address" Hp Hk eq_refl) in H6.
  rewrite (file_lines_getattr header records b 7 p "claim_ref" Hp Hk eq_refl) in H7.
  rewrite (file_lines_getattr header records b 10 p "amount" Hp Hk eq_refl) in H10.
  rewrite (file_lines_getattr header records b 15 p "sort_code" Hp Hk eq_refl) in H15.
  rewrite (file_lines_getattr header records b 16 p "bank_account" Hp Hk eq_refl) in H16.
  rewrite (file_lines_getattr header records b 17 p "bank_account_name" Hp Hk eq_refl)
    in H17, H17'.
  rewrite (file_lines_getattr header records b 18 p "building_society_num" Hp Hk eq_refl)
    in H18.
  split_and!; [|exact H17'|exact Hrest].
  intros key Hkey.
  repeat (apply elem_of_cons in Hkey as [->|Hkey]; [assumption|]). inversion Hkey.
Qed.

(** X17: the parser run over the file that [write_payments] wrote
    returns one record for each record written. It agrees with the
    written record on the nine fields that the parser reads at their own
    offsets; its payee name is the written bank account name; every other
    field, the account reference among them, is back to its default. *)
Theorem write_payments_then_create_payments WRITETIME f (fs fs' : gmap string string)
    (path backup : string) (summed_payments : list Payment) (success_string : string)
    (SYSTIME : string) :
  write_payments WRITETIME f fs path backup summed_payments = Ok (fs', success_string) ->
  replace "\data" "\new" f ∉ [already_checked_log; payments_log] ->
  Forall (fun p => p.*1 = field_order) summed_payments ->
  Forall one_line_fields summed_payments ->
  exists payments,
    (lines ← read_file fs' (replace "\data" "\new" f); create_payments SYSTIME lines)
    = Ok payments /\
    Forall2 (reparsed SYSTIME) summed_payments payments.
Proof.
  intros H Ht Hkeys Hlines.
  apply not_elem_of_cons in Ht as [Ht1 Ht]. apply not_elem_of_cons in Ht as [Ht2 _].
  apply write_payments_Ok_inv in H as (original & header & Hpath & _ & Hheader & _ & ->).
  destruct (create_payments_file_lines SYSTIME header summed_payments Hkeys)
    as (payments & Hpayments & Hrel).
  exists payments. split; [|exact Hrel].
  unfold read_file, append_file. rewrite !lookup_insert_ne by congruence.
  rewrite lookup_insert_eq, (write_payments_body header _ Hkeys), file_text_lines.
  rewrite splitlines_join.
  - exact Hpayments.
  - apply file_lines_no_linebreak; [|exact Hlines].
    pose proof (splitlines_no_linebreak original) as Hall.
    destruct (splitlines original) as [|header' rest]; [discriminate|].
    inversion Hheader. subst header'. apply Forall_cons in Hall as [Hh _]. exact Hh.
Qed.

(** ** File discovery *)

Lemma startswith_app (prefix s : string) :
  startswith prefix s = true <-> exists rest, s = prefix +:+ rest.
Proof.
  unfold startswith. revert s. induction prefix as [|c prefix IH]; intros s.
  - split; [intros _; exists s; reflexivity|intros _; destruct s; reflexivity].
  - destruct s as [|c' s]; cbn [String.prefix].
    + split; [discriminate|]. intros [rest H]. rewrite append_cons in H. discriminate.
    + destruct (ascii_dec c c') as [->|Hne].
      * rewrite IH. split; intros [rest H]; exists rest.
        -- rewrite append_cons, H. reflexivity.
        -- rewrite append_cons in H. inversion H. reflexivity.
      * split; [discriminate|]. intros [rest H]. rewrite append_cons in H.
        inversion H. congruence.
Qed.

Lemma substring_all (s : string) : substring 0 (String.length s) s = s.
Proof. induction s as [|c s IH]; [reflexivity|]. cbn. rewrite IH. reflexivity. Qed.

Lemma substring_drop (n : nat) (s suffix : string) :
  n + String.length suffix = String.length s ->
  substring n (String.length suffix) s = suffix ->
  exists front, s = front +:+ suffix.
Proof.
  revert s. induction n as [|n IH]; intros s Hlen Hsub.
  - exists EmptyString. rewrite append_nil_l. cbn in Hlen. rewrite Hlen, substring_all in Hsub.
    exact Hsub.
  - destruct s as [|c s]; [discriminate|]. cbn in Hlen, Hsub.
    destruct (IH s) as [front Hfront]; [lia|exact Hsub|].
    exists (String c front). rewrite append_cons, <- Hfront. reflexivity.
Qed.

Lemma endswith_app (suffix s : string) :
  endswith suffix s = true <-> exists front, s = front +:+ suffix.
Proof.
  unfold endswith. split.
  - intros H. apply andb_true_iff in H as [Hlen Hsub].
    apply Nat.leb_le in Hlen. apply String.eqb_eq in Hsub.
    apply (substring_drop (String.length s - String.length suffix)); [lia|exact Hsub].
  - intros [front ->]. rewrite length_append. apply andb_true_iff. split.
    + apply Nat.leb_le. lia.
    + apply String.eqb_eq.
      replace (String.length front + String.length suffix - String.length suffix)
        with (String.length front) by lia.
      clear. induction front as [|c front IH].
      * rewrite append_nil_l. apply substring_all.
      * rewrite append_cons. cbn. destruct suffix; exact IH.
Qed.

Lemma is_eligible_cases (modified_after_delta : string -> result bool)
    (checked : list string) (entry : walk_entry) (after : bool) :
  name_matches entry = true ->
  modified_after_delta (walk_path entry) = Ok after ->
  is_eligible modified_after_delta checked entry
  = after && negb (bool_decide (walk_path entry ∈ checked)).
Proof.
  intros Hname Hafter. unfold is_eligible. rewrite Hname, Hafter. cbn [andb].
  destruct after; [rewrite bool_decide_eq_true_2 by reflexivity|
                   rewrite bool_decide_eq_false_2 by discriminate]; reflexivity.
Qed.

Lemma eligible_files_returns (modified_after_delta : string -> result bool)
    (checked files_list : list string) (walk : list walk_entry) :
  age_tests_return modified_after_delta walk ->
  eligible_files modified_after_delta checked files_list walk
  = Ok (files_list
        ++ (walk_path <$> filter (fun entry =>
                                    is_eligible modified_after_delta checked entry = true)
                            walk))%list.
Proof.
  unfold age_tests_return. intros Hwalk. revert files_list.
  induction Hwalk as [|entry walk Hentry _ IH]; intros files_list.
  - cbn. rewrite app_nil_r. reflexivity.
  - cbn [eligible_files]. rewrite filter_cons.
    fold (name_matches entry). destruct (name_matches entry) eqn:Hname.
    + destruct (Hentry eq_refl) as [after Hafter].
      rewrite (is_eligible_cases _ checked entry after Hname Hafter), Hafter.
      cbn [mbind result_bind].
      destruct (after && negb _); rewrite IH.
      * rewrite decide_True by reflexivity. rewrite fmap_cons, <- app_assoc. reflexivity.
      * rewrite decide_False by discriminate. reflexivity.
    + assert (Hel : is_eligible modified_after_delta checked entry = false)
        by (unfold is_eligible; rewrite Hname; reflexivity).
      rewrite IH, Hel, decide_False by discriminate. reflexivity.
Qed.

Lemma eligible_files_Ok_inv (modified_after_delta : string -> result bool)
    (checked files_list files_list' : list string) (walk : list walk_entry) :
  eligible_files modified_after_delta checked files_list walk = Ok files_list' ->
  age_tests_return modified_after_delta walk.
Proof.
  unfold age_tests_return. revert files_list.
  induction walk as [|entry walk IH]; intros files_list H; [constructor|].
  cbn [eligible_files] in H. fold (name_matches entry) in H.
  destruct (name_matches entry) eqn:Hname.
  - destruct (modified_after_delta (walk_path entry)) as [after|e] eqn:Hafter;
      [|discriminate].
    cbn [mbind result_bind] in H. constructor; [eauto|].
    destruct (after && negb _); exact (IH _ H).
  - constructor; [intros Hn; congruence|exact (IH _ H)].
Qed.

Lemma eligible_files_Raise (modified_after_delta : string -> result bool)
    (checked files_list : list string) (walk : list walk_entry) (e : exn) :
  eligible_files modified_after_delta checked files_list walk = Raise e <->
  age_test_raises modified_after_delta walk e.
Proof.
  unfold age_test_raises, age_tests_return. split.
  - revert files_list. induction walk as [|entry walk IH]; intros files_list H;
      [discriminate|].
    cbn [eligible_files] in H. fold (name_matches entry) in H.
    destruct (name_matches entry) eqn:Hname.
    + destruct (modified_after_delta (walk_path entry)) as [after|e'] eqn:Hafter.
      * cbn [mbind result_bind] in H.
        assert (Hrest : exists files_list',
                  eligible_files modified_after_delta checked files_list' walk = Raise e)
          by (destruct (after && negb _); eauto).
        destruct Hrest as [files_list' Hrest].
        destruct (IH _ Hrest) as (before & entry' & rest & -> & Hbefore & Hname' & Hraise).
        exists (entry :: before), entry', rest.
        split_and!; [reflexivity| |exact Hname'|exact Hraise].
        constructor; [eauto|exact Hbefore].
      * cbn in H. inversion H. subst e'.
        exists [], entry, walk. split_and!; [reflexivity|constructor|exact Hname|exact Hafter].
    + destruct (IH _ H) as (before & entry' & rest & -> & Hbefore & Hname' & Hraise).
      exists (entry :: before), entry', rest.
      split_and!; [reflexivity| |exact Hname'|exact Hraise].
      constructor; [intros Hn; congruence|exact Hbefore].
  - intros (before & entry & rest & -> & Hbefore & Hname & Hraise). revert files_list.
    induction Hbefore as [|first before Hfirst _ IH]; intros files_list.
    + cbn [app eligible_files]. fold (name_matches entry). rewrite Hname, Hraise.
      reflexivity.
    + cbn [app eligible_files]. fold (name_matches first).
      destruct (name_matches first) eqn:Hn; [|apply IH].
      destruct (Hfirst eq_refl) as [after Hafter]. rewrite Hafter.
      cbn [mbind result_bind]. destruct (after && negb _); apply IH.
Qed.

Lemma max_from_first_greatest (st_mtime : string -> Q) (l before after : list string)
    (best : string) :
  Forall (fun item => (st_mtime item < st_mtime best)%Q) before ->
  Forall (fun item => (st_mtime item <= st_mtime best)%Q) after ->
  exists before' after',
    (before ++ best :: after ++ l)%list
    = (before' ++ max_from st_mtime best l :: after')%list /\
    Forall (fun item => (st_mtime item < st_mtime (max_from st_mtime best l))%Q) before' /\
    Forall (fun item => (st_mtime item <= st_mtime (max_from st_mtime best l))%Q) after'.
Proof.
  revert before after best. induction l as [|item l IH]; intros before after best Hb Ha.
  - exists before, after. rewrite app_nil_r. split_and!; [reflexivity|exact Hb|exact Ha].
  - cbn [max_from]. destruct (Qle_bool (st_mtime item) (st_mtime best)) eqn:Hle.
    + apply Qle_bool_iff in Hle.
      destruct (IH before (after ++ [item])%list best Hb) as (b' & a' & E & Hb' & Ha').
      { apply Forall_app. split; [exact Ha|]. repeat constructor. exact Hle. }
      exists b', a'. rewrite <- E, <- !app_assoc. split_and!; [reflexivity|exact Hb'|exact Ha'].
    + assert (Hlt : (st_mtime best < st_mtime item)%Q).
      { apply Qnot_le_lt. intros H. apply Qle_bool_iff in H. congruence. }
      destruct (IH (before ++ best :: after)%list [] item) as (b' & a' & E & Hb' & Ha').
      * apply Forall_app. split.
        -- eapply Forall_impl; [exact Hb|]. intros x Hx. cbn in Hx.
           exact (Qlt_trans _ _ _ Hx Hlt).
        -- constructor; [exact Hlt|].
           eapply Forall_impl; [exact Ha|]. intros x Hx. cbn in Hx.
           exact (Qle_lt_trans _ _ _ Hx Hlt).
      * constructor.
      * exists b', a'. rewrite <- E, <- !app_assoc. split_and!; [reflexivity|exact Hb'|exact Ha'].
Qed.

Lemma py_max_first_greatest (st_mtime : string -> Q) (l : list string) (item : string) :
  py_max st_mtime l = Ok item ->
  exists before after,
    l = (before ++ item :: after)%list /\
    Forall (fun other => (st_mtime other < st_mtime item)%Q) before /\
    Forall (fun other => (st_mtime other <= st_mtime item)%Q) after.
Proof.
  destruct l as [|first l]; [discriminate|]. cbn [py_max]. intros H. inversion H.
  destruct (max_from_first_greatest st_mtime l [] [] first) as (b & a & E & Hb & Ha);
    [constructor..|].
  exists b, a. split_and!; [exact E|exact Hb|exact Ha].
Qed.

Lemma get_file_name_Ok_files (st_mtime : string -> Q)
    (modified_after_delta : string -> result bool) (fs : gmap string string)
    (walk : list walk_entry) (path : string) :
  get_file_name st_mtime modified_after_delta fs walk = Ok path ->
  exists ledger,
    fs !! already_checked_log = Some ledger /\
    age_tests_return modified_after_delta walk /\
    py_max st_mtime
      (walk_path <$> filter (fun entry =>
                               is_eligible modified_after_delta (splitlines ledger) entry
                               = true) walk) = Ok path.
Proof.
  unfold get_file_name. intros H.
  destruct (fs !! already_checked_log) as [ledger|]; [|discriminate].
  apply bind_Ok_inv in H as (files_list & Hfiles & H).
  pose proof (eligible_files_Ok_inv _ _ _ _ _ Hfiles) as Hreturn.
  rewrite (eligible_files_returns _ _ _ _ Hreturn) in Hfiles. inversion Hfiles. subst.
  exists ledger. split_and!; [reflexivity|exact Hreturn|exact H].
Qed.

(** X18: the path that [get_file_name] returns is the path of a file
    of the walk whose name starts with [bpy331_] and ends with [.dat],
    whose age test returned true and that is no line of the ledger of
    checked files; no file of the walk that passes the same tests was
    modified later, and those met earlier in the walk were modified
    strictly before it. *)
Theorem get_file_name_most_recent (st_mtime : string -> Q)
    (modified_after_delta : string -> result bool) (fs : gmap string string)
    (walk : list walk_entry) (path : string) :
  get_file_name st_mtime modified_after_delta fs walk = Ok path ->
  exists ledger before entry after,
    fs !! already_checked_log = Some ledger /\
    filter (fun entry => is_eligible modified_after_delta (splitlines ledger) entry = true)
      walk = (before ++ entry :: after)%list /\
    walk_path entry = path /\
    (exists middle, walk_file entry = "bpy331_" +:+ middle) /\
    (exists front, walk_file entry = front +:+ ".dat") /\
    modified_after_delta path = Ok true /\
    (path ∉ splitlines ledger) /\
    Forall (fun other => (st_mtime (walk_path other) < st_mtime path)%Q) before /\
    Forall (fun other => (st_mtime (walk_path other) <= st_mtime path)%Q) after.
Proof.
  intros H. apply get_file_name_Ok_files in H as (ledger & Hledger & _ & H).
  apply py_max_first_greatest in H as (b & a & E & Hb & Ha).
  apply fmap_app_inv in E as (before & rest & -> & Hrest & E).
  symmetry in Hrest. apply fmap_cons_inv in Hrest as (entry & after & -> & -> & ->).
  exists ledger, before, entry, after.
  assert (Hin : entry ∈ filter
            (fun entry => is_eligible modified_after_delta (splitlines ledger) entry = true)
            walk).
  { rewrite E. apply elem_of_app. right. apply elem_of_cons. left. reflexivity. }
  apply list_elem_of_filter in Hin as [Hel _]. unfold is_eligible in Hel.
  apply andb_true_iff in Hel as [Hel Hnot]. apply andb_true_iff in Hel as [Hname Hmod].
  unfold name_matches in Hname. apply andb_true_iff in Hname as [Hstart Hend].
  apply startswith_app in Hstart. apply endswith_app in Hend.
  apply bool_decide_eq_true in Hmod.
  apply negb_true_iff, bool_decide_eq_false in Hnot.
  split_and!; try (reflexivity || assumption).
  - exact (proj1 (Forall_fmap _ _ _) Hb).
  - exact (proj1 (Forall_fmap _ _ _) Ha).
Qed.

Lemma get_file_name_Raise (st_mtime : string -> Q)
    (modified_after_delta : string -> result bool) (fs : gmap string string)
    (walk : list walk_entry) (ledger : string) (e : exn) :
  fs !! already_checked_log = Some ledger ->
  get_file_name st_mtime modified_after_delta fs walk = Raise e <->
  age_test_raises modified_after_delta walk e \/
  (age_tests_return modified_after_delta walk /\
   Forall (fun entry => is_eligible modified_after_delta (splitlines ledger) entry = false)
     walk /\
   e = ValueError).
Proof.
  intros Hledger. unfold get_file_name. rewrite Hledger.
  destruct (eligible_files modified_after_delta (splitlines ledger) [] walk)
    as [files_list|e'] eqn:Hfiles.
  - pose proof (eligible_files_Ok_inv _ _ _ _ _ Hfiles) as Hreturn.
    rewrite (eligible_files_returns _ _ _ _ Hreturn) in Hfiles. inversion Hfiles.
    clear Hfiles. cbn [mbind result_bind app].
    destruct (filter _ walk) as [|entry rest] eqn:Hfilter; cbn.
    + split.
      * intros H. inversion H. right. split_and!; [exact Hreturn| |reflexivity].
        apply Forall_forall. intros entry Hentry.
        destruct (is_eligible _ _ entry) eqn:Hel; [|reflexivity].
        assert (Hin : entry ∈ filter
                  (fun entry =>
                     is_eligible modified_after_delta (splitlines ledger) entry = true) walk)
          by (apply list_elem_of_filter; split; assumption).
        rewrite Hfilter in Hin. inversion Hin.
      * intros [Hraise|(_ & _ & ->)]; [|reflexivity].
        apply (eligible_files_Raise _ (splitlines ledger) []) in Hraise.
        rewrite (eligible_files_returns _ _ _ _ Hreturn) in Hraise. discriminate.
    + split; [discriminate|]. intros [Hraise|(_ & Hall & _)].
      * apply (eligible_files_Raise _ (splitlines ledger) []) in Hraise.
        rewrite (eligible_files_returns _ _ _ _ Hreturn) in Hraise. discriminate.
      * exfalso.
        assert (Hin : entry ∈ filter
                  (fun entry =>
                     is_eligible modified_after_delta (splitlines ledger) entry = true) walk)
          by (rewrite Hfilter; apply elem_of_cons; left; reflexivity).
        apply list_elem_of_filter in Hin as [Hel Hin].
        rewrite Forall_forall in Hall. rewrite (Hall entry Hin) in Hel. discriminate.
  - cbn [mbind result_bind]. apply eligible_files_Raise in Hfiles. split.
    + intros H. inversion H. subst e'. left. exact Hfiles.
    + intros [Hraise|(Hreturn & _ & _)].
      * apply (eligible_files_Raise _ (splitlines ledger) []) in Hraise.
        apply (eligible_files_Raise _ (splitlines ledger) []) in Hfiles.
        rewrite Hfiles in Hraise. inversion Hraise. reflexivity.
      * apply (eligible_files_Raise _ (splitlines ledger) []) in Hfiles.
        rewrite (eligible_files_returns _ _ _ _ Hreturn) in Hfiles. discriminate.
Qed.

(** X19: [get_file_name] raises FileNotFoundError when the ledger of
    checked files is missing.  With the ledger there, it raises what the
    first failing age test raises, met on a file whose name matches
    before any later file is looked at, even when a file before it passes
    every test; and it raises ValueError when every age test returns and
    no file of the walk passes the tests. *)
Theorem get_file_name_raises (st_mtime : string -> Q)
    (modified_after_delta : string -> result bool) (fs : gmap string string)
    (walk : list walk_entry) :
  (fs !! already_checked_log = None ->
   get_file_name st_mtime modified_after_delta fs walk = Raise FileNotFoundError) /\
  (forall ledger e,
     fs !! already_checked_log = Some ledger ->
     age_test_raises modified_after_delta walk e ->
     get_file_name st_mtime modified_after_delta fs walk = Raise e) /\
  (forall ledger,
     fs !! already_checked_log = Some ledger ->
     age_tests_return modified_after_delta walk ->
     Forall (fun entry => is_eligible modified_after_delta (splitlines ledger) entry = false)
       walk ->
     get_file_name st_mtime modified_after_delta fs walk = Raise ValueError).
Proof.
  split_and!.
  - intros Hledger. unfold get_file_name. rewrite Hledger. reflexivity.
  - intros ledger e Hledger Hraise.
    apply (get_file_name_Raise st_mtime _ fs walk ledger e Hledger). left. exact Hraise.
  - intros ledger Hledger Hreturn Hall.
    apply (get_file_name_Raise st_mtime _ fs walk ledger ValueError Hledger).
    right. split_and!; [exact Hreturn|exact Hall|reflexivity].
Qed.

Lemma get_file_name_Ok_inv (st_mtime : string -> Q)
    (modified_after_delta : string -> result bool) (fs : gmap string string)
    (walk : list walk_entry) (path : string) :
  get_file_name st_mtime modified_after_delta fs walk = Ok path ->
  exists ledger entry,
    fs !! already_checked_log = Some ledger /\ entry ∈ walk /\ walk_path entry = path /\
    is_eligible modified_after_delta (splitlines ledger) entry = true.
Proof.
  intros H. apply get_file_name_Ok_files in H as (ledger & Hledger & _ & H).
  apply py_max_first_greatest in H as (b & a & E & _ & _).
  assert (Hin : path ∈ walk_path <$> filter
            (fun entry => is_eligible modified_after_delta (splitlines ledger) entry = true)
            walk).
  { rewrite E. apply elem_of_app. right. apply elem_of_cons. left. reflexivity. }
  apply list_elem_of_fmap in Hin as (entry & -> & Hin).
  apply list_elem_of_filter in Hin as [Hel Hin].
  exists ledger, entry. split_and!; reflexivity || assumption.
Qed.

(** ** Writer and discovery *)

Lemma get_file_name_skips_ledger (st_mtime : string -> Q)
    (modified_after_delta : string -> result bool) (fs : gmap string string)
    (walk : list walk_entry) (old path checked : string) :
  fs !! already_checked_log = Some (old +:+ path +:+ newline) ->
  ends_lines old = true -> no_linebreak path = true ->
  checked = path \/ checked ∈ splitlines old ->
  get_file_name st_mtime modified_after_delta fs walk <> Ok checked.
Proof.
  intros Hledger Hends Hpath Hchecked Hget.
  apply get_file_name_Ok_inv in Hget as (ledger & entry & Hl & _ & <- & Hel).
  rewrite Hledger in Hl. inversion Hl. subst ledger.
  unfold is_eligible in Hel. apply andb_true_iff in Hel as [_ Hnot].
  apply negb_true_iff, bool_decide_eq_false in Hnot. apply Hnot.
  rewrite (splitlines_app _ _ Hends).
  replace (path +:+ newline) with (path +:+ newline +:+ EmptyString)
    by (rewrite append_nil_r; reflexivity).
  rewrite (splitlines_line _ _ Hpath). apply elem_of_app.
  destruct Hchecked as [->|Hold]; [right; apply elem_of_cons; left; reflexivity|left; exact Hold].
Qed.

(** X20: a file that [write_payments] has processed is not picked
    again: after a successful call, [get_file_name] returns neither the
    path just written to the ledger nor any path the ledger held before,
    whatever the directory holds then. The ledger must be empty or end
    with a line feed, as [write_payments] leaves it, and the path must
    hold no line break. *)
Theorem write_payments_then_get_file_name WRITETIME f (fs fs' : gmap string string)
    (path backup : string) (summed_payments : list Payment) (success_string : string)
    (st_mtime : string -> Q) (modified_after_delta : string -> result bool)
    (walk : list walk_entry) (checked : string) :
  write_payments WRITETIME f fs path backup summed_payments = Ok (fs', success_string) ->
  backup <> already_checked_log ->
  replace "\data" "\new" f <> already_checked_log ->
  ends_lines (default EmptyString (fs !! already_checked_log)) = true ->
  no_linebreak path = true ->
  checked = path \/ checked ∈ splitlines (default EmptyString (fs !! already_checked_log)) ->
  get_file_name st_mtime modified_after_delta fs' walk <> Ok checked.
Proof.
  intros H Hb Ht Hends Hpath Hchecked.
  pose proof (write_payments_ledger _ _ _ _ _ _ _ _ H Hb Ht) as Hledger.
  exact (get_file_name_skips_ledger st_mtime modified_after_delta fs' walk _ path checked
           Hledger Hends Hpath Hchecked).
Qed.

(** ** From the lines of the file to the summed records *)

Lemma first_seen_length (refs : list string) : length (first_seen refs) <= length refs.
Proof.
  induction refs as [|r refs IH] using rev_ind; [reflexivity|].
  rewrite first_seen_snoc, length_app. cbn [length].
  destruct (bool_decide _); [lia|]. rewrite length_app. cbn [length]. lia.
Qed.

(** X21: when the steps of the main program from parsing to summing
    succeed, there are at most as many output records as blocks in the
    file, and every output record is one of the resolved input records
    with a new amount: it agrees with that record on every field other
    than the amount, the account reference included. *)
Theorem aggregate_outputs (connection : Type)
    (insert_query : connection -> list string -> connection)
    (select_query : connection -> list string -> option string)
    (SYSTIME : string) (conn conn' : connection) (lines : list string)
    (summed_payments : list Payment) :
  aggregate connection insert_query select_query SYSTIME conn lines
  = Ok (conn', summed_payments) ->
  exists payments resolved,
    create_payments SYSTIME lines = Ok payments /\
    query_payments connection insert_query select_query conn payments
    = Ok (conn', resolved) /\
    length summed_payments <= length payments /\
    Forall (fun out =>
              exists first, first ∈ resolved /\
                forall key, key <> "amount" -> getattr out key = getattr first key)
      summed_payments.
Proof.
  unfold aggregate. intros H.
  apply bind_Ok_inv in H as (payments & Hcreate & H).
  apply bind_Ok_inv in H as ([conn1 resolved] & Hquery & H).
  apply bind_Ok_inv in H as (groups & Hgroups & H).
  apply bind_Ok_inv in H as (summed & Hsum & H).
  inversion H. subst conn1 summed.
  exists payments, resolved. split_and!; [exact Hcreate|exact Hquery| |].
  - destruct (sum_payments_lookup _ _ _ Hsum) as [Hlen _]. rewrite Hlen.
    apply group_payments_Ok_inv in Hgroups as (refs & Hrefs & ->).
    unfold groups_by_ref. rewrite length_fmap.
    etrans; [apply first_seen_length|].
    rewrite <- (Forall2_length _ _ _ Hrefs).
    rewrite (query_payments_length _ _ _ _ _ _ _ Hquery). reflexivity.
  - pose proof (query_payments_hold_defaults SYSTIME _ _ _ _ _ _ _ Hquery
                  (create_payments_hold_defaults _ _ _ Hcreate)) as Hdef.
    destruct (sum_payments_lookup _ _ _ Hsum) as [Hlen Hlook].
    apply group_payments_Ok_inv in Hgroups as (refs & Hrefs & ->).
    apply Forall_lookup. intros i out Hout.
    destruct (lookup_lt_is_Some_2 (groups_by_ref resolved refs) i) as [[k ps] Hg].
    { rewrite <- Hlen. eapply lookup_lt_Some, Hout. }
    specialize (Hlook i _ out Hg Hout). cbn [snd] in Hlook.
    assert (Hps : ps = members k resolved).
    { unfold groups_by_ref in Hg. rewrite list_lookup_fmap in Hg.
      destruct (first_seen refs !! i); inversion Hg. reflexivity. }
    destruct ps as [|first rest].
    { apply sum_group_Ok_inv in Hlook as (? & ? & ? & ? & ? & ? & ? & ? & ? & ? & ? & ?
                                          & _ & Hfirst & _). inversion Hfirst. }
    assert (Hin : first ∈ resolved).
    { assert (Hm : first ∈ members k resolved)
        by (rewrite <- Hps; apply elem_of_cons; left; reflexivity).
      unfold members in Hm. apply list_elem_of_filter in Hm as [_ Hm]. exact Hm. }
    exists first. split; [exact Hin|].
    apply (sum_group_keeps_fields SYSTIME (first :: rest) first out Hlook eq_refl).
    rewrite Forall_forall in Hdef. exact (Hdef first Hin).
Qed.

(** ** The main script *)

(** The paths derived from a path under [.\data] start with [.\new] and
    [.\archive]. *)
Lemma replace_under_data (new rest : string) :
  replace "\data" new (".\data" +:+ rest) = "." +:+ new +:+ replace "\data" new rest.
Proof. destruct rest; reflexivity. Qed.

Lemma paths_under_data (f : string) :
  startswith ".\data" f = true ->
  replace "\data" "\new" f <> already_checked_log /\
  replace "\data" "\archive" f <> already_checked_log /\
  f <> replace "\data" "\archive" f /\
  (f ∉ [replace "\data" "\new" f; already_checked_log; payments_log]) /\
  replace "\data" "\archive" f
    ∉ [replace "\data" "\new" f; already_checked_log; payments_log].
Proof.
  intros Hf. apply startswith_app in Hf as [rest ->].
  rewrite !replace_under_data.
  generalize (replace "\data" "\new" rest) (replace "\data" "\archive" rest).
  intros tail tail'. unfold already_checked_log, payments_log.
  split_and!; try discriminate;
    repeat (apply not_elem_of_cons; split; [discriminate|]); apply not_elem_of_nil.
Qed.

Section MainProperties.

Variable connection : Type.
Variable insert_query : connection -> list string -> connection.
Variable select_query : connection -> list string -> option string.
Variables WRITETIME SYSTIME : string.

(** X22: the script exits through [sys.exit(1)] when [get_file_name]
    raises ValueError: with the ledger of checked files there, when the
    first failing age test raises ValueError, or when every age test
    returns and no file of the walk passes the tests.  All it has done
    then is to append the time stamp, as a line, to the log. *)
Theorem main_exits_when_search_fails (st_mtime : string -> Q)
    (modified_after_delta : string -> result bool) (walk : list walk_entry)
    (fs : gmap string string) (conn : connection) (ledger : string) :
  fs !! already_checked_log = Some ledger ->
  age_test_raises modified_after_delta walk ValueError \/
  (age_tests_return modified_after_delta walk /\
   Forall (fun entry => is_eligible modified_after_delta (splitlines ledger) entry = false)
     walk) ->
  main connection insert_query select_query WRITETIME SYSTIME st_mtime
    modified_after_delta walk fs conn
  = SysExit
      (<[payments_log := default EmptyString (fs !! payments_log) +:+ WRITETIME +:+ newline]>
         fs) 1.
Proof.
  intros Hledger Hcases.
  assert (Hget : get_file_name st_mtime modified_after_delta fs walk = Raise ValueError).
  { apply (get_file_name_Raise st_mtime _ fs walk ledger ValueError Hledger).
    destruct Hcases as [H|[Hreturn Hall]]; [left; exact H|].
    right. split_and!; [exact Hreturn|exact Hall|reflexivity]. }
  unfold main. rewrite Hget. reflexivity.
Qed.

(** X23: when the script runs to its end on files found under [.\data],
    the file it processed holds what it held before, the archive path
    derived from its path holds a copy of it, and [get_file_name] does
    not return that file again, whatever the directory holds later. The
    ledger must be empty or end with a line feed, and the paths of the
    walk must hold no line break. *)
Theorem main_completed (st_mtime : string -> Q)
    (modified_after_delta : string -> result bool) (walk : list walk_entry)
    (fs fs' : gmap string string) (conn conn' : connection) :
  main connection insert_query select_query WRITETIME SYSTIME st_mtime
    modified_after_delta walk fs conn = Completed fs' conn' ->
  Forall (fun entry => startswith ".\data" (walk_path entry) = true /\
                       no_linebreak (walk_path entry) = true) walk ->
  ends_lines (default EmptyString (fs !! already_checked_log)) = true ->
  exists f,
    get_file_name st_mtime modified_after_delta fs walk = Ok f /\
    fs' !! f = fs !! f /\
    fs' !! replace "\data" "\archive" f = fs !! f /\
    forall st_mtime' modified_after_delta' walk',
      get_file_name st_mtime' modified_after_delta' fs' walk' <> Ok f.
Proof.
  unfold main. intros H Hwalk Hends.
  destruct (get_file_name st_mtime modified_after_delta fs walk) as [f|e] eqn:Hget;
    [|destruct e; discriminate].
  exists f. split; [reflexivity|].
  destruct (read_file fs f) as [lines|e]; [|discriminate].
  cbn [mbind result_bind] in H.
  destruct (aggregate _ _ _ _ _ _) as [[conn1 summed_payments]|e]; [|discriminate].
  cbn [mbind result_bind] in H.
  destruct (write_payments WRITETIME f fs f _ summed_payments)
    as [[fs1 success_string]|e] eqn:Hwrite; [|discriminate].
  cbn [mbind result_bind] in H. inversion H. subst fs1 conn1.
  destruct (get_file_name_Ok_inv _ _ _ _ _ Hget) as (ledger & entry & _ & Hentry & <- & _).
  rewrite Forall_forall in Hwalk. destruct (Hwalk entry Hentry) as [Hdata Hline].
  destruct (paths_under_data _ Hdata) as (Ht & Ha & Hne & Hf & Harchive).
  split_and!.
  - rewrite (write_payments_unwritten _ _ _ _ _ _ _ _ _ Hwrite Hf).
    apply decide_False. exact Hne.
  - rewrite (write_payments_unwritten _ _ _ _ _ _ _ _ _ Hwrite Harchive).
    apply decide_True. reflexivity.
  - intros st_mtime' modified_after_delta' walk'.
    pose proof (write_payments_ledger _ _ _ _ _ _ _ _ Hwrite Ha Ht) as Hledger.
    apply (get_file_name_skips_ledger st_mtime' modified_after_delta' fs' walk' _ _ _
             Hledger Hends Hline).
    left. reflexivity.
Qed.

End MainProperties.

(** The search fails on the sample walk when the age test of its last
    file raises ValueError, although its first file passes every test,
    and the script exits. *)
Example get_file_name_age_test_fails :
  get_file_name sample_st_mtime sample_walk_stat_fails sample_disk sample_walk
  = Raise ValueError.
Proof. vm_compute. reflexivity. Qed.

Example main_age_test_fails :
  main ref_store ref_store_insert ref_store_select sample_WRITETIME sample_SYSTIME
    sample_st_mtime sample_walk_stat_fails sample_walk sample_disk []
  = SysExit (<[payments_log := sample_WRITETIME +:+ newline]> sample_disk) 1.
Proof. vm_compute. reflexivity. Qed.

(** * Instances and counterexamples *)

(** C4 on the sample file. *)
Lemma create_payments_full_blocks_witness :
  length sample_lines = 1 + 29 * 1 /\
  exists payments,
    create_payments sample_SYSTIME sample_lines = Ok payments /\
    length payments = 1 /\
    forall b, b < 1 ->
      exists p, payments !! b = Some p /\
                record_of_block sample_SYSTIME sample_lines (1 + 29 * b) p.
Proof.
  split; [reflexivity|].
  apply (create_payments_full_blocks sample_SYSTIME sample_lines 1). reflexivity.
Defined.

(** C5 fails as stated: with one line after the last complete block the
    parser raises IndexError, and with twenty it returns a second record,
    built from the remainder. *)
Lemma create_payments_short_block_counterexample :
  (length short_lines - 1) mod 29 <> 0 /\
  create_payments sample_SYSTIME short_lines = Raise IndexError /\
  (length long_lines - 1) mod 29 <> 0 /\
  exists complete extra,
    create_payments sample_SYSTIME (take 30 long_lines) = Ok [complete] /\
    create_payments sample_SYSTIME long_lines = Ok [complete; extra].
Proof.
  split_and!; [discriminate|reflexivity|discriminate|].
  eexists _, _. split; reflexivity.
Qed.

(** C5, as amended, on the sample file with one more line. *)
Lemma create_payments_short_trailing_block_witness :
  exists complete,
    create_payments sample_SYSTIME (take (1 + 29 * 1) short_lines) = Ok complete /\
    length complete = 1 /\
    (1 <= 18 -> create_payments sample_SYSTIME short_lines = Raise IndexError) /\
    (19 <= 1 ->
       exists p, create_payments sample_SYSTIME short_lines = Ok (complete ++ [p])%list /\
                 record_of_block sample_SYSTIME short_lines (1 + 29 * 1) p).
Proof.
  apply (create_payments_short_trailing_block sample_SYSTIME short_lines 1 1).
  - reflexivity.
  - lia.
Defined.

(** C7 fails as stated: a payee type the first record holds is not the
    payee type of the output record. *)
Lemma sum_payments_frame_counterexample :
  exists out,
    sum_payments sample_SYSTIME [(quoted "1", [typed_payment])] = Ok [out] /\
    getattr typed_payment "payee_type" = Ok (quoted "XX") /\
    getattr out "payee_type" = Ok (quoted "CL").
Proof. eexists. split_and!; vm_compute; reflexivity. Qed.

(** C7, as amended, on the sample group: the payee name of the output is
    the payee name of the first record. *)
Lemma sum_payments_keeps_fields_of_first_witness :
  getattr (sample_payment (quoted "12.50")) "payee_name"
  = getattr (sample_payment (field_line "5.00")) "payee_name".
Proof.
  apply (sum_payments_keeps_fields_of_first sample_SYSTIME sample_groups
           [sample_payment (quoted "12.50")] 0 (quoted "1")
           [sample_payment (field_line "5.00"); sample_payment (field_line "7.50")]).
  - vm_compute. reflexivity.
  - reflexivity.
  - reflexivity.
  - reflexivity.
  - intros key Hkey. apply getattr_Payment_init_default.
    intros Hin. apply Hkey. exact Hin.
  - discriminate.
Defined.

(** C9 on a record with a payee type of its own. *)
Lemma sum_payments_resets_uncopied_fields_witness :
  getattr typed_payment "payee_type" = Ok (quoted "XX") /\
  getattr (Payment_init sample_SYSTIME [("amount", quoted "5.00")]) "payee_type"
  = getattr (defaults sample_SYSTIME) "payee_type".
Proof.
  split; [reflexivity|].
  apply (proj2 (sum_payments_resets_uncopied_fields sample_SYSTIME
                  [(quoted "1", [typed_payment])]
                  [Payment_init sample_SYSTIME [("amount", quoted "5.00")]]
                  ltac:(vm_compute; reflexivity))).
  - apply elem_of_cons. left. reflexivity.
  - apply (bool_decide_unpack _). vm_compute. exact I.
Defined.

(** C8 on a file system that holds the sample file. *)
Lemma write_payments_output_witness :
  exists fs' success_string,
    write_payments "04-NOV-2026 09:00:00" ".\data\bpy331_1.dat"
      {[ ".\data\bpy331_1.dat" := sample_file ]}
      ".\data\bpy331_1.dat" ".\archive\bpy331_1.dat" [sample_payment (quoted "12.50")]
    = Ok (fs', success_string) /\
    success_string = summary_line "04-NOV-2026 09:00:00" 1 1 ".\data\bpy331_1.dat" /\
    fs' !! ".\new\bpy331_1.dat"
    = Some (file_text "HEADER 04112026" [sample_payment (quoted "12.50")]).
Proof.
  assert (Hrun : exists fs' success_string,
            write_payments "04-NOV-2026 09:00:00" ".\data\bpy331_1.dat"
              {[ ".\data\bpy331_1.dat" := sample_file ]}
              ".\data\bpy331_1.dat" ".\archive\bpy331_1.dat"
              [sample_payment (quoted "12.50")]
            = Ok (fs', success_string))
    by (eexists _, _; reflexivity).
  destruct Hrun as (fs' & success_string & Hrun).
  exists fs', success_string. split; [exact Hrun|].
  destruct (write_payments_output "04-NOV-2026 09:00:00" ".\data\bpy331_1.dat"
              {[ ".\data\bpy331_1.dat" := sample_file ]} fs'
              ".\data\bpy331_1.dat" ".\archive\bpy331_1.dat"
              [sample_payment (quoted "12.50")]
              sample_file "HEADER 04112026" [field_line "BEN"] success_string Hrun)
    as [Hsummary Hfile].
  - reflexivity.
  - reflexivity.
  - apply Forall_cons. split; [reflexivity|apply Forall_nil_2].
  - split; [exact Hsummary|]. apply Hfile; discriminate.
Defined.

(** C1 fails as stated: the float nearest to 100000000000000.01 lies
    above it by more than half a hundredth, and the total of the group of
    this one record is written one hundredth above the exact sum. *)
Lemma sum_payments_float_counterexample :
  amount_is_cents (sample_payment (field_line "100000000000000.01")) 10000000000000001 /\
  exact_total [10000000000000001%Z] = "100000000000000.01" /\
  exists out,
    sum_payments sample_SYSTIME
      [(quoted "1", [sample_payment (field_line "100000000000000.01")])] = Ok [out] /\
    getattr out "amount" = Ok (quoted "100000000000000.02").
Proof.
  split_and!.
  - split; [lia|]. exists " "%char. reflexivity.
  - reflexivity.
  - eexists. split; vm_compute; reflexivity.
Qed.

(** C1, as amended, on the sample group: 5.00 and 7.50 make 12.50. *)
Lemma sum_payments_exact_total_witness :
  exact_total [500%Z; 750%Z] = "12.50" /\
  getattr (sample_payment (quoted "12.50")) "amount" = Ok (quoted (exact_total [500%Z; 750%Z])).
Proof.
  split; [reflexivity|].
  destruct (sum_payments_exact_total sample_SYSTIME sample_groups 0 (quoted "1")
              [sample_payment (field_line "5.00"); sample_payment (field_line "7.50")]
              [500%Z; 750%Z]) as [_ Hout].
  - reflexivity.
  - constructor; [split; [lia|exists " "%char; reflexivity]|].
    constructor; [split; [lia|exists " "%char; reflexivity]|].
    constructor.
  - vm_compute. discriminate.
  - reflexivity.
  - apply (Hout [sample_payment (quoted "12.50")]).
    + vm_compute. reflexivity.
    + reflexivity.
Defined.

(** C6 fails as stated: the output amount of a singleton group is not
    the input amount.  The space after the closing quote is gone, and an
    amount written with one decimal comes out with two. *)
Lemma sum_payments_singleton_counterexample :
  (exists out,
     sum_payments sample_SYSTIME [(quoted "1", [sample_payment (field_line "12.50")])]
     = Ok [out] /\
     getattr (sample_payment (field_line "12.50")) "amount" = Ok (quoted "12.50" +:+ " ") /\
     getattr out "amount" = Ok (quoted "12.50")) /\
  (exists out,
     sum_payments sample_SYSTIME [(quoted "1", [sample_payment (field_line "12.5")])]
     = Ok [out] /\
     getattr (sample_payment (field_line "12.5")) "amount" = Ok (quoted "12.5" +:+ " ") /\
     getattr out "amount" = Ok (quoted "12.50")).
Proof. split; eexists; split_and!; vm_compute; reflexivity. Qed.

(** C6, as amended, on a group of one record of 12.50. *)
Lemma sum_payments_singleton_witness :
  exists out,
    sum_group sample_SYSTIME [sample_payment (field_line "12.50")] = Ok out /\
    getattr out "amount" = Ok (quoted "12.50").
Proof.
  destruct (sum_payments_singleton sample_SYSTIME (sample_payment (field_line "12.50"))
              1250 " "%char) as (out & Hout & Hamount & _).
  - intros key Hkey. unfold copied_fields in Hkey.
    repeat (apply elem_of_cons in Hkey as [->|Hkey]; [eexists; reflexivity|]).
    inversion Hkey.
  - reflexivity.
  - lia.
  - exists out. split; [exact Hout|exact Hamount].
Defined.

(** X1 on the sample file and a copy with another header and another
    account reference line. *)
Lemma create_payments_reads_parsed_offsets_witness :
  create_payments sample_SYSTIME sample_lines
  = create_payments sample_SYSTIME
      (<[0 := "ANOTHER HEADER"]> (<[4 := field_line "A2"]> sample_lines)).
Proof.
  apply (create_payments_reads_parsed_offsets sample_SYSTIME sample_lines
           (<[0 := "ANOTHER HEADER"]> (<[4 := field_line "A2"]> sample_lines))).
  - reflexivity.
  - intros b k Hk. unfold parsed_offsets in Hk.
    destruct b as [|b].
    + repeat (apply elem_of_cons in Hk as [->|Hk]; [reflexivity|]). inversion Hk.
    + rewrite !lookup_ge_None_2; [reflexivity|cbn; lia..].
Defined.

(** X2 for a record built with one keyword argument. *)
Lemma Payment_init_has_fields_witness :
  exists value,
    getattr (Payment_init sample_SYSTIME [("amount", field_line "5.00")]) "document_date"
    = Ok value.
Proof.
  apply (Payment_init_has_fields sample_SYSTIME [("amount", field_line "5.00")]
           "document_date").
  unfold field_order. repeat constructor.
Defined.

(** X3 on a record whose fields end with one space. *)
Lemma get_sql_fields_one_trailing_witness :
  get_sql_fields (payee_record " " "5.00")
  = Ok {| sql_bank_account := "12345678"; sql_sort_code := "401234";
          sql_payee_name := "J SMITH"; sql_building_society_num := "7" |}.
Proof.
  apply (get_sql_fields_one_trailing (payee_record " " "5.00")
           "12345678" "401234" "J SMITH" "7" " " " " " " " "); reflexivity.
Defined.

(** X4 on two records of one payee resolved against an empty store. *)
Lemma query_payments_sets_account_ref_only_witness :
  exists store resolved,
    query_payments ref_store ref_store_insert ref_store_select []
      [payee_record " " "5.00"; payee_record " " "7.50"] = Ok (store, resolved) /\
    length resolved = 2 /\
    forall i p p',
      [payee_record " " "5.00"; payee_record " " "7.50"] !! i = Some p ->
      resolved !! i = Some p' ->
      exists sql ref before,
        query_payments ref_store ref_store_insert ref_store_select []
          (take i [payee_record " " "5.00"; payee_record " " "7.50"])
        = Ok (before, take i resolved) /\
        get_sql_fields p = Ok sql /\
        ref_store_select
          (ref_store_insert before (identity_params sql ++ identity_params sql)%list)
          (identity_params sql) = Some ref /\
        p' = setattr "account_ref" (quoted ref) p /\
        getattr p' "account_ref" = Ok (quoted ref) /\
        forall key, key <> "account_ref" -> getattr p' key = getattr p key.
Proof.
  destruct (query_payments ref_store ref_store_insert ref_store_select []
              [payee_record " " "5.00"; payee_record " " "7.50"])
    as [[store resolved]|e] eqn:Hrun; [|vm_compute in Hrun; discriminate].
  exists store, resolved. split; [reflexivity|].
  exact (query_payments_sets_account_ref_only ref_store ref_store_insert ref_store_select
           [] store [payee_record " " "5.00"; payee_record " " "7.50"] resolved Hrun).
Defined.

(** X5 on the same two records: one reference for both. *)
Lemma query_payments_same_key_witness :
  exists store resolved,
    query_payments ref_store ref_store_insert ref_store_select []
      [payee_record " " "5.00"; payee_record " " "7.50"] = Ok (store, resolved) /\
    exists ref p' q',
      resolved !! 0 = Some p' /\ resolved !! 1 = Some q' /\
      getattr p' "account_ref" = Ok (quoted ref) /\
      getattr q' "account_ref" = Ok (quoted ref).
Proof.
  destruct (query_payments ref_store ref_store_insert ref_store_select []
              [payee_record " " "5.00"; payee_record " " "7.50"])
    as [[store resolved]|e] eqn:Hrun; [|vm_compute in Hrun; discriminate].
  exists store, resolved. split; [reflexivity|].
  apply (query_payments_same_key ref_store ref_store_insert ref_store_select
           ref_store_select_stable [] [payee_record " " "5.00"; payee_record " " "7.50"]
           store resolved 0 1 (payee_record " " "5.00") (payee_record " " "7.50") Hrun);
    reflexivity.
Defined.

(** X6 on the same two records: the second run returns them as they are. *)
Lemma query_payments_twice_witness :
  exists store resolved,
    query_payments ref_store ref_store_insert ref_store_select []
      [payee_record " " "5.00"; payee_record " " "7.50"] = Ok (store, resolved) /\
    exists store',
      query_payments ref_store ref_store_insert ref_store_select store resolved
      = Ok (store', resolved).
Proof.
  destruct (query_payments ref_store ref_store_insert ref_store_select []
              [payee_record " " "5.00"; payee_record " " "7.50"])
    as [[store resolved]|e] eqn:Hrun; [|vm_compute in Hrun; discriminate].
  exists store, resolved. split; [reflexivity|].
  exact (query_payments_twice ref_store ref_store_insert ref_store_select
           ref_store_select_stable [] store
           [payee_record " " "5.00"; payee_record " " "7.50"] resolved Hrun).
Defined.

(** X8 on three records under two references. *)
Lemma group_payments_partition_witness :
  exists groups,
    group_payments sample_resolved = Ok groups /\
    NoDup groups.*1 /\
    (forall ref ps, (ref, ps) ∈ groups ->
       ps <> [] /\ Forall (fun p => getattr p "account_ref" = Ok ref) ps) /\
    concat groups.*2 ≡ₚ sample_resolved.
Proof.
  destruct (group_payments sample_resolved) as [groups|e] eqn:Hrun;
    [|vm_compute in Hrun; discriminate].
  exists groups. split; [reflexivity|].
  exact (group_payments_partition sample_resolved groups Hrun).
Defined.

(** X9 on a group whose amount has two spaces after the closing quote. *)
Lemma sum_payments_after_group_payments_raises_witness :
  group_payments [sample_payment (quoted "5.00" +:+ "  ")]
  = Ok [(quoted "1", [sample_payment (quoted "5.00" +:+ "  ")])] /\
  sum_payments sample_SYSTIME [(quoted "1", [sample_payment (quoted "5.00" +:+ "  ")])]
  = Raise ValueError /\
  (ValueError = ValueError \/ ValueError = AttributeError).
Proof.
  assert (Hgroups : group_payments [sample_payment (quoted "5.00" +:+ "  ")]
                    = Ok [(quoted "1", [sample_payment (quoted "5.00" +:+ "  ")])])
    by (vm_compute; reflexivity).
  assert (Hsum : sum_payments sample_SYSTIME
                   [(quoted "1", [sample_payment (quoted "5.00" +:+ "  ")])]
                 = Raise ValueError)
    by (vm_compute; reflexivity).
  split_and!; [exact Hgroups|exact Hsum|].
  exact (sum_payments_after_group_payments_raises sample_SYSTIME _ _ ValueError
           Hgroups Hsum).
Defined.

(** X10 on the sample group of two payments to one payee. *)
Lemma sum_payments_one_record_per_reference_witness :
  exists summed_payments,
    sum_payments sample_SYSTIME sample_groups = Ok summed_payments /\
    exists refs,
      mapM (fun p => getattr p "account_ref")
        [sample_payment (field_line "5.00"); sample_payment (field_line "7.50")] = Ok refs /\
      mapM (fun p => getattr p "account_ref") summed_payments = Ok (first_seen refs) /\
      NoDup (first_seen refs).
Proof.
  destruct (sum_payments sample_SYSTIME sample_groups) as [summed_payments|e] eqn:Hsum;
    [|vm_compute in Hsum; discriminate].
  exists summed_payments. split; [reflexivity|].
  apply (sum_payments_one_record_per_reference sample_SYSTIME
           [sample_payment (field_line "5.00"); sample_payment (field_line "7.50")]
           sample_groups summed_payments); [vm_compute; reflexivity|exact Hsum].
Defined.

(** X11 on a group whose amount has two spaces after the closing quote. *)
Lemma sum_payments_rejects_long_trail_witness :
  Float.of_string (py_slice 1 (-2) (quoted "5.00" +:+ "  ")) = Raise ValueError /\
  forall summed_payments,
    sum_payments sample_SYSTIME [(quoted "1", [sample_payment (quoted "5.00" +:+ "  ")])]
    <> Ok summed_payments.
Proof.
  apply (sum_payments_rejects_long_trail sample_SYSTIME
           [(quoted "1", [sample_payment (quoted "5.00" +:+ "  ")])] (quoted "1")
           [sample_payment (quoted "5.00" +:+ "  ")]
           (sample_payment (quoted "5.00" +:+ "  ")) "5.00" "  ").
  - apply elem_of_cons. left. reflexivity.
  - apply elem_of_cons. left. reflexivity.
  - reflexivity.
  - cbn. lia.
Defined.

(** X24 on the sample group of two payments to one payee. *)
Lemma sum_payments_field_order_witness :
  exists summed_payments,
    sum_payments sample_SYSTIME sample_groups = Ok summed_payments /\
    Forall (fun p => p.*1 = field_order) summed_payments.
Proof.
  destruct (sum_payments sample_SYSTIME sample_groups) as [summed_payments|e] eqn:Hsum;
    [|vm_compute in Hsum; discriminate].
  exists summed_payments. split; [reflexivity|].
  exact (sum_payments_field_order sample_SYSTIME sample_groups summed_payments Hsum).
Defined.

Lemma succeeded_Ok {A : Type} (r : result A) : succeeded r = true -> exists a, r = Ok a.
Proof. destruct r as [a|e]; [eauto|discriminate]. Qed.

(** The sample runs succeed. *)
Lemma sample_write_runs :
  exists fs' success_string,
    write_payments sample_WRITETIME sample_path sample_disk sample_path sample_archive
      [sample_payment (quoted "12.50")] = Ok (fs', success_string).
Proof.
  destruct (succeeded_Ok
              (write_payments sample_WRITETIME sample_path sample_disk sample_path
                 sample_archive [sample_payment (quoted "12.50")]))
    as [[fs' success_string] Hrun]; [vm_compute; reflexivity|].
  exists fs', success_string. exact Hrun.
Qed.

Lemma sample_main_runs :
  exists fs' store,
    main ref_store ref_store_insert ref_store_select sample_WRITETIME sample_SYSTIME
      sample_st_mtime sample_walk_stat sample_walk sample_disk [] = Completed fs' store.
Proof.
  destruct (main ref_store ref_store_insert ref_store_select sample_WRITETIME
              sample_SYSTIME sample_st_mtime sample_walk_stat sample_walk sample_disk [])
    as [fs' store|fs' code|e] eqn:Hrun; [|vm_compute in Hrun; discriminate..].
  exists fs', store. reflexivity.
Qed.

(** X13 on a disk whose data file is empty. *)
Lemma write_payments_raises_witness :
  exists e,
    write_payments sample_WRITETIME sample_path {[ sample_path := EmptyString ]}
      sample_path sample_archive [sample_payment (quoted "12.50")] = Raise e.
Proof.
  apply (write_payments_raises sample_WRITETIME sample_path
           {[ sample_path := EmptyString ]} sample_path sample_archive
           [sample_payment (quoted "12.50")]).
  right. left. reflexivity.
Defined.

(** X14 on the sample disk: one summed record written for the sample file. *)
Lemma write_payments_frame_witness :
  exists fs' success_string,
    write_payments sample_WRITETIME sample_path sample_disk sample_path sample_archive
      [sample_payment (quoted "12.50")] = Ok (fs', success_string) /\
    (forall other, other <> sample_archive ->
       other ∉ [replace "\data" "\new" sample_path; already_checked_log; payments_log] ->
       fs' !! other = sample_disk !! other) /\
    (sample_path ∉ [replace "\data" "\new" sample_path; already_checked_log; payments_log] ->
     fs' !! sample_path = sample_disk !! sample_path) /\
    (sample_archive ∉ [replace "\data" "\new" sample_path; already_checked_log; payments_log] ->
     fs' !! sample_archive = sample_disk !! sample_path).
Proof.
  destruct sample_write_runs as (fs' & success_string & Hrun).
  exists fs', success_string. split; [exact Hrun|].
  exact (write_payments_frame sample_WRITETIME sample_path sample_disk fs' sample_path
           sample_archive [sample_payment (quoted "12.50")] success_string Hrun).
Defined.

(** X15 on the sample disk. *)
Lemma write_payments_appends_to_logs_witness :
  exists fs' success_string,
    write_payments sample_WRITETIME sample_path sample_disk sample_path sample_archive
      [sample_payment (quoted "12.50")] = Ok (fs', success_string) /\
    exists ledger,
      fs' !! already_checked_log = Some ledger /\
      ledger = default EmptyString (sample_disk !! already_checked_log)
               +:+ sample_path +:+ newline /\
      ends_lines ledger = true /\
      fs' !! payments_log
      = Some (default EmptyString (sample_disk !! payments_log) +:+ success_string).
Proof.
  destruct sample_write_runs as (fs' & success_string & Hrun).
  exists fs', success_string. split; [exact Hrun|].
  apply (write_payments_appends_to_logs sample_WRITETIME sample_path sample_disk fs'
           sample_path sample_archive [sample_payment (quoted "12.50")] success_string Hrun);
    apply (bool_decide_unpack _); vm_compute; exact I.
Defined.

(** X16 on the sample disk. *)
Lemma write_payments_then_read_file_witness :
  exists fs' success_string,
    write_payments sample_WRITETIME sample_path sample_disk sample_path sample_archive
      [sample_payment (quoted "12.50")] = Ok (fs', success_string) /\
    exists header rest,
      read_file sample_disk sample_path = Ok (header :: rest) /\
      read_file fs' (replace "\data" "\new" sample_path)
      = Ok (file_lines header [sample_payment (quoted "12.50")]).
Proof.
  destruct sample_write_runs as (fs' & success_string & Hrun).
  exists fs', success_string. split; [exact Hrun|].
  apply (write_payments_then_read_file sample_WRITETIME sample_path sample_disk fs'
           sample_path sample_archive [sample_payment (quoted "12.50")] success_string Hrun).
  - apply (bool_decide_unpack _). vm_compute. exact I.
  - repeat constructor.
  - constructor; [|constructor]. unfold one_line_fields.
    apply (bool_decide_unpack _). vm_compute. exact I.
Defined.

(** X17 on the sample disk. *)
Lemma write_payments_then_create_payments_witness :
  exists fs' success_string,
    write_payments sample_WRITETIME sample_path sample_disk sample_path sample_archive
      [sample_payment (quoted "12.50")] = Ok (fs', success_string) /\
    exists payments,
      (lines ← read_file fs' (replace "\data" "\new" sample_path);
       create_payments sample_SYSTIME lines) = Ok payments /\
      Forall2 (reparsed sample_SYSTIME) [sample_payment (quoted "12.50")] payments.
Proof.
  destruct sample_write_runs as (fs' & success_string & Hrun).
  exists fs', success_string. split; [exact Hrun|].
  apply (write_payments_then_create_payments sample_WRITETIME sample_path sample_disk fs'
           sample_path sample_archive [sample_payment (quoted "12.50")] success_string
           sample_SYSTIME Hrun).
  - apply (bool_decide_unpack _). vm_compute. exact I.
  - repeat constructor.
  - constructor; [|constructor]. unfold one_line_fields.
    apply (bool_decide_unpack _). vm_compute. exact I.
Defined.

(** X18 on the sample disk and walk: the first file is the later one. *)
Lemma get_file_name_most_recent_witness :
  exists ledger before entry after,
    sample_disk !! already_checked_log = Some ledger /\
    filter (fun entry => is_eligible sample_walk_stat (splitlines ledger) entry = true)
      sample_walk = (before ++ entry :: after)%list /\
    walk_path entry = sample_path /\
    (exists middle, walk_file entry = "bpy331_" +:+ middle) /\
    (exists front, walk_file entry = front +:+ ".dat") /\
    sample_walk_stat sample_path = Ok true /\
    (sample_path ∉ splitlines ledger) /\
    Forall (fun other => (sample_st_mtime (walk_path other) < sample_st_mtime sample_path)%Q)
      before /\
    Forall (fun other => (sample_st_mtime (walk_path other) <= sample_st_mtime sample_path)%Q)
      after.
Proof.
  apply (get_file_name_most_recent sample_st_mtime sample_walk_stat sample_disk sample_walk
           sample_path).
  vm_compute. reflexivity.
Defined.

(** X20 on the sample disk: the file just written is not returned again. *)
Lemma write_payments_then_get_file_name_witness :
  exists fs' success_string,
    write_payments sample_WRITETIME sample_path sample_disk sample_path sample_archive
      [sample_payment (quoted "12.50")] = Ok (fs', success_string) /\
    get_file_name sample_st_mtime sample_walk_stat fs' sample_walk <> Ok sample_path.
Proof.
  destruct sample_write_runs as (fs' & success_string & Hrun).
  exists fs', success_string. split; [exact Hrun|].
  apply (write_payments_then_get_file_name sample_WRITETIME sample_path sample_disk fs'
           sample_path sample_archive [sample_payment (quoted "12.50")] success_string
           sample_st_mtime sample_walk_stat sample_walk sample_path Hrun).
  - discriminate.
  - vm_compute. discriminate.
  - vm_compute. reflexivity.
  - reflexivity.
  - left. reflexivity.
Defined.

(** X21 on the sample file of two blocks and an empty store. *)
Lemma aggregate_outputs_witness :
  exists store summed_payments,
    aggregate ref_store ref_store_insert ref_store_select sample_SYSTIME []
      two_payment_lines = Ok (store, summed_payments) /\
    exists payments resolved,
      create_payments sample_SYSTIME two_payment_lines = Ok payments /\
      query_payments ref_store ref_store_insert ref_store_select [] payments
      = Ok (store, resolved) /\
      length summed_payments <= length payments /\
      Forall (fun out =>
                exists first, first ∈ resolved /\
                  forall key, key <> "amount" -> getattr out key = getattr first key)
        summed_payments.
Proof.
  destruct (aggregate ref_store ref_store_insert ref_store_select sample_SYSTIME []
              two_payment_lines) as [[store summed_payments]|e] eqn:Hrun;
    [|vm_compute in Hrun; discriminate].
  exists store, summed_payments. split; [reflexivity|].
  exact (aggregate_outputs ref_store ref_store_insert ref_store_select sample_SYSTIME
           [] store two_payment_lines summed_payments Hrun).
Defined.

(** X22 on the sample disk and walk, with an age test that raises
    ValueError on the last file. *)
Lemma main_exits_when_search_fails_witness :
  main ref_store ref_store_insert ref_store_select sample_WRITETIME sample_SYSTIME
    sample_st_mtime sample_walk_stat_fails sample_walk sample_disk []
  = SysExit
      (<[payments_log := default EmptyString (sample_disk !! payments_log)
                         +:+ sample_WRITETIME +:+ newline]> sample_disk) 1.
Proof.
  apply (main_exits_when_search_fails ref_store ref_store_insert ref_store_select
           sample_WRITETIME sample_SYSTIME sample_st_mtime sample_walk_stat_fails
           sample_walk sample_disk [] EmptyString).
  - reflexivity.
  - left.
    exists [ {| walk_file := "bpy331_1.dat"; walk_path := sample_path |};
             {| walk_file := "notes.txt"; walk_path := ".\data\notes.txt" |} ],
           {| walk_file := "bpy331_2.dat"; walk_path := ".\data\bpy331_2.dat" |}, [].
    split_and!; [reflexivity| |reflexivity|reflexivity].
    constructor; [intros _; exists true; reflexivity|].
    constructor; [intros Hname; discriminate Hname|constructor].
Defined.

(** X23 on the sample disk, walk and store. *)
Lemma main_completed_witness :
  exists fs' store,
    main ref_store ref_store_insert ref_store_select sample_WRITETIME sample_SYSTIME
      sample_st_mtime sample_walk_stat sample_walk sample_disk [] = Completed fs' store /\
    exists f,
      get_file_name sample_st_mtime sample_walk_stat sample_disk sample_walk = Ok f /\
      fs' !! f = sample_disk !! f /\
      fs' !! replace "\data" "\archive" f = sample_disk !! f /\
      forall st_mtime' modified_after_delta' walk',
        get_file_name st_mtime' modified_after_delta' fs' walk' <> Ok f.
Proof.
  destruct sample_main_runs as (fs' & store & Hrun).
  exists fs', store. split; [exact Hrun|].
  apply (main_completed ref_store ref_store_insert ref_store_select sample_WRITETIME
           sample_SYSTIME sample_st_mtime sample_walk_stat sample_walk sample_disk fs'
           [] store Hrun).
  - repeat constructor.
  - vm_compute. reflexivity.
Defined.
